(** * sklad2.0 -- validated, transactional, audited SQL pipeline (main.py)

    A shallow embedding of the core of [main.py]: the command validator
    [validate_sql] with its regular expressions, the transactional
    executor [run_sql], the context assembler [build_stock_context] and
    the orchestrator [on_message], over an explicit model of the SQLite
    connection.  *)

From Stdlib Require Import List NArith ZArith Bool Lia Ascii String DecimalString.
From Stdlib Require Import Sorted Permutation.
Import ListNotations.

Set Implicit Arguments.

(* ================================================================== *)
(** * 1. Python [str]: sequences of Unicode code points               *)
(* ================================================================== *)

Abbreviation char := N (only parsing).
Abbreviation str := (list N) (only parsing).

(** ASCII literals of the source, as code points. *)
Fixpoint u (s : string) : str :=
  match s with
  | EmptyString => []
  | String a r => N_of_ascii a :: u r
  end.

Definition str_eqb (a b : str) : bool :=
  if list_eq_dec N.eq_dec a b then true else false.

(** The two Unicode tables that [re] and [str] consult.  White space
    ([Py_UNICODE_ISSPACE]) is a short fixed list; the alphanumeric table
    above U+007F is large and is kept as a parameter of the development. *)
Class Unicode := { uni_alnum : char -> bool }.

Definition in_range (lo hi c : N) : bool := (lo <=? c)%N && (c <=? hi)%N.

(** [str.isspace] on one code point; also the regex class [\s]. *)
Definition is_space (c : char) : bool :=
  in_range 9 13 c || in_range 28 32 c || (c =? 133)%N || (c =? 160)%N
  || (c =? 5760)%N || in_range 8192 8202 c || (c =? 8232)%N
  || (c =? 8233)%N || (c =? 8239)%N || (c =? 8287)%N || (c =? 12288)%N.

Definition ascii_alnum (c : char) : bool :=
  in_range 48 57 c || in_range 65 90 c || in_range 97 122 c.

(** The regex class [\w] for [str] patterns: alphanumeric or underscore. *)
Definition is_word `{Unicode} (c : char) : bool :=
  if (c <? 128)%N then ascii_alnum c || (c =? 95)%N else uni_alnum c.

(** Case folding seen by [re.I] on a [str] pattern: besides the 26 ASCII
    pairs, U+0130 and U+0131 fold with [i], U+017F with [s] and U+212A
    with [k]. *)
Definition fold_ci (c : char) : char :=
  if in_range 65 90 c then (c + 32)%N
  else if (c =? 304)%N || (c =? 305)%N then 105%N
  else if (c =? 383)%N then 115%N
  else if (c =? 8490)%N then 107%N
  else c.

(** A literal [p] of a pattern compiled with [re.I] against the subject
    character [x] ([p] ranges over the ASCII literals of the patterns
    below). *)
Definition lit_ci (p x : char) : bool := (fold_ci x =? fold_ci p)%N.

(** [str.strip()] *)
Fixpoint lstrip (s : str) : str :=
  match s with
  | c :: r => if is_space c then lstrip r else s
  | [] => []
  end.

Definition rstrip (s : str) : str := rev (lstrip (rev s)).
Definition strip (s : str) : str := rstrip (lstrip s).

(** [str.split(sep)] for a one-character separator: one more piece than
    there are separators, empty pieces kept. *)
Fixpoint split (sep : char) (s : str) : list str :=
  match s with
  | [] => [[]]
  | c :: r =>
      if (c =? sep)%N then [] :: split sep r
      else match split sep r with
           | h :: t => (c :: h) :: t
           | [] => [[c]]
           end
  end.

(** [sep.join(parts)] *)
Fixpoint join (sep : str) (parts : list str) : str :=
  match parts with
  | [] => []
  | [p] => p
  | p :: rest => p ++ sep ++ join sep rest
  end.

(** Python truthiness of a [str]. *)
Definition nonempty (s : str) : bool :=
  match s with [] => false | _ => true end.

(* ================================================================== *)
(** * 2. The fragment of [re] used by the validator                   *)
(* ================================================================== *)

(** Regular expressions as the source writes them.  Only the truth value
    of a match object is ever consulted, so greedy and lazy repetition are
    one constructor. *)
Inductive regex : Type :=
| Eps                         (* empty pattern *)
| Chr (c : char)              (* a literal, under re.I *)
| Space                       (* \s *)
| Dot                         (* .  (no DOTALL: anything but a newline) *)
| AnyCh                       (* [\s\S] *)
| Bol                         (* ^  (no MULTILINE: start of the subject) *)
| Wordb                       (* \b *)
| Cat (a b : regex)
| Alt (a b : regex)
| Star (a : regex).

Declare Scope re_scope.
Delimit Scope re_scope with re.
Bind Scope re_scope with regex.
Notation "a ~> b" := (Cat a b) (at level 60, right associativity) : re_scope.
Notation "a <|> b" := (Alt a b) (at level 65, right associativity) : re_scope.

Definition Plus (a : regex) : regex := Cat a (Star a).

Fixpoint Lits (s : str) : regex :=
  match s with
  | [] => Eps
  | c :: r => Cat (Chr c) (Lits r)
  end.

(** A keyword written in the pattern text. *)
Definition Kw (s : string) : regex := Lits (u s).

(** A cursor into the subject: the character just before it ([None] at the
    start of the subject) and the text still ahead. *)
Abbreviation cursor := (option N * list N)%type (only parsing).

Definition ahead (p : cursor) : str := snd p.

Definition word_before `{Unicode} (p : cursor) : bool :=
  match fst p with Some c => is_word c | None => false end.

Definition word_after `{Unicode} (p : cursor) : bool :=
  match snd p with c :: _ => is_word c | [] => false end.

Definition at_boundary `{Unicode} (p : cursor) : bool :=
  xorb (word_before p) (word_after p).

Definition eat (f : char -> bool) (p : cursor) : list cursor :=
  match snd p with
  | c :: r => if f c then [(Some c, r)] else []
  | [] => []
  end.

(** Repetition: zero or more rounds of [step]; a round that consumes
    nothing is not repeated. *)
Fixpoint star_from (step : cursor -> list cursor) (fuel : nat) (p : cursor)
  : list cursor :=
  p :: match fuel with
       | O => []
       | S f =>
           flat_map
             (fun q =>
                if (List.length (ahead q) <? List.length (ahead p))%nat
                then star_from step f q else [])
             (step p)
       end.

(** All the cursors at which a match of [r] that starts at [p] can end. *)
Fixpoint run `{Unicode} (r : regex) (p : cursor) : list cursor :=
  match r with
  | Eps => [p]
  | Chr c => eat (lit_ci c) p
  | Space => eat is_space p
  | Dot => eat (fun x => negb (x =? 10)%N) p
  | AnyCh => eat (fun _ => true) p
  | Bol => match fst p with None => [p] | Some _ => [] end
  | Wordb => if at_boundary p then [p] else []
  | Cat a b => flat_map (run b) (run a p)
  | Alt a b => run a p ++ run b p
  | Star a => star_from (run a) (List.length (ahead p)) p
  end.

Definition found (l : list cursor) : bool :=
  match l with [] => false | _ => true end.

(** [bool(pattern.match(s))] *)
Definition re_match `{Unicode} (r : regex) (s : str) : bool :=
  found (run r (None, s)).

(** [bool(pattern.search(s))]: a match starting at any position, the
    positions tried from left to right. *)
Fixpoint search_from `{Unicode} (r : regex) (prev : option char) (s : str)
  : bool :=
  found (run r (prev, s))
  || match s with
     | c :: rest => search_from r (Some c) rest
     | [] => false
     end.

Definition re_search `{Unicode} (r : regex) (s : str) : bool :=
  search_from r None s.

(* ================================================================== *)
(** * 3. SQL validation ([main.py], section 4)                        *)
(* ================================================================== *)

Open Scope re_scope.

Definition VERBS : regex :=
  Kw "SELECT" <|> Kw "INSERT" <|> Kw "UPDATE" <|> Kw "DELETE".

(** [^\s*(WITH\b[\s\S]+?\b(SELECT|INSERT|UPDATE|DELETE)|SELECT|INSERT|UPDATE|DELETE)\b] *)
Definition SAFE_SQL_PATTERN : regex :=
  Bol ~> Star Space ~>
  ((Kw "WITH" ~> Wordb ~> Plus AnyCh ~> Wordb ~> VERBS) <|> VERBS) ~>
  Wordb.

(** [^\s*(DROP|ALTER|TRUNCATE|PRAGMA|ATTACH|DETACH)\b] *)
Definition FORBIDDEN_PATTERN : regex :=
  Bol ~> Star Space ~>
  (Kw "DROP" <|> Kw "ALTER" <|> Kw "TRUNCATE" <|> Kw "PRAGMA"
   <|> Kw "ATTACH" <|> Kw "DETACH") ~>
  Wordb.

(** [^\s*DELETE\s+FROM\s+<table>\b] *)
Definition DELETE_FROM (table : string) : regex :=
  Bol ~> Star Space ~> Kw "DELETE" ~> Plus Space ~> Kw "FROM" ~>
  Plus Space ~> Kw table ~> Wordb.

(** [^\s*DELETE\s+FROM\s+stock\b] *)
Definition DELETE_STOCK : regex := DELETE_FROM "stock".

(** [\bWHERE\b.*\bitem_id\b.*\blocation_code\b] *)
Definition WHERE_ITEM_LOCATION : regex :=
  Wordb ~> Kw "WHERE" ~> Wordb ~> Star Dot ~> Wordb ~> Kw "item_id" ~>
  Wordb ~> Star Dot ~> Wordb ~> Kw "location_code" ~> Wordb.

(** [^\s*DELETE\s+FROM\s+items\b] *)
Definition DELETE_ITEMS : regex := DELETE_FROM "items".

Close Scope re_scope.

(** [[s.strip() for s in sql.split(";") if s.strip()]] *)
Definition statements (sql : str) : list str :=
  map strip (filter (fun s => nonempty (strip s)) (split 59%N sql)).

(** The body of the [for s in stmts] loop: [false] where the source
    returns [None]. *)
Fixpoint check_stmts `{Unicode} (stmts : list str) : bool :=
  match stmts with
  | [] => true
  | s :: rest =>
      if re_match FORBIDDEN_PATTERN s then false
      else if negb (re_match SAFE_SQL_PATTERN s) then false
      else if re_match DELETE_STOCK s
              && negb (re_search WHERE_ITEM_LOCATION s) then false
      else if re_match DELETE_ITEMS s then false
      else check_stmts rest
  end.

Definition validate_sql `{Unicode} (sql : str) : option (list str) :=
  let stmts := statements sql in
  if negb ((1 <=? List.length stmts)%nat && (List.length stmts <=? 6)%nat) then None
  else if check_stmts stmts then Some stmts else None.

(** ** Declarative reading of the patterns

    [Matches r p q]: the pattern [r] can match the text between the
    cursors [p] and [q]. *)
Inductive Matches `{Unicode} : regex -> cursor -> cursor -> Prop :=
| M_Eps p : Matches Eps p p
| M_Chr c o x r : lit_ci c x = true -> Matches (Chr c) (o, x :: r) (Some x, r)
| M_Space o x r : is_space x = true -> Matches Space (o, x :: r) (Some x, r)
| M_Dot o x r : (x =? 10)%N = false -> Matches Dot (o, x :: r) (Some x, r)
| M_AnyCh o x r : Matches AnyCh (o, x :: r) (Some x, r)
| M_Bol s : Matches Bol (None, s) (None, s)
| M_Wordb p : at_boundary p = true -> Matches Wordb p p
| M_Cat a b p q t : Matches a p q -> Matches b q t -> Matches (Cat a b) p t
| M_AltL a b p q : Matches a p q -> Matches (Alt a b) p q
| M_AltR a b p q : Matches b p q -> Matches (Alt a b) p q
| M_Star0 a p : Matches (Star a) p p
| M_StarS a p q t :
    Matches a p q -> Matches (Star a) q t -> Matches (Star a) p t.

(** The character before the cursor once [w] has been read. *)
Fixpoint walk (w : str) (prev : option char) : option char :=
  match w with
  | [] => prev
  | c :: r => walk r (Some c)
  end.

(** The cursor between [a] and [b] in the subject [a ++ b]. *)
Definition cur (a b : str) : cursor := (walk a None, b).

(** The cursor at offset [k] of [s]. *)
Definition cursor_at (s : str) (k : nat) : cursor :=
  cur (firstn k s) (skipn k s).

(** ** Lexical notions in which the validator's properties are stated *)

(** Read the word [w] at the cursor, letter case ignored. *)
Fixpoint ci_eat (w : str) (p : cursor) : option cursor :=
  match w with
  | [] => Some p
  | c :: w' =>
      match snd p with
      | x :: r => if lit_ci c x then ci_eat w' (Some x, r) else None
      | [] => None
      end
  end.

(** [v] spells the word [w], letter case ignored. *)
Fixpoint ci_eqb (w v : str) : bool :=
  match w, v with
  | [], [] => true
  | c :: w', x :: v' => lit_ci c x && ci_eqb w' v'
  | _, _ => false
  end.

(** [s] begins with the word [w], letter case ignored. *)
Definition ci_starts (w s : str) : bool :=
  match ci_eat w (None, s) with Some _ => true | None => false end.

(** Two words agree, letter for letter and letter case ignored, as far
    as both go. *)
Fixpoint ci_agree (w1 w2 : str) : bool :=
  match w1, w2 with
  | c1 :: r1, c2 :: r2 => (fold_ci c1 =? fold_ci c2)%N && ci_agree r1 r2
  | _, _ => true
  end.

(** Skip a run of white space. *)
Fixpoint spaces (prev : option char) (s : str) : cursor :=
  match s with
  | c :: r => if is_space c then spaces (Some c) r else (prev, s)
  | [] => (prev, [])
  end.

(** Skip at least one white-space character. *)
Definition spaces1 (p : cursor) : option cursor :=
  match snd p with
  | c :: r => if is_space c then Some (spaces (Some c) r) else None
  | [] => None
  end.

Definition obind {A B} (o : option A) (f : A -> option B) : option B :=
  match o with Some a => f a | None => None end.

(** [s] begins with DELETE, white space, FROM, white space and the table
    name [tbl] as a whole word. *)
Definition begins_delete_from `{Unicode} (tbl : str) (s : str) : bool :=
  match
    obind (ci_eat (u "DELETE") (None, s)) (fun p1 =>
    obind (spaces1 p1) (fun p2 =>
    obind (ci_eat (u "FROM") p2) (fun p3 =>
    obind (spaces1 p3) (fun p4 =>
    ci_eat tbl p4))))
  with
  | Some p5 => at_boundary p5
  | None => false
  end.

(** The word [w] stands at the cursor as a token: spelled there, letter
    case ignored, between two word boundaries. *)
Definition token_here `{Unicode} (w : str) (p : cursor) : bool :=
  at_boundary p
  && match ci_eat w p with Some q => at_boundary q | None => false end.

(** The offsets of [s] at which the token [w] stands. *)
Definition token_positions `{Unicode} (w : str) (s : str) : list nat :=
  filter (fun k => token_here w (cursor_at s k)) (seq 0 (S (List.length s))).

(** Every occurrence of the token [first] lies before every occurrence of
    the token [second]. *)
Definition all_before `{Unicode} (first second : str) (s : str) : bool :=
  forallb
    (fun j => forallb (fun i => (i <? j)%nat) (token_positions first s))
    (token_positions second s).

Definition DENYLIST : list string :=
  ["DROP"; "ALTER"; "TRUNCATE"; "PRAGMA"; "ATTACH"; "DETACH"]%string.

Definition VERB_NAMES : list string :=
  ["SELECT"; "INSERT"; "UPDATE"; "DELETE"]%string.

(** [v] spells one of the four permitted verbs, letter case ignored. *)
Definition is_verb (v : str) : Prop :=
  exists k, In k VERB_NAMES /\ ci_eqb (u k) v = true.

(** No word character follows. *)
Definition word_ends `{Unicode} (rest : str) : Prop :=
  match rest with c :: _ => is_word c = false | [] => True end.

(** The statement begins with a permitted verb, as a whole word. *)
Definition begins_with_verb `{Unicode} (s : str) : Prop :=
  exists v rest, s = v ++ rest /\ is_verb v /\ word_ends rest.

(** The statement begins with WITH as a whole word and, after at least one
    more character, carries a permitted verb as a whole word. *)
Definition with_prefixed `{Unicode} (s : str) : Prop :=
  exists w mid v rest,
    s = w ++ mid ++ v ++ rest
    /\ ci_eqb (u "WITH") w = true
    /\ mid <> [] /\ word_ends mid
    /\ at_boundary (cur (w ++ mid) (v ++ rest)) = true
    /\ is_verb v /\ word_ends rest.

Definition permitted_shape `{Unicode} (s : str) : Prop :=
  begins_with_verb s \/ with_prefixed s.

(** A table for closed computations: ASCII plus the Cyrillic block
    U+0400..U+04FF (letters throughout but for U+0482..U+0489), which is
    where the location codes of [LOCATION_ROWS] live. *)
#[export] Instance cyrillic_table : Unicode :=
  {| uni_alnum c := in_range 1024 1153 c || in_range 1162 1279 c |}.

(* ================================================================== *)
(** * 4. The store ([SCHEMA]) and the SQLite connection               *)
(* ================================================================== *)

(** Literals of the source outside ASCII: the UTF-8 bytes of a literal of
    this file, decoded to code points (sequences of one to three bytes). *)
Fixpoint utf8_decode (l : list N) : str :=
  match l with
  | [] => []
  | b0 :: r =>
      if (b0 <? 128)%N then b0 :: utf8_decode r
      else match r with
           | [] => [b0]
           | b1 :: r1 =>
               if (b0 <? 224)%N
               then ((b0 - 192) * 64 + (b1 - 128))%N :: utf8_decode r1
               else match r1 with
                    | [] => [b0; b1]
                    | b2 :: r2 =>
                        ((b0 - 224) * 4096 + (b1 - 128) * 64 + (b2 - 128))%N
                          :: utf8_decode r2
                    end
           end
  end.

Definition utf8 (s : string) : str := utf8_decode (u s).

(** [str(n)] for a Python [int]. *)
Definition py_str_int (z : Z) : str :=
  u (NilEmpty.string_of_int (Z.to_int z)).

(** A quantity as the column [stock.qty] holds it: the column is
    declared [INTEGER CHECK(qty > 0)] and not [NOT NULL], so it holds an
    integer or NULL. *)
Inductive quantity : Type :=
| QNull
| QInt (z : Z).

Coercion QInt : Z >-> quantity.

(** Rows of the four tables.  Columns carry their declared type; of the
    nullable columns [items.size], which the source itself treats as
    nullable ([IFNULL], [size IS NULL]), and [stock.qty] are given NULL
    (the key columns of [stock] and values of another type than the
    declared one are left out).  The clock column [tx_log.ts] is left out,
    and [tx_log.id] is the position in the list. *)
Record item_row := Item { item_id : Z; item_name : str; item_size : option str }.

Record stock_row := Stock {
  stock_item : Z;
  stock_location : str;
  stock_qty : quantity
}.
Arguments Stock stock_item%_Z stock_location stock_qty%_Z.

Record log_row := Log {
  log_user : str;
  log_sql_text : str;
  log_summary : option str;
  log_success : bool
}.

Record DB := Store {
  items : list item_row;
  locations : list str;
  stock : list stock_row;
  tx_log : list log_row
}.

(** The data tables: the store state that a transaction is about. *)
Definition data (db : DB) : list item_row * list str * list stock_row :=
  (items db, locations db, stock db).

Definition with_stock (db : DB) (st : list stock_row) : DB :=
  Store (items db) (locations db) st (tx_log db).

Definition with_locations (db : DB) (locs : list str) : DB :=
  Store (items db) locs (stock db) (tx_log db).

Definition log_append (db : DB) (r : log_row) : DB :=
  Store (items db) (locations db) (stock db) (tx_log db ++ [r]).

(** The quantity is an integer greater than 0. *)
Definition positive (q : quantity) : Prop :=
  match q with
  | QInt z => (z > 0)%Z
  | QNull => False
  end.

(** Every row of [stock] has a quantity greater than 0. *)
Definition stock_positive (db : DB) : Prop :=
  Forall (fun r => positive (stock_qty r)) (stock db).

(** [CHECK(qty > 0)] as SQLite evaluates it: a row is refused only where
    the expression is false, and on NULL it is NULL. *)
Definition check_qty (q : quantity) : bool :=
  match q with
  | QInt z => (0 <? z)%Z
  | QNull => true
  end.

(** [qty + n] and [qty - n]; NULL stays NULL. *)
Definition qty_add (q : quantity) (n : Z) : quantity :=
  match q with
  | QInt z => QInt (z + n)
  | QNull => QNull
  end.

(** [COLLATE NOCASE]: only the 26 ASCII capitals are folded. *)
Definition nocase_char (c : char) : char :=
  if in_range 65 90 c then (c + 32)%N else c.

Definition nocase (s : str) : str := map nocase_char s.

Definition nocase_eqb (a b : str) : bool := str_eqb (nocase a) (nocase b).

(** A value in a result row or bound to a parameter. *)
Inductive sqlval : Type :=
| VNull
| VInt (z : Z)
| VText (s : str).

(** A fetched row: the columns of the result, by name, in order. *)
Abbreviation row := (list (list N * sqlval)) (only parsing).

(** What executing one statement inside the open transaction does.
    [Failed msg db']: the statement raised and the transaction stays open
    at [db'] (the state before the statement under the default ABORT
    resolution, the rows already written under OR FAIL).
    [FailedRollback msg]: the statement raised and SQLite rolled the whole
    transaction back (OR ROLLBACK). *)
Inductive exec_result : Type :=
| Done (db' : DB) (rows : list row)
| Failed (msg : str) (db' : DB)
| FailedRollback (msg : str).

(** The SQL engine behind [db.execute]: SQLite itself is not part of the
    repository and is a parameter of the executor. *)
Abbreviation engine := (list N -> DB -> exec_result) (only parsing).

(** The connection shared by the whole application: the committed
    database, the database as the open transaction sees it, whether a
    transaction is open, and whether [row_factory] is [aiosqlite.Row]. *)
Record Conn := Connection {
  committed : DB;
  working : DB;
  in_tx : bool;
  row_factory : bool
}.

Definition set_working (c : Conn) (db : DB) : Conn :=
  Connection (committed c) db (in_tx c) (row_factory c).

(** [BEGIN]: refused inside a transaction. *)
Definition begin (c : Conn) : option Conn :=
  if in_tx c then None
  else Some (Connection (committed c) (working c) true (row_factory c)).

(** The implicit [BEGIN] that [sqlite3] issues before a DML statement. *)
Definition implicit_begin (c : Conn) : Conn :=
  Connection (committed c) (working c) true (row_factory c).

(** [db.commit()] *)
Definition commit (c : Conn) : Conn :=
  Connection (working c) (working c) false (row_factory c).

(** A rollback by the engine. *)
Definition rolled_back (c : Conn) : Conn :=
  Connection (committed c) (committed c) false (row_factory c).

Definition fresh_db : DB := Store [] [] [] [].

Definition fresh_conn : Conn := Connection fresh_db fresh_db false false.

(** [LOCATION_ROWS = "АБВГДЕ"], [LOCATION_COLS = list(range(1, 11))] *)
Definition LOCATION_ROWS : str := utf8 "АБВГДЕ".
Definition LOCATION_COLS : list Z := [1; 2; 3; 4; 5; 6; 7; 8; 9; 10]%Z.

Definition ALLOWED_SIZES : list str :=
  [u "XS"; u "S"; u "M"; u "L"; u "XL"; u "XXL"; u "XXXL"].

(** [[(f"{r}{c}",) for r in LOCATION_ROWS for c in LOCATION_COLS]] *)
Definition location_seed : list str :=
  flat_map (fun r => map (fun c => r :: py_str_int c) LOCATION_COLS)
           LOCATION_ROWS.

(** [INSERT OR IGNORE INTO locations(code) VALUES (?)] *)
Definition insert_location (locs : list str) (code : str) : list str :=
  if existsb (nocase_eqb code) locs then locs else locs ++ [code].

(** [init_db]: the tables are created if missing, the cells seeded, and
    the whole committed. *)
Definition init_db (c : Conn) : Conn :=
  let db := working c in
  commit (set_working c
            (with_locations db (fold_left insert_location location_seed
                                          (locations db)))).

(* ================================================================== *)
(** * 5. The transactional executor ([run_sql])                       *)
(* ================================================================== *)

(** Values decoded from the collaborator's JSON, as Python objects
    ([None] is [JNull]; of the numbers, the integers). *)
#[warnings="-register-all"]
Inductive json : Type :=
| JNull
| JBool (b : bool)
| JNum (z : Z)
| JStr (s : str)
| JArr (l : list json)
| JObj (l : list (list N * json)).

(** Python exceptions that the pipeline can meet. *)
Inductive exn : Type :=
| DatabaseError (msg : str)     (* aiosqlite.Error and its subclasses *)
| TypeError
| AttributeError
| ValueError
| OverflowError
| UnicodeEncodeError.

(** How a call ends. *)
Inductive outcome (A : Type) : Type :=
| Returned (a : A)
| Raised (e : exn).
Arguments Returned {A} a.
Arguments Raised {A} e.

Definition returned {A} (o : outcome A) : bool :=
  match o with Returned _ => true | Raised _ => false end.

(** A [str] that [sqlite3] can encode as UTF-8, as it does with every
    statement and every text parameter: one without a surrogate code
    point (a [str] holds them unpaired, [json.loads] yields them). *)
Definition encodable (s : str) : bool :=
  forallb (fun c => negb (in_range 55296 57343 c)) s.

(** The message of the error raised for a parameter of a type that
    [sqlite3] does not support (its wording is that of Python 3.11; no
    statement below depends on it). *)
Definition UNSUPPORTED_TYPE (type_name : string) : str :=
  u "Error binding parameter 3: type '" ++ u type_name
    ++ u "' is not supported".

(** A parameter bound to a TEXT column: [None] is NULL, a [str] is
    encoded and stored as it is, an [int] of 64 bits or a [bool] is stored
    as its decimal text; a list or a dict cannot be bound. *)
Definition bind_text (v : json) : outcome (option str) :=
  match v with
  | JNull => Returned None
  | JStr s => if encodable s then Returned (Some s) else Raised UnicodeEncodeError
  | JNum z =>
      if (- 2 ^ 63 <=? z)%Z && (z <? 2 ^ 63)%Z
      then Returned (Some (py_str_int z)) else Raised OverflowError
  | JBool b => Returned (Some (py_str_int (if b then 1 else 0)%Z))
  | JArr _ => Raised (DatabaseError (UNSUPPORTED_TYPE "list"))
  | JObj _ => Raised (DatabaseError (UNSUPPORTED_TYPE "dict"))
  end.

Definition dict_set (d : row) (k : str) (v : sqlval) : row :=
  if existsb (fun kv => str_eqb (fst kv) k) d
  then map (fun kv => if str_eqb (fst kv) k then (k, v) else kv) d
  else d ++ [(k, v)].

(** [r[k]] on an [aiosqlite.Row]: the first column of that name, ASCII
    letter case ignored. *)
Fixpoint row_get (k : str) (r : row) : sqlval :=
  match r with
  | [] => VNull
  | (name, v) :: rest => if nocase_eqb name k then v else row_get k rest
  end.

(** [dict(r)] for a fetched row: with [aiosqlite.Row] the columns by
    name; for a plain tuple [dict] wants every element to be a pair, which
    of the values here only a two-character text is: a text of another
    length raises [ValueError], NULL or a number [TypeError]. *)
Definition py_dict (row_factory_set : bool) (r : row) : outcome row :=
  if row_factory_set
  then Returned (fold_left (fun d kv => dict_set d (fst kv) (row_get (fst kv) r))
                           r [])
  else fold_left
         (fun acc kv =>
            match acc with
            | Returned d =>
                match snd kv with
                | VText [k; x] => Returned (dict_set d [k] (VText [x]))
                | VText _ => Raised ValueError
                | VNull | VInt _ => Raised TypeError
                end
            | Raised e => Raised e
            end) r (Returned []).

(** [[dict(r) for r in rows]] *)
Fixpoint py_dicts (row_factory_set : bool) (rows : list row)
  : outcome (list row) :=
  match rows with
  | [] => Returned []
  | r :: rest =>
      match py_dict row_factory_set r with
      | Returned d =>
          match py_dicts row_factory_set rest with
          | Returned ds => Returned (d :: ds)
          | Raised e => Raised e
          end
      | Raised e => Raised e
      end
  end.

(** The loop [for s in stmts] of [run_sql], inside the transaction. *)
Fixpoint run_stmts (exec : engine) (c : Conn) (stmts : list str) (mode : str)
         (res : list row) : outcome (list row) * Conn :=
  match stmts with
  | [] => (Returned res, c)
  | s :: rest =>
      if encodable s then
        match exec s (working c) with
        | Done db' rows =>
            let c' := set_working c db' in
            if str_eqb mode (u "read")
            then match py_dicts (row_factory c) rows with
                 | Returned res' => run_stmts exec c' rest mode res'
                 | Raised e => (Raised e, c')
                 end
            else run_stmts exec c' rest mode res
        | Failed msg db' => (Raised (DatabaseError msg), set_working c db')
        | FailedRollback msg => (Raised (DatabaseError msg), rolled_back c)
        end
      else (Raised UnicodeEncodeError, c)
  end.

(** The [try] block of [run_sql]: BEGIN, the statements, [db.commit()]. *)
Definition run_try (exec : engine) (c : Conn) (stmts : list str) (mode : str)
  : outcome (list row) * Conn :=
  match begin c with
  | None =>
      (Raised (DatabaseError
                 (u "cannot start a transaction within a transaction")), c)
  | Some c0 =>
      match run_stmts exec c0 stmts mode [] with
      | (Returned res, c1) => (Returned res, commit c1)
      | (Raised e, c1) => (Raised e, c1)
      end
  end.

(** The parameters [(user, sql_all, summary, int(ok))] bound in their
    order; the value is what the column [summary] receives. *)
Definition bind_params (user sql_all : str) (summary : json)
  : outcome (option str) :=
  if encodable user then
    if encodable sql_all then bind_text summary
    else Raised UnicodeEncodeError
  else Raised UnicodeEncodeError.

(** The INSERT into [tx_log] followed by [db.commit()], as the [finally]
    block of [run_sql] has them: the audit row is inserted through the
    same connection and the connection committed.  [sqlite3] opens the
    transaction of the INSERT before it binds the parameters, so a
    parameter that cannot be bound leaves that transaction open, and the
    commit is not reached. *)
Definition log_attempt (c : Conn) (user sql_all : str) (summary : json)
           (ok : bool) : outcome unit * Conn :=
  match bind_params user sql_all summary with
  | Returned sm =>
      (Returned tt,
       commit (set_working (implicit_begin c)
                 (log_append (working c) (Log user sql_all sm ok))))
  | Raised e => (Raised e, implicit_begin c)
  end.

(** [run_sql]: an exception raised in the [finally] block takes the
    place of the result of the [try] block. *)
Definition run_sql (exec : engine) (c : Conn) (stmts : list str) (mode user : str)
           (summary : json) : outcome (list row) * Conn :=
  let sql_all := join (u "; ") stmts in
  let '(result, c1) := run_try exec c stmts mode in
  let ok := returned result in
  match log_attempt c1 user sql_all summary ok with
  | (Returned _, c2) => (result, c2)
  | (Raised e, c2) => (Raised e, c2)
  end.

(** [summary: str | None] as the Python object passed. *)
Definition py_opt_str (s : option str) : json :=
  match s with Some t => JStr t | None => JNull end.


(* ================================================================== *)
(** * 6. The context assembler ([build_stock_context])                *)
(* ================================================================== *)

(** Comparison of texts under [COLLATE NOCASE], code point by code point. *)
Fixpoint str_cmp (a b : str) : comparison :=
  match a, b with
  | [], [] => Eq
  | [], _ :: _ => Lt
  | _ :: _, [] => Gt
  | x :: a', y :: b' =>
      match (x ?= y)%N with
      | Eq => str_cmp a' b'
      | c => c
      end
  end.

Definition nocase_cmp (a b : str) : comparison := str_cmp (nocase a) (nocase b).

(** NULL sorts before every text. *)
Definition size_cmp (a b : option str) : comparison :=
  match a, b with
  | None, None => Eq
  | None, Some _ => Lt
  | Some _, None => Gt
  | Some x, Some y => nocase_cmp x y
  end.

Definition lex (c1 c2 : comparison) : comparison :=
  match c1 with Eq => c2 | _ => c1 end.

(** A row of [stock JOIN items ON items.id = stock.item_id]. *)
Abbreviation joined := (item_row * stock_row)%type (only parsing).

(** [ORDER BY items.name, items.size, stock.location_code] *)
Definition order_cmp (r1 r2 : joined) : comparison :=
  lex (nocase_cmp (item_name (fst r1)) (item_name (fst r2)))
   (lex (size_cmp (item_size (fst r1)) (item_size (fst r2)))
        (nocase_cmp (stock_location (snd r1)) (stock_location (snd r2)))).

Definition order_leb (r1 r2 : joined) : bool :=
  match order_cmp r1 r2 with Gt => false | _ => true end.

Fixpoint insert_row (r : joined) (l : list joined) : list joined :=
  match l with
  | [] => [r]
  | h :: t => if order_leb r h then r :: l else h :: insert_row r t
  end.

(** The sort behind ORDER BY; rows that compare equal keep the order in
    which the join produced them. *)
Definition order_rows (l : list joined) : list joined :=
  fold_right insert_row [] l.

(** The join, the stock table scanned in storage order. *)
Definition join_rows (db : DB) : list joined :=
  flat_map
    (fun st =>
       map (fun it => (it, st))
           (filter (fun it => (item_id it =? stock_item st)%Z) (items db)))
    (stock db).

(** The rows fetched by the query of [build_stock_context]. *)
Definition stock_listing (db : DB) : list joined :=
  order_rows (join_rows db).

(** The SELECT list: [items.name, IFNULL(items.size,'NULL') AS size,
    stock.location_code, stock.qty]. *)
Definition selected (r : joined) : str * str * str * quantity :=
  (item_name (fst r),
   match item_size (fst r) with Some s => s | None => u "NULL" end,
   stock_location (snd r),
   stock_qty (snd r)).

(** [str(q)] for a quantity. *)
Definition py_str_quantity (q : quantity) : str :=
  match q with
  | QInt z => py_str_int z
  | QNull => u "None"
  end.

(** [f"- {r['name']}, {r['size']}, {r['location_code']}, qty={r['qty']}"] *)
Definition context_line (r : joined) : str :=
  let '(name, size, location_code, qty) := selected r in
  u "- " ++ name ++ u ", " ++ size ++ u ", " ++ location_code
    ++ u ", qty=" ++ py_str_quantity qty.

(** [rows[:limit]] for a Python [int]: a negative bound counts from the
    end. *)
Definition py_slice_to {A} (l : list A) (limit : Z) : list A :=
  if (0 <=? limit)%Z then firstn (Z.to_nat limit) l
  else firstn (Z.to_nat (Z.of_nat (List.length l) + limit)) l.

Definition TRUNCATION_MARK : str := utf8 "- …".

Definition CONTEXT_HEADER : str := utf8 "Текущий склад (первые 20 строк):" ++ [10%N].

Definition context_lines (rows : list joined) (limit : Z) : list str :=
  let lines := map context_line (py_slice_to rows limit) in
  if (limit <? Z.of_nat (List.length rows))%Z
  then lines ++ [TRUNCATION_MARK] else lines.

(** The text built from the fetched rows. *)
Definition context_text (rows : list joined) (limit : Z) : str :=
  CONTEXT_HEADER ++ join [10%N] (context_lines rows limit).

Definition build_stock_context (c : Conn) (limit : Z) : str * Conn :=
  let c' := Connection (committed c) (working c) (in_tx c) true in
  let rows := stock_listing (working c') in
  (context_text rows limit, c').

(** Item identifiers renamed throughout the store. *)
Definition renumber (f : Z -> Z) (db : DB) : DB :=
  Store (map (fun it => Item (f (item_id it)) (item_name it) (item_size it))
             (items db))
        (locations db)
        (map (fun st => Stock (f (stock_item st)) (stock_location st)
                              (stock_qty st))
             (stock db))
        (tx_log db).

(* ================================================================== *)
(** * 7. The pipeline ([ask_llm], [on_message])                       *)
(* ================================================================== *)

(** What the request to the collaborator and the decoding of its answer
    come to: the decoded JSON; an error that [ask_llm] catches
    ([OpenAIError], [JSONDecodeError]); or an exception that it does not
    catch (the [TypeError] of [json.loads(None)] for an answer without
    content). *)
Inductive completion : Type :=
| Decoded (payload : json)
| Caught
| Uncaught (e : exn).

(** The collaborator: from the stock context and the user's prompt to
    the outcome of the request. *)
Abbreviation collaborator := (list N -> list N -> completion) (only parsing).

Definition ask_llm (llm : collaborator) (c : Conn) (user_prompt : str)
  : outcome (option json) * Conn :=
  let '(context, c1) := build_stock_context c 20 in
  (match llm context user_prompt with
   | Decoded payload => Returned (Some payload)
   | Caught => Returned None
   | Uncaught e => Raised e
   end, c1).

(** [dict.get(key)]; of a key given twice [json.loads] keeps the last. *)
Fixpoint py_get (key : str) (d : list (list N * json)) : option json :=
  match d with
  | [] => None
  | (k, v) :: rest =>
      match py_get key rest with
      | Some w => Some w
      | None => if str_eqb k key then Some v else None
      end
  end.

(** Python truthiness; a missing key reads as [None]. *)
Definition truthy (v : option json) : bool :=
  match v with
  | None | Some JNull => false
  | Some (JBool b) => b
  | Some (JNum z) => negb (z =? 0)%Z
  | Some (JStr s) => nonempty s
  | Some (JArr l) => match l with [] => false | _ => true end
  | Some (JObj l) => match l with [] => false | _ => true end
  end.

(** [mode not in {"read", "write"}]: the mode where it is one of the two,
    [None] where it is not; a list or a dict cannot be hashed. *)
Definition recognized_mode (mode : option json) : outcome (option str) :=
  match mode with
  | Some (JStr m) =>
      Returned (if str_eqb m (u "read") || str_eqb m (u "write")
                then Some m else None)
  | Some (JArr _) | Some (JObj _) => Raised TypeError
  | _ => Returned None
  end.

(** [text.startswith('/')] *)
Definition starts_with_slash (text : str) : bool :=
  match text with
  | c :: _ => (c =? 47)%N
  | [] => false
  end.

Record message := Message {
  msg_text : option str;          (* msg.text *)
  msg_username : option str       (* msg.from_user.username *)
}.

(** What the user is shown (the texts themselves belong to the
    presentation layer). *)
Inductive reply : Type :=
| Thinking
| LlmParseError
| BusinessError (text : str)
| FormatError
| SecurityRejected
| Executing
| DatabaseFailure (msg : str)
| ReadResult (rows : list row)
| WriteDone (summary : option str).

(** The calls [on_message] makes, in order. *)
Inductive event : Type :=
| Answer (r : reply)
| Edit (r : reply)
| AskLlm (user_prompt : str)
| Validate (sql : option json)
| RunSql (stmts : list str) (mode : str).

Record handled := Handled {
  trace : list event;
  raised : option exn;
  conn_after : Conn
}.

Definition is_validate (e : event) : bool :=
  match e with Validate _ => true | _ => false end.

Definition is_run_sql (e : event) : bool :=
  match e with RunSql _ _ => true | _ => false end.

(** The tail of [on_message] once the script has been validated. *)
Definition execute_and_report (exec : engine) (c : Conn)
           (pre : list event) (stmts : list str) (mode username : str)
           (summary : option json) : handled :=
  let pre := pre ++ [Edit Executing; RunSql stmts mode] in
  let summary_arg := match summary with Some v => v | None => JNull end in
  match run_sql exec c stmts mode username summary_arg with
  | (Raised (DatabaseError m), c2) => Handled (pre ++ [Edit (DatabaseFailure m)]) None c2
  | (Raised e, c2) => Handled pre (Some e) c2
  | (Returned rows, c2) =>
      if str_eqb mode (u "read") then Handled (pre ++ [Edit (ReadResult rows)]) None c2
      else if truthy summary then
             match summary with
             | Some (JStr s) => Handled (pre ++ [Edit (WriteDone (Some s))]) None c2
             | _ => Handled pre (Some TypeError) c2
             end
           else Handled (pre ++ [Edit (WriteDone None)]) None c2
  end.

Definition on_message `{Unicode} (exec : engine) (llm : collaborator)
           (c : Conn) (msg : message) : handled :=
  match msg_text msg with
  | None => Handled [] None c
  | Some text =>
      if negb (nonempty text) || starts_with_slash text then Handled [] None c
      else
        let user_prompt := strip text in
        let username :=
          match msg_username msg with
          | Some n => if nonempty n then n else u "unknown_user"
          | None => u "unknown_user"
          end in
        let pre := [Answer Thinking; AskLlm user_prompt] in
        let '(payload, c1) := ask_llm llm c user_prompt in
        match payload with
        | Raised x => Handled pre (Some x) c1
        | Returned (Some (JObj d)) =>
            if truthy (py_get (u "error") d) then
              match py_get (u "error") d with
              | Some (JStr e) =>
                  match log_attempt c1 username user_prompt (JStr e) false with
                  | (Returned _, c2) =>
                      Handled (pre ++ [Edit (BusinessError e)]) None c2
                  | (Raised x, c2) =>
                      Handled (pre ++ [Edit (BusinessError e)]) (Some x) c2
                  end
              | _ => Handled pre (Some TypeError) c1
              end
            else
              let sql := py_get (u "sql") d in
              let mode := py_get (u "mode") d in
              let summary := py_get (u "summary") d in
              if negb (truthy sql) then Handled (pre ++ [Edit FormatError]) None c1
              else
                match recognized_mode mode with
                | Raised e => Handled pre (Some e) c1
                | Returned None => Handled (pre ++ [Edit FormatError]) None c1
                | Returned (Some m) =>
                    let pre := pre ++ [Validate sql] in
                    match sql with
                    | Some (JStr script) =>
                        match validate_sql script with
                        | None | Some [] =>
                            Handled (pre ++ [Edit SecurityRejected]) None c1
                        | Some stmts =>
                            execute_and_report exec c1 pre stmts m username summary
                        end
                    | _ => Handled pre (Some AttributeError) c1
                    end
                end
        | Returned _ => Handled (pre ++ [Edit LlmParseError]) None c1
        end
  end.

(* ================================================================== *)
(** * 8. A reference engine for the statement forms of the prompt     *)
(* ================================================================== *)

(** SQLite is outside the repository.  To run the executor on concrete
    scripts, this section gives the meaning, under [SCHEMA], of the
    statements that [SYSTEM_PROMPT_SQL] (rules 1 and 2) asks the
    collaborator to write, and of one query; any other text is a syntax
    error here. *)

Inductive token : Type :=
| TWord (w : str)
| TInt (z : Z)
| TText (s : str)
| TSym (c : char).

Inductive lex_state : Type :=
| Idle
| InWord (w : str)
| InInt (n : Z)
| InText (s : str).

Definition is_digit (c : char) : bool := in_range 48 57 c.

Definition flush (st : lex_state) : list token :=
  match st with
  | Idle | InText _ => []
  | InWord w => [TWord w]
  | InInt n => [TInt n]
  end.

(** The state and the tokens after reading [c] where no token is open. *)
Definition lex_start (c : char) : lex_state * list token :=
  if is_space c then (Idle, [])
  else if is_digit c then (InInt (Z.of_N (c - 48)), [])
  else if ascii_alnum c || (c =? 95)%N then (InWord [c], [])
  else if (c =? 39)%N then (InText [], [])
  else (Idle, [TSym c]).

Fixpoint lex_sql (st : lex_state) (s : str) : option (list token) :=
  match s with
  | [] => match st with InText _ => None | _ => Some (flush st) end
  | c :: r =>
      let '(st', out) :=
        match st with
        | InText t => if (c =? 39)%N then (Idle, [TText t]) else (InText (t ++ [c]), [])
        | InWord w =>
            if ascii_alnum c || (c =? 95)%N then (InWord (w ++ [c]), [])
            else let '(st1, o) := lex_start c in (st1, TWord w :: o)
        | InInt n =>
            if is_digit c then (InInt (10 * n + Z.of_N (c - 48)), [])
            else let '(st1, o) := lex_start c in (st1, TInt n :: o)
        | Idle => lex_start c
        end in
      match lex_sql st' r with
      | Some toks => Some (out ++ toks)
      | None => None
      end
  end.

(** A parser reads a prefix of the token list. *)
Definition parser (A : Type) : Type := list token -> option (A * list token).

Definition pbind {A B} (p : parser A) (f : A -> parser B) : parser B :=
  fun toks => match p toks with
              | Some (a, rest) => f a rest
              | None => None
              end.

Definition pret {A} (a : A) : parser A := fun toks => Some (a, toks).

Notation "x <- p ;; q" := (pbind p (fun x => q))
  (at level 61, p at next level, right associativity).
Notation "p ;; q" := (pbind p (fun _ => q))
  (at level 61, right associativity).

Definition kw (w : string) : parser unit :=
  fun toks => match toks with
              | TWord x :: rest => if nocase_eqb x (u w) then Some (tt, rest) else None
              | _ => None
              end.

Definition sym (s : string) : parser unit :=
  fun toks => match toks, u s with
              | TSym c :: rest, [d] => if (c =? d)%N then Some (tt, rest) else None
              | _, _ => None
              end.

Definition int_lit : parser Z :=
  fun toks => match toks with
              | TInt n :: rest => Some (n, rest)
              | TSym 45%N :: TInt n :: rest => Some ((- n)%Z, rest)
              | _ => None
              end.

Definition text_lit : parser str :=
  fun toks => match toks with
              | TText s :: rest => Some (s, rest)
              | _ => None
              end.

Definition eof : parser unit :=
  fun toks => match toks with [] => Some (tt, []) | _ => None end.

Definition por {A} (p q : parser A) : parser A :=
  fun toks => match p toks with Some r => Some r | None => q toks end.

Inductive stock_op : Type :=
| AddItem (name : str) (size : option str)
| Upsert (item : Z) (location : str) (n : Z)
| Decrease (item : Z) (location : str) (n : Z)
| Remove (item : Z) (location : str)
| ReadQty (item : Z) (location : str)
| SetNull (item : Z) (location : str).

(** [WHERE item_id = i AND location_code = 'l'] *)
Definition where_cell : parser (Z * str) :=
  kw "WHERE" ;; kw "item_id" ;; sym "=" ;; i <- int_lit ;;
  kw "AND" ;; kw "location_code" ;; sym "=" ;; l <- text_lit ;;
  pret (i, l).

(** [INSERT INTO stock(item_id,location_code,qty) VALUES (i,'l',n)
     ON CONFLICT(item_id,location_code) DO UPDATE SET qty = qty + excluded.qty] *)
Definition p_upsert : parser stock_op :=
  kw "INSERT" ;; kw "INTO" ;; kw "stock" ;;
  sym "(" ;; kw "item_id" ;; sym "," ;; kw "location_code" ;; sym "," ;;
  kw "qty" ;; sym ")" ;;
  kw "VALUES" ;; sym "(" ;; i <- int_lit ;; sym "," ;; l <- text_lit ;;
  sym "," ;; n <- int_lit ;; sym ")" ;;
  kw "ON" ;; kw "CONFLICT" ;; sym "(" ;; kw "item_id" ;; sym "," ;;
  kw "location_code" ;; sym ")" ;;
  kw "DO" ;; kw "UPDATE" ;; kw "SET" ;; kw "qty" ;; sym "=" ;; kw "qty" ;;
  sym "+" ;; kw "excluded" ;; sym "." ;; kw "qty" ;; eof ;;
  pret (Upsert i l n).

(** [INSERT OR IGNORE INTO items(name,size) VALUES ('n','s')], the size
    a text or NULL *)
Definition p_add_item : parser stock_op :=
  kw "INSERT" ;; kw "OR" ;; kw "IGNORE" ;; kw "INTO" ;; kw "items" ;;
  sym "(" ;; kw "name" ;; sym "," ;; kw "size" ;; sym ")" ;;
  kw "VALUES" ;; sym "(" ;; n <- text_lit ;; sym "," ;;
  s <- por (t <- text_lit ;; pret (Some t)) (kw "NULL" ;; pret None) ;;
  sym ")" ;; eof ;;
  pret (AddItem n s).

(** [UPDATE stock SET qty = qty - n WHERE ...] *)
Definition p_decrease : parser stock_op :=
  kw "UPDATE" ;; kw "stock" ;; kw "SET" ;; kw "qty" ;; sym "=" ;; kw "qty" ;;
  sym "-" ;; n <- int_lit ;; il <- where_cell ;; eof ;;
  pret (Decrease (fst il) (snd il) n).

(** [DELETE FROM stock WHERE ...] *)
Definition p_remove : parser stock_op :=
  kw "DELETE" ;; kw "FROM" ;; kw "stock" ;; il <- where_cell ;; eof ;;
  pret (Remove (fst il) (snd il)).

(** [SELECT qty FROM stock WHERE ...] *)
Definition p_read : parser stock_op :=
  kw "SELECT" ;; kw "qty" ;; kw "FROM" ;; kw "stock" ;; il <- where_cell ;; eof ;;
  pret (ReadQty (fst il) (snd il)).

(** [UPDATE stock SET qty = NULL WHERE ...] *)
Definition p_set_null : parser stock_op :=
  kw "UPDATE" ;; kw "stock" ;; kw "SET" ;; kw "qty" ;; sym "=" ;; kw "NULL" ;;
  il <- where_cell ;; eof ;;
  pret (SetNull (fst il) (snd il)).

Definition parse_stock_op (s : str) : option stock_op :=
  match lex_sql Idle s with
  | Some toks =>
      match por p_add_item
                (por p_upsert
                   (por p_decrease
                      (por p_remove (por p_read p_set_null)))) toks with
      | Some (op, _) => Some op
      | None => None
      end
  | None => None
  end.

(** The row of the cell [(item, location)], the location compared under
    NOCASE. *)
Definition in_cell (item : Z) (location : str) (r : stock_row) : bool :=
  (stock_item r =? item)%Z && nocase_eqb (stock_location r) location.

Definition CHECK_FAILED : str := u "CHECK constraint failed: qty > 0".
Definition FK_FAILED : str := u "FOREIGN KEY constraint failed".

(** A statement under the constraints of [SCHEMA]: [CHECK(qty > 0)], the
    primary key of [stock], the two foreign keys; for [items] the size
    check, the unique pair and the next identifier, a violating row being
    skipped under OR IGNORE. *)
Definition apply_stock_op (op : stock_op) (db : DB) : exec_result :=
  match op with
  | AddItem name size =>
      let size_ok :=
        match size with
        | Some s => existsb (nocase_eqb s) ALLOWED_SIZES
        | None => true
        end in
      let taken :=
        existsb (fun it => nocase_eqb (item_name it) name
                           && match item_size it, size with
                              | Some a, Some b => nocase_eqb a b
                              | _, _ => false
                              end) (items db) in
      if size_ok && negb taken
      then Done (Store (items db
                          ++ [Item (1 + fold_left Z.max (map item_id (items db)) 0)%Z
                                   name size])
                       (locations db) (stock db) (tx_log db)) []
      else Done db []
  | Upsert item location n =>
      if (n <=? 0)%Z then Failed CHECK_FAILED db
      else if existsb (in_cell item location) (stock db) then
        Done (with_stock db
                (map (fun r => if in_cell item location r
                               then Stock (stock_item r) (stock_location r)
                                          (qty_add (stock_qty r) n)
                               else r) (stock db))) []
      else if existsb (fun it => (item_id it =? item)%Z) (items db)
              && existsb (nocase_eqb location) (locations db)
      then Done (with_stock db (stock db ++ [Stock item location n])) []
      else Failed FK_FAILED db
  | Decrease item location n =>
      let st' := map (fun r => if in_cell item location r
                               then Stock (stock_item r) (stock_location r)
                                          (qty_add (stock_qty r) (- n))
                               else r) (stock db) in
      if forallb (fun r => negb (in_cell item location r)
                           || check_qty (qty_add (stock_qty r) (- n)))
                 (stock db)
      then Done (with_stock db st') []
      else Failed CHECK_FAILED db
  | Remove item location =>
      Done (with_stock db (filter (fun r => negb (in_cell item location r))
                                  (stock db))) []
  | ReadQty item location =>
      Done db (map (fun r => [(u "qty",
                               match stock_qty r with
                               | QInt z => VInt z
                               | QNull => VNull
                               end)])
                   (filter (in_cell item location) (stock db)))
  | SetNull item location =>
      Done (with_stock db
              (map (fun r => if in_cell item location r
                             then Stock (stock_item r) (stock_location r) QNull
                             else r) (stock db))) []
  end.

Definition reference_engine (s : str) (db : DB) : exec_result :=
  match parse_stock_op s with
  | Some op => apply_stock_op op db
  | None => Failed (u "syntax error") db
  end.


(* ================================================================== *)
(** * 9. Notions in which the executor's properties are stated        *)
(* ================================================================== *)

(** No transaction is open on the connection. *)
Definition idle (c : Conn) : Prop :=
  in_tx c = false /\ working c = committed c.

(** The summary, a [str] or [None], can be bound as a parameter. *)
Definition bindable (summary : option str) : bool :=
  match summary with Some t => encodable t | None => true end.

(** The engine never writes to [tx_log] (no script names that table). *)
Definition leaves_log (exec : engine) : Prop :=
  forall s db,
    match exec s db with
    | Done db' _ | Failed _ db' => tx_log db' = tx_log db
    | FailedRollback _ => True
    end.

(** The connections that the application can reach: from the initialised
    empty store, by executing validated scripts (whether the execution
    commits or fails), by handling messages, by building contexts and by
    initialising again at a restart. *)
Inductive reachable `{Unicode} (exec : engine) : Conn -> Prop :=
| reach_init : reachable exec (init_db fresh_conn)
| reach_run_sql c sql stmts mode user summary :
    reachable exec c ->
    validate_sql sql = Some stmts ->
    reachable exec (snd (run_sql exec c stmts mode user summary))
| reach_message c llm msg :
    reachable exec c ->
    reachable exec (conn_after (on_message exec llm c msg))
| reach_context c limit :
    reachable exec c ->
    reachable exec (snd (build_stock_context c limit))
| reach_restart c :
    reachable exec c ->
    reachable exec (init_db c).

(** The message is a prompt: it has a text, and the text is not a
    command. *)
Definition is_prompt (msg : message) (text : str) : Prop :=
  msg_text msg = Some text /\ nonempty text = true
  /\ starts_with_slash text = false.

(** The store and the trace of a handled message show no execution. *)
Definition untouched (c : Conn) (h : handled) : Prop :=
  committed (conn_after h) = committed c
  /\ working (conn_after h) = working c
  /\ in_tx (conn_after h) = in_tx c
  /\ existsb is_run_sql (trace h) = false.

(** ** A store and a script to run the executor on *)

(** One item, two units of it in cell А1. *)
Definition demo_db : DB :=
  Store [Item 1 (utf8 "майка") (Some (u "L"))]
        location_seed
        [Stock 1 (utf8 "А1") 2]
        [].

Definition demo_conn : Conn := Connection demo_db demo_db false false.

(** "Move three units from А1 to Б2" as rule 3 of the prompt has it
    written: the destination first, then the source. *)
Definition MOVE_IN : str :=
  utf8 "INSERT INTO stock(item_id,location_code,qty) VALUES (1,'Б2',3) ON CONFLICT(item_id,location_code) DO UPDATE SET qty = qty + excluded.qty".

(** A new item and four units of it put into cell А1 (rule 1). *)
Definition NEW_ITEM : str :=
  utf8 "INSERT OR IGNORE INTO items(name,size) VALUES ('майка','L')".

Definition PUT_IN : str :=
  utf8 "INSERT INTO stock(item_id,location_code,qty) VALUES (1,'А1',4) ON CONFLICT(item_id,location_code) DO UPDATE SET qty = qty + excluded.qty".

Definition MOVE_OUT : str :=
  utf8 "UPDATE stock SET qty = qty - 3 WHERE item_id = 1 AND location_code = 'А1'".

(** The quantity of the cell set to NULL. *)
Definition SET_NULL : str :=
  utf8 "UPDATE stock SET qty = NULL WHERE item_id = 1 AND location_code = 'А1'".


(** The identifiers of one joined row renamed. *)
Definition renumber_row (f : Z -> Z) (r : joined) : joined :=
  (Item (f (item_id (fst r))) (item_name (fst r)) (item_size (fst r)),
   Stock (f (stock_item (snd r))) (stock_location (snd r)) (stock_qty (snd r))).

Definition renumber_conn (f : Z -> Z) (c : Conn) : Conn :=
  Connection (renumber f (committed c)) (renumber f (working c))
             (in_tx c) (row_factory c).

(** The order of the listing, as a relation. *)
Definition ordered (r1 r2 : joined) : Prop := order_leb r1 r2 = true.

(** One text comes before another under NOCASE: it is a proper prefix of
    the other, or at the first place where the two differ, the letter
    case of A-Z ignored, it has the smaller code point. *)
Inductive text_before : list N -> list N -> Prop :=
| before_prefix (c : N) (b : list N) : text_before [] (c :: b)
| before_head (x y : N) (a b : list N) :
    (nocase_char x < nocase_char y)%N -> text_before (x :: a) (y :: b)
| before_tail (x y : N) (a b : list N) :
    nocase_char x = nocase_char y -> text_before a b ->
    text_before (x :: a) (y :: b).

(** Two texts that NOCASE does not tell apart. *)
Definition text_same (a b : list N) : Prop := nocase a = nocase b.

(** Sizes: NULL before every text. *)
Definition size_before (a b : option (list N)) : Prop :=
  match a, b with
  | None, Some _ => True
  | Some x, Some y => text_before x y
  | _, _ => False
  end.

Definition size_same (a b : option (list N)) : Prop :=
  match a, b with
  | None, None => True
  | Some x, Some y => text_same x y
  | _, _ => False
  end.

(** [ORDER BY items.name, items.size, stock.location_code]: the row [r1]
    may stand before the row [r2]. *)
Definition listed_before (r1 r2 : joined) : Prop :=
  text_before (item_name (fst r1)) (item_name (fst r2))
  \/ (text_same (item_name (fst r1)) (item_name (fst r2))
      /\ (size_before (item_size (fst r1)) (item_size (fst r2))
          \/ (size_same (item_size (fst r1)) (item_size (fst r2))
              /\ (text_before (stock_location (snd r1))
                              (stock_location (snd r2))
                  \/ text_same (stock_location (snd r1))
                               (stock_location (snd r2)))))).

(** A store whose listing needs all three keys: two names that differ in
    letter case, an item without a size, an item in two cells. *)
Definition listing_db : DB :=
  Store [Item 1 (u "Bolt") None; Item 2 (u "anchor") (Some (u "M"));
         Item 3 (u "anchor") None]
        location_seed
        [Stock 1 (utf8 "Б2") 5; Stock 2 (utf8 "Б2") 1;
         Stock 3 (utf8 "А1") 2; Stock 2 (utf8 "А1") 7]
        [].

Definition listing_conn : Conn := Connection listing_db listing_db false false.


(** A prompt and two collaborators for it: one proposes a script of the
    deny list, the other a mode that does not exist. *)
Definition demo_msg : message :=
  Message (Some (utf8 "удали всё")) (Some (u "operator")).

Definition llm_drop : collaborator :=
  fun _ _ => Decoded (JObj [(u "sql", JStr (u "DROP TABLE stock"));
                         (u "mode", JStr (u "write"));
                         (u "summary", JStr (u "drop"))]).

Definition llm_bad_mode : collaborator :=
  fun _ _ => Decoded (JObj [(u "sql", JStr (u "SELECT 1"));
                         (u "mode", JStr (u "delete"))]).

(** A collaborator whose script is a number. *)
Definition llm_number : collaborator :=
  fun _ _ => Decoded (JObj [(u "sql", JNum 5); (u "mode", JStr (u "read"))]).

(** A collaborator that reports a business-rule error. *)
Definition llm_error : collaborator :=
  fun _ _ => Decoded (JObj [(u "error", JStr (utf8 "Недостаточно товара"))]).

(** A store with the same item in two cells. *)
Definition two_cells_db : DB :=
  Store [Item 1 (utf8 "майка") (Some (u "L"))]
        location_seed
        [Stock 1 (utf8 "Б2") 3; Stock 1 (utf8 "А1") 2]
        [].


(** ** Notions for the further properties of the validator *)

(** [s] begins with the word [w], letter case ignored, and a word boundary
    follows. *)
Definition begins_word `{Unicode} (w : str) (s : str) : bool :=
  match ci_eat w (None, s) with
  | Some q => at_boundary q
  | None => false
  end.

(** A statement that none of the delete checks is about: it begins with
    SELECT, INSERT or UPDATE, or with DELETE but not with DELETE FROM
    stock or DELETE FROM items. *)
Definition unprotected `{Unicode} (s : str) : bool :=
  begins_word (u "SELECT") s || begins_word (u "INSERT") s
  || begins_word (u "UPDATE") s
  || (begins_word (u "DELETE") s
      && negb (begins_delete_from (u "stock") s)
      && negb (begins_delete_from (u "items") s)).



(** ** Notions for the further properties of the executor *)

(** The statements run one after the other, each on the store that the
    one before left; [None] when one of them fails. *)
Fixpoint apply_all (exec : engine) (db : DB) (stmts : list str) : option DB :=
  match stmts with
  | [] => Some db
  | s :: rest =>
      match exec s db with
      | Done db' _ => apply_all exec db' rest
      | Failed _ _ | FailedRollback _ => None
      end
  end.

(** How many units of item 1 cell А1 holds. *)
Definition READ_QTY : str :=
  utf8 "SELECT qty FROM stock WHERE item_id = 1 AND location_code = 'А1'".

(** The connection as [build_stock_context] leaves it. *)
Definition demo_conn_rows : Conn := Connection demo_db demo_db false true.



(** ** Notions for the further properties of the pipeline *)

(** [msg.from_user.username or "unknown_user"] *)
Definition sender (msg : message) : str :=
  match msg_username msg with
  | Some n => if nonempty n then n else u "unknown_user"
  | None => u "unknown_user"
  end.

(** The entry of the payload is a string, null or missing. *)
Definition is_text (v : option json) : bool :=
  match v with
  | None | Some JNull | Some (JStr _) => true
  | _ => false
  end.

(** The entry of the payload is a string that can be encoded, null or
    missing. *)
Definition clean_text (v : option json) : bool :=
  match v with
  | None | Some JNull => true
  | Some (JStr s) => encodable s
  | _ => false
  end.

(** The four entries that [on_message] reads are strings where they are
    given, and those that reach the database can be encoded. *)
Definition clean_payload (d : list (list N * json)) : bool :=
  clean_text (py_get (u "error") d) && clean_text (py_get (u "sql") d)
  && is_text (py_get (u "mode") d) && clean_text (py_get (u "summary") d).

(** The summary as it is passed on to [run_sql]. *)
Definition summary_arg (d : list (list N * json)) : json :=
  match py_get (u "summary") d with Some v => v | None => JNull end.

(** The rows of one result have the same columns. *)
Definition uniform_rows (exec : engine) : Prop :=
  forall s db db' rows,
    exec s db = Done db' rows ->
    forall r1 r2, In r1 rows -> In r2 rows -> map fst r1 = map fst r2.


(** Two more collaborators: one puts four units into cell А1, the other
    proposes the move that fails at its second statement. *)
Definition llm_put : collaborator :=
  fun _ _ => Decoded (JObj [(u "sql", JStr (NEW_ITEM ++ u "; " ++ PUT_IN));
                         (u "mode", JStr (u "write"));
                         (u "summary", JStr (u "put"))]).

Definition llm_move : collaborator :=
  fun _ _ => Decoded (JObj [(u "sql", JStr (MOVE_IN ++ u "; " ++ MOVE_OUT));
                         (u "mode", JStr (u "write"));
                         (u "summary", JStr (u "move"))]).

(** A collaborator that asks how many units cell А1 holds. *)
Definition llm_read : collaborator :=
  fun _ _ => Decoded (JObj [(u "sql", JStr READ_QTY);
                         (u "mode", JStr (u "read"))]).



(* ================================================================== *)
(** * 10. What the user is shown ([md2_escape], [fmt_table])           *)
(* ================================================================== *)

(** The character class of [_MD2_RE]. *)
Definition MD2_SPECIAL : str := u "_*[]()~`>#+-=|{}.!".

Definition is_md2_special (c : char) : bool := existsb (N.eqb c) MD2_SPECIAL.

(** [_MD2_RE.sub(r'\\\1', t)]: a backslash before every character of the
    class. *)
Definition md2_escape (t : str) : str :=
  flat_map (fun c => if is_md2_special c then [92%N; c] else [c]) t.

(** [d[k]] on a [dict]; [None] stands for [KeyError]. *)
Fixpoint dict_get {A : Type} (k : str) (d : list (list N * A)) : option A :=
  match d with
  | [] => None
  | (k', v) :: rest => if str_eqb k' k then Some v else dict_get k rest
  end.

(** A comprehension whose body can raise. *)
Fixpoint traverse {A B : Type} (f : A -> option B) (l : list A)
  : option (list B) :=
  match l with
  | [] => Some []
  | a :: rest =>
      match f a, traverse f rest with
      | Some b, Some bs => Some (b :: bs)
      | _, _ => None
      end
  end.

(** [str(v)] for a value of a row. *)
Definition py_str (v : sqlval) : str :=
  match v with
  | VNull => u "None"
  | VInt z => py_str_int z
  | VText s => s
  end.

(** [s.ljust(w)] *)
Definition ljust (s : str) (w : nat) : str :=
  s ++ repeat 32%N (w - List.length s).

Definition NOTHING_FOUND : str := utf8 "По запросу ничего не найдено.".

Definition PLACEHOLDER : str := u "-".

Definition hdr : list (list N * list N) :=
  [(u "name", utf8 "Товар"); (u "size", utf8 "Размер");
   (u "location_code", utf8 "Ячейка"); (u "qty", utf8 "Кол-во")].

(** [hdr.get(k, k)] *)
Definition hdr_get (k : str) : str :=
  match dict_get k hdr with Some h => h | None => k end.

(** [str(r[k] if (k != "size" or r[k] is not None) else PLACEHOLDER)] *)
Definition width_text (k : str) (r : row) : option str :=
  match dict_get k r with
  | Some v =>
      Some (if negb (str_eqb k (u "size"))
               || match v with VNull => false | _ => true end
            then py_str v else PLACEHOLDER)
  | None => None
  end.

(** The dict [widths], in the order of [keys]. *)
Definition widths (rows : list row) (keys : list str)
  : option (list (list N * nat)) :=
  traverse
    (fun k =>
       match traverse (fun r => option_map (@List.length N) (width_text k r))
                      rows with
       | Some lens => Some (k, fold_left Nat.max lens (List.length (hdr_get k)))
       | None => None
       end) keys.

(** [if r.get("size") is None: r["size"] = PLACEHOLDER] *)
Definition fill_size (r : row) : row :=
  match dict_get (u "size") r with
  | None | Some VNull => dict_set r (u "size") (VText PLACEHOLDER)
  | Some _ => r
  end.

(** [" | ".join(str(r[k]).ljust(widths[k]) for k in keys)] *)
Definition row_line (ws : list (list N * nat)) (keys : list str) (r : row)
  : option str :=
  option_map (join (u " | "))
    (traverse (fun k =>
                 match dict_get k r, dict_get k ws with
                 | Some v, Some w => Some (ljust (py_str v) w)
                 | _, _ => None
                 end) keys).

(** [" | ".join(hdr.get(k, k).ljust(widths[k]) for k in keys)] *)
Definition header_line (ws : list (list N * nat)) (keys : list str)
  : option str :=
  option_map (join (u " | "))
    (traverse (fun k => option_map (ljust (hdr_get k)) (dict_get k ws)) keys).

(** ["-+-".join("-" * widths[k] for k in keys)] *)
Definition sep_line (ws : list (list N * nat)) (keys : list str)
  : option str :=
  option_map (join (u "-+-"))
    (traverse (fun k => option_map (repeat 45%N) (dict_get k ws)) keys).

Definition FENCE : str := u "```".

(** [fmt_table]; [None] stands for [KeyError].  The rows are changed in
    place before they are printed; no caller reads them afterwards. *)
Definition fmt_table (rows : list row) : option str :=
  match rows with
  | [] => Some NOTHING_FOUND
  | r0 :: _ =>
      let keys := map fst r0 in
      match widths rows keys with
      | Some ws =>
          let rows := map fill_size rows in
          match header_line ws keys, sep_line ws keys,
                traverse (row_line ws keys) rows with
          | Some header, Some sep, Some body =>
              Some (FENCE ++ [10%N] ++ join [10%N] (header :: sep :: body)
                          ++ [10%N] ++ FENCE)
          | _, _, _ => None
          end
      | None => None
      end
  end.

(** Rows of the stock listing, one of them without a size. *)
Definition demo_rows : list row :=
  [[(u "name", VText (utf8 "майка")); (u "size", VText (u "L"));
    (u "location_code", VText (utf8 "А1")); (u "qty", VInt 2)];
   [(u "name", VText (utf8 "блокнот")); (u "size", VNull);
    (u "location_code", VText (utf8 "Б10")); (u "qty", VInt 14)]].


(* ================================================================== *)
(** * Properties                                                       *)
(* ================================================================== *)

Example validate_sql_select :
  validate_sql (u "SELECT 1;  select 2 ;") = Some [u "SELECT 1"; u "select 2"].
Proof. vm_compute. reflexivity. Qed.

Example validate_sql_drop :
  validate_sql (u "SELECT 1; drop table stock") = None.
Proof. vm_compute. reflexivity. Qed.

Example validate_sql_del1 :
  validate_sql (u "DELETE FROM stock WHERE item_id=1") = None.
Proof. vm_compute. reflexivity. Qed.

Example validate_sql_del2 :
  validate_sql (u "DELETE FROM stock WHERE item_id=1 AND location_code='A1'") <> None.
Proof. vm_compute. discriminate. Qed.

Example validate_sql_del3 :
  validate_sql (u "DELETE FROM stock WHERE location_code='A1' AND item_id=1") = None.
Proof. vm_compute. reflexivity. Qed.

Example validate_sql_with :
  validate_sql (u "WITH t AS (SELECT 1) DELETE FROM items") <> None.
Proof. vm_compute. discriminate. Qed.

(* ------------------------------------------------------------------ *)
(** ** The matcher computes the declarative reading                    *)
(* ------------------------------------------------------------------ *)

Section RegexTheory.
Context `{Unicode}.

Lemma walk_app (a b : str) (o : option char) :
  walk (a ++ b) o = walk b (walk a o).
Proof.
  revert o; induction a as [|c a IH]; intro o; simpl; [reflexivity|apply IH].
Qed.

Lemma eat_sound (f : char -> bool) (p q : cursor) :
  In q (eat f p) ->
  exists o x r, p = (o, x :: r) /\ q = (Some x, r) /\ f x = true.
Proof.
  destruct p as [o [|x r]]; unfold eat; simpl; [tauto|].
  destruct (f x) eqn:E; simpl; [|tauto].
  intros [<-|[]]. exists o, x, r. auto.
Qed.

Lemma star_from_sound (step : cursor -> list cursor) (R : cursor -> cursor -> Prop) :
  (forall p q, In q (step p) -> R p q) ->
  forall fuel p q, In q (star_from step fuel p) ->
    Relation_Operators.clos_refl_trans_1n _ R p q.
Proof.
  intros Hstep fuel; induction fuel as [|f IH]; intros p q; simpl.
  - intros [<-|[]]. constructor.
  - intros [<-|Hin]; [constructor|].
    apply in_flat_map in Hin. destruct Hin as [m [Hm Hq]].
    destruct (List.length (ahead m) <? List.length (ahead p))%nat; [|contradiction].
    econstructor; [apply Hstep; eassumption|apply IH; assumption].
Qed.

Lemma run_sound (r : regex) : forall p q, In q (run r p) -> Matches r p q.
Proof.
  induction r; intros p q Hin; simpl in Hin.
  - destruct Hin as [<-|[]]. constructor.
  - apply eat_sound in Hin. destruct Hin as (o & x & t & -> & -> & E).
    constructor; assumption.
  - apply eat_sound in Hin. destruct Hin as (o & x & t & -> & -> & E).
    constructor; assumption.
  - apply eat_sound in Hin. destruct Hin as (o & x & t & -> & -> & E).
    constructor. apply negb_true_iff in E; assumption.
  - apply eat_sound in Hin. destruct Hin as (o & x & t & -> & -> & E).
    constructor.
  - destruct p as [[c|] s]; simpl in Hin; [contradiction|].
    destruct Hin as [<-|[]]. constructor.
  - destruct (at_boundary p) eqn:E; [|contradiction].
    destruct Hin as [<-|[]]. constructor; assumption.
  - apply in_flat_map in Hin. destruct Hin as [m [Hm Hq]].
    econstructor; eauto.
  - apply in_app_or in Hin. destruct Hin; [apply M_AltL|apply M_AltR]; auto.
  - apply (star_from_sound (run r) (Matches r) IHr) in Hin.
    induction Hin; [apply M_Star0|eapply M_StarS; eauto].
Qed.

(** A match reads a piece [w] of the text ahead and leaves the rest. *)
Lemma matches_consumes (r : regex) (p q : cursor) :
  Matches r p q ->
  exists w, ahead p = w ++ ahead q /\ fst q = walk w (fst p).
Proof.
  induction 1;
    try (exists []; split; reflexivity);
    try (exists [x]; split; reflexivity);
    try assumption.
  - destruct IHMatches1 as [w1 [E1 F1]], IHMatches2 as [w2 [E2 F2]].
    exists (w1 ++ w2). rewrite E1, E2, F2, F1, walk_app, app_assoc. auto.
  - destruct IHMatches1 as [w1 [E1 F1]], IHMatches2 as [w2 [E2 F2]].
    exists (w1 ++ w2). rewrite E1, E2, F2, F1, walk_app, app_assoc. auto.
Qed.

Lemma matches_progress (r : regex) (p q : cursor) :
  Matches r p q ->
  q = p \/ (List.length (ahead q) < List.length (ahead p))%nat.
Proof.
  intro M. destruct (matches_consumes M) as [w [E F]].
  destruct w as [|c w].
  - left. destruct p, q; simpl in *; subst; reflexivity.
  - right. rewrite E, length_app; simpl; lia.
Qed.

Lemma star_from_mono (step : cursor -> list cursor) :
  forall n m p q, (n <= m)%nat ->
    In q (star_from step n p) -> In q (star_from step m p).
Proof.
  induction n as [|n IH]; intros m p q Hle; simpl.
  - intros [<-|[]]. destruct m; simpl; auto.
  - destruct m as [|m]; [lia|]. simpl.
    intros [<-|Hin]; [auto|right].
    apply in_flat_map in Hin. destruct Hin as [t [Ht Hq]].
    apply in_flat_map. exists t. split; [assumption|].
    destruct (List.length (ahead t) <? List.length (ahead p))%nat;
      [|contradiction].
    apply IH; [lia|assumption].
Qed.

Lemma star_from_head (step : cursor -> list cursor) n p :
  In p (star_from step n p).
Proof. destruct n; simpl; auto. Qed.

Lemma run_complete (r : regex) (p q : cursor) :
  Matches r p q -> In q (run r p).
Proof.
  induction 1; simpl.
  - auto.
  - unfold eat; simpl. rewrite H0. simpl; auto.
  - unfold eat; simpl. rewrite H0. simpl; auto.
  - unfold eat; simpl. rewrite H0. simpl; auto.
  - unfold eat; simpl. auto.
  - auto.
  - rewrite H0. simpl; auto.
  - apply in_flat_map. eauto.
  - apply in_or_app; auto.
  - apply in_or_app; auto.
  - apply star_from_head.
  - destruct (matches_progress H0_) as [->|Hlt]; [assumption|].
    simpl in IHMatches2.
    destruct (List.length (ahead p)) as [|f] eqn:Ef; [lia|].
    simpl. right. apply in_flat_map. exists q. split; [assumption|].
    rewrite Ef.
    destruct (Nat.ltb_spec (List.length (ahead q)) (S f)); [|lia].
    eapply star_from_mono; [|eassumption]. lia.
Qed.

Lemma run_spec (r : regex) (p q : cursor) :
  In q (run r p) <-> Matches r p q.
Proof. split; [apply run_sound|apply run_complete]. Qed.

Lemma found_spec (l : list cursor) : found l = true <-> exists q, In q l.
Proof.
  destruct l as [|q l]; simpl; split; try discriminate; eauto.
  intros [q []].
Qed.

Lemma re_match_spec (r : regex) (s : str) :
  re_match r s = true <-> exists q, Matches r (None, s) q.
Proof.
  unfold re_match. rewrite found_spec.
  split; intros [q Hq]; exists q; apply run_spec; assumption.
Qed.

End RegexTheory.

(* ------------------------------------------------------------------ *)
(** ** Characters                                                      *)
(* ------------------------------------------------------------------ *)

Ltac bool_to_prop :=
  repeat match goal with
    | H : _ || _ = true |- _ => apply orb_true_iff in H; destruct H as [H|H]
    | H : _ && _ = true |- _ => apply andb_true_iff in H; destruct H
    | H : (_ <=? _)%N = true |- _ => apply N.leb_le in H
    | H : (_ =? _)%N = true |- _ => apply N.eqb_eq in H
    end.

Ltac split_fold x :=
  unfold fold_ci, in_range;
  destruct (N.leb_spec 65 x); destruct (N.leb_spec x 90);
  destruct (N.eqb_spec x 304); destruct (N.eqb_spec x 305);
  destruct (N.eqb_spec x 383); destruct (N.eqb_spec x 8490);
  simpl; try lia.

(** The characters that fold to a lower-case ASCII letter. *)
Lemma fold_ci_cases (x k : char) :
  fold_ci x = k -> in_range 97 122 k = true ->
  x = k \/ x = (k - 32)%N
  \/ (k = 105%N /\ (x = 304%N \/ x = 305%N))
  \/ (k = 115%N /\ x = 383%N) \/ (k = 107%N /\ x = 8490%N).
Proof.
  intros E R. unfold in_range in R. bool_to_prop.
  revert E. split_fold x; intros; subst; try lia.
Qed.

Lemma space_not_folded (x : char) : is_space x = true -> fold_ci x = x.
Proof.
  unfold is_space, in_range. intro Hs. bool_to_prop; split_fold x.
Qed.

Lemma lit_ci_eq (p x : char) : lit_ci p x = true <-> fold_ci x = fold_ci p.
Proof. unfold lit_ci. apply N.eqb_eq. Qed.

Lemma lit_ci_not_space (p x : char) :
  lit_ci p x = true -> is_space (fold_ci p) = false -> is_space x = false.
Proof.
  intros L S. destruct (is_space x) eqn:E; [|reflexivity].
  apply lit_ci_eq in L. rewrite (space_not_folded _ E) in L.
  congruence.
Qed.

Lemma ascii_letter_word `{Unicode} (p x : char) :
  lit_ci p x = true ->
  in_range 97 122 (fold_ci p) = true ->
  negb ((fold_ci p =? 105) || (fold_ci p =? 115) || (fold_ci p =? 107))%N = true ->
  is_word x = true.
Proof.
  intros L R N3. apply lit_ci_eq in L.
  destruct (fold_ci_cases _ L R) as [E|[E|[[E _]|[[E _]|[E _]]]]];
    try (rewrite E in N3; discriminate N3).
  - rewrite E. unfold in_range in R. bool_to_prop.
    unfold is_word, ascii_alnum, in_range.
    destruct (N.ltb_spec (fold_ci p) 128); [|lia].
    destruct (N.leb_spec 97 (fold_ci p)); [|lia].
    destruct (N.leb_spec (fold_ci p) 122); [|lia].
    simpl. rewrite !orb_true_r. reflexivity.
  - rewrite E. unfold in_range in R. bool_to_prop.
    unfold is_word, ascii_alnum, in_range.
    destruct (N.ltb_spec (fold_ci p - 32) 128); [|lia].
    destruct (N.leb_spec 65 (fold_ci p - 32)); [|lia].
    destruct (N.leb_spec (fold_ci p - 32) 90); [|lia].
    simpl. rewrite !orb_true_r. reflexivity.
Qed.

(* ------------------------------------------------------------------ *)
(** ** Reading words and white space at a cursor                       *)
(* ------------------------------------------------------------------ *)

Section ScannerTheory.
Context `{Unicode}.

Lemma lits_spec (w : str) : forall p q,
  Matches (Lits w) p q <-> ci_eat w p = Some q.
Proof.
  induction w as [|c w IH]; intros p q; simpl.
  - split.
    + intro M. inversion M; subst. reflexivity.
    + intros [= <-]. constructor.
  - split.
    + intro M. inversion M as [| | | | | | |a b p0 m t Mc Mw| | | |]; subst.
      inversion Mc; subst. simpl.
      match goal with E : lit_ci _ _ = true |- _ => rewrite E end.
      apply IH; assumption.
    + destruct p as [o [|x r]]; simpl; [discriminate|].
      destruct (lit_ci c x) eqn:E; [|discriminate].
      intro Hq. econstructor; [constructor; eassumption|].
      apply IH; assumption.
Qed.

(** What [ci_eat] has read: a piece [v] of the text that spells [w]. *)
Lemma ci_eat_split (w : str) : forall o s q,
  ci_eat w (o, s) = Some q ->
  exists v, s = v ++ snd q /\ fst q = walk v o /\ ci_eqb w v = true.
Proof.
  induction w as [|c w IH]; intros o s q; simpl.
  - intros [= <-]. exists []. auto.
  - destruct s as [|x r]; [discriminate|].
    destruct (lit_ci c x) eqn:E; [|discriminate].
    intro Hq. destruct (IH _ _ _ Hq) as (v & -> & F & C).
    exists (x :: v). simpl. rewrite E, C. auto.
Qed.

Lemma ci_eqb_eat (w : str) : forall v o rest,
  ci_eqb w v = true -> ci_eat w (o, v ++ rest) = Some (walk v o, rest).
Proof.
  induction w as [|c w IH]; intros [|x v] o rest; simpl; try discriminate.
  - reflexivity.
  - intro E. apply andb_true_iff in E. destruct E as [E1 E2].
    rewrite E1. apply IH; assumption.
Qed.

(** The character read last answers the last letter of the word. *)
Lemma ci_eat_last (w : str) (c : char) : forall p q,
  ci_eat (w ++ [c]) p = Some q ->
  exists x, fst q = Some x /\ lit_ci c x = true.
Proof.
  induction w as [|d w IH]; intros [o s] q; simpl.
  - destruct s as [|x r]; [discriminate|].
    destruct (lit_ci c x) eqn:E; [|discriminate].
    intros [= <-]. exists x; auto.
  - destruct s as [|x r]; [discriminate|].
    destruct (lit_ci d x); [|discriminate]. apply IH.
Qed.

Lemma ci_eat_agree (w1 : str) : forall w2 p q1 q2,
  ci_eat w1 p = Some q1 -> ci_eat w2 p = Some q2 -> ci_agree w1 w2 = true.
Proof.
  induction w1 as [|c1 w1 IH]; intros [|c2 w2] [o s] q1 q2; simpl; auto.
  destruct s as [|x r]; [discriminate|].
  destruct (lit_ci c1 x) eqn:E1; [|discriminate].
  destruct (lit_ci c2 x) eqn:E2; [|discriminate].
  intros H1 H2. apply lit_ci_eq in E1, E2.
  rewrite <- E1, <- E2, N.eqb_refl. simpl. eapply IH; eassumption.
Qed.

Lemma spaces_matches : forall s o, Matches (Star Space) (o, s) (spaces o s).
Proof.
  induction s as [|c r IH]; intro o; simpl.
  - apply M_Star0.
  - destruct (is_space c) eqn:E.
    + eapply M_StarS; [apply M_Space; assumption|apply IH].
    + apply M_Star0.
Qed.

Lemma spaces1_matches (p q : cursor) :
  spaces1 p = Some q -> Matches (Plus Space) p q.
Proof.
  destruct p as [o [|c r]]; unfold spaces1; simpl; [discriminate|].
  destruct (is_space c) eqn:E; [|discriminate].
  intros [= <-]. unfold Plus.
  econstructor; [apply M_Space; assumption|apply spaces_matches].
Qed.

Lemma star_space_stuck (o : option char) (c : char) (r : str) (q : cursor) :
  is_space c = false -> Matches (Star Space) (o, c :: r) q -> q = (o, c :: r).
Proof.
  intros E M. inversion M as [| | | | | | | | | |a p|a p m t Ms Mr]; subst.
  - reflexivity.
  - inversion Ms; subst. congruence.
Qed.

(** A non-empty repetition of "any character" reads at least one. *)
Lemma plus_any_consumes (p q : cursor) :
  Matches (Plus AnyCh) p q ->
  exists x w, ahead p = (x :: w) ++ ahead q /\ fst q = walk (x :: w) (fst p).
Proof.
  unfold Plus. intro M.
  inversion M as [| | | | | | |a b p0 m t Mc Mw| | | |]; subst.
  inversion Mc; subst.
  destruct (matches_consumes Mw) as (w & E & F). simpl in E, F.
  exists x, w. simpl. rewrite E. auto.
Qed.

End ScannerTheory.

(* ------------------------------------------------------------------ *)
(** ** [strip], [split] and the statement list                         *)
(* ------------------------------------------------------------------ *)

Lemma lstrip_suffix (s : str) :
  exists w, s = w ++ lstrip s /\ Forall (fun c => is_space c = true) w.
Proof.
  induction s as [|c r [w [E F]]]; simpl.
  - exists []. auto.
  - destruct (is_space c) eqn:Ec.
    + exists (c :: w). simpl. rewrite <- E. auto.
    + exists []. auto.
Qed.

Lemma lstrip_head (s : str) (c : char) (r : str) :
  lstrip s = c :: r -> is_space c = false.
Proof.
  induction s as [|d s IH]; simpl; [discriminate|].
  destruct (is_space d) eqn:E; [assumption|].
  intros [= <- _]. assumption.
Qed.

Lemma lstrip_fixed (c : char) (r : str) :
  is_space c = false -> lstrip (c :: r) = c :: r.
Proof. intro E. simpl. rewrite E. reflexivity. Qed.

Lemma rstrip_prefix (s : str) :
  exists w, s = rstrip s ++ w /\ Forall (fun c => is_space c = true) w.
Proof.
  unfold rstrip. destruct (lstrip_suffix (rev s)) as [w [E F]].
  exists (rev w). split.
  - rewrite <- rev_app_distr, <- E, rev_involutive. reflexivity.
  - apply Forall_rev. assumption.
Qed.

Lemma strip_head (s : str) (c : char) (r : str) :
  strip s = c :: r -> is_space c = false.
Proof.
  unfold strip. intro E.
  destruct (rstrip_prefix (lstrip s)) as [w [Ew _]].
  rewrite E in Ew. simpl in Ew. eapply lstrip_head; eassumption.
Qed.

Lemma rstrip_last (s : str) (c : char) (r : str) :
  rev (rstrip s) = c :: r -> is_space c = false.
Proof.
  unfold rstrip. rewrite rev_involutive. apply lstrip_head.
Qed.

Lemma strip_idempotent (s : str) : strip (strip s) = strip s.
Proof.
  destruct (strip s) as [|c r] eqn:E; [reflexivity|].
  pose proof (strip_head _ E) as Hc.
  unfold strip at 1. rewrite (@lstrip_fixed c r Hc).
  unfold rstrip.
  destruct (rev (c :: r)) as [|d t] eqn:Er.
  - apply (f_equal (@List.length _)) in Er. simpl in Er.
    rewrite length_app in Er. simpl in Er. lia.
  - assert (Hd : is_space d = false).
    { apply (@rstrip_last (lstrip s) d t). fold (strip s). rewrite E. exact Er. }
    rewrite (@lstrip_fixed d t Hd), <- Er. apply rev_involutive.
Qed.

Lemma strip_incl (s : str) (c : char) : In c (strip s) -> In c s.
Proof.
  unfold strip. intro Hin.
  destruct (rstrip_prefix (lstrip s)) as [w [Ew _]].
  destruct (lstrip_suffix s) as [v [Ev _]].
  rewrite Ev, Ew. apply in_or_app. right. apply in_or_app. left. assumption.
Qed.

Lemma split_no_sep (sep : char) (s : str) :
  forall x, In x (split sep s) -> ~ In sep x.
Proof.
  induction s as [|c r IH]; simpl.
  - intros x [<-|[]] [].
  - destruct (N.eqb_spec c sep) as [->|Hne].
    + intros x [<-|Hin]; [intros []|apply IH; assumption].
    + destruct (split sep r) as [|h t] eqn:E.
      * intros x [<-|[]] [Hc|[]]. congruence.
      * intros x [<-|Hin].
        -- intros [Hc|Hh]; [congruence|].
           apply (IH h); simpl; auto.
        -- apply IH. simpl; auto.
Qed.

(** What a member of the statement list is. *)
Lemma statements_spec (sql s : str) :
  In s (statements sql) ->
  s <> [] /\ strip s = s /\ ~ In 59%N s
  /\ exists c r, s = c :: r /\ is_space c = false.
Proof.
  unfold statements. intro Hin.
  apply in_map_iff in Hin. destruct Hin as (x & <- & Hx).
  apply filter_In in Hx. destruct Hx as [Hx Hne].
  destruct (strip x) as [|c r] eqn:E; [discriminate|].
  repeat split.
  - discriminate.
  - rewrite <- E. apply strip_idempotent.
  - intro Hc. apply (split_no_sep _ _ _ Hx). apply strip_incl.
    rewrite E. assumption.
  - exists c, r. split; [reflexivity|]. eapply strip_head; eassumption.
Qed.

Section ValidatorTheory.
Context `{Unicode}.

(** Every statement of a list that passes the loop passes each test. *)
Lemma check_stmts_all (stmts : list str) :
  check_stmts stmts = true ->
  forall s, In s stmts ->
    re_match FORBIDDEN_PATTERN s = false
    /\ re_match SAFE_SQL_PATTERN s = true
    /\ (re_match DELETE_STOCK s = true -> re_search WHERE_ITEM_LOCATION s = true)
    /\ re_match DELETE_ITEMS s = false.
Proof.
  induction stmts as [|t rest IH]; simpl; [intros _ s []|].
  destruct (re_match FORBIDDEN_PATTERN t) eqn:E1; [discriminate|].
  destruct (re_match SAFE_SQL_PATTERN t) eqn:E2; simpl; [|discriminate].
  destruct (re_match DELETE_STOCK t) eqn:E3;
    destruct (re_search WHERE_ITEM_LOCATION t) eqn:E4; simpl;
    try discriminate;
    (destruct (re_match DELETE_ITEMS t) eqn:E5; [discriminate|]);
    intros Hrest s [<-|Hin]; auto; repeat split; auto; intro; congruence.
Qed.

Lemma validate_sql_some (sql : str) (stmts : list str) :
  validate_sql sql = Some stmts ->
  stmts = statements sql
  /\ (1 <= List.length stmts <= 6)%nat
  /\ check_stmts stmts = true.
Proof.
  unfold validate_sql.
  destruct (Nat.leb_spec 1 (List.length (statements sql)));
    destruct (Nat.leb_spec (List.length (statements sql)) 6);
    simpl; try discriminate.
  destruct (check_stmts (statements sql)) eqn:E; [|discriminate].
  intros [= <-]. auto.
Qed.

(** A script with a statement that fails a test is rejected. *)
Lemma validate_sql_rejects (sql s : str) :
  In s (statements sql) ->
  (re_match FORBIDDEN_PATTERN s = true
   \/ re_match SAFE_SQL_PATTERN s = false
   \/ (re_match DELETE_STOCK s = true /\ re_search WHERE_ITEM_LOCATION s = false)
   \/ re_match DELETE_ITEMS s = true) ->
  validate_sql sql = None.
Proof.
  intros Hin Hbad.
  destruct (validate_sql sql) as [stmts|] eqn:E; [exfalso|reflexivity].
  apply validate_sql_some in E. destruct E as (-> & _ & Hc).
  destruct (check_stmts_all _ Hc _ Hin) as (F & S & D & I).
  destruct Hbad as [B|[B|[[B1 B2]|B]]]; try congruence.
  rewrite (D B1) in B2. discriminate.
Qed.

End ValidatorTheory.

(* ------------------------------------------------------------------ *)
(** ** What the allow pattern admits                                   *)
(* ------------------------------------------------------------------ *)

Ltac inv H := inversion H; subst; clear H.

(** Take a match of a composite pattern apart, down to the keywords and
    the repetitions. *)
Ltac split_match :=
  repeat match goal with
    | M : Matches (Cat _ _) _ _ |- _ => inv M
    | M : Matches (Alt _ _) _ _ |- _ => inv M
    | M : Matches Bol _ _ |- _ => inv M
    | M : Matches Wordb _ _ |- _ => inv M
    | M : Matches (Kw _) _ _ |- _ => unfold Kw in M; apply lits_spec in M
    end.

Section ShapeTheory.
Context `{Unicode}.

Lemma verbs_spec (p q : cursor) :
  Matches VERBS p q -> exists k, In k VERB_NAMES /\ ci_eat (u k) p = Some q.
Proof.
  unfold VERBS, VERB_NAMES. intro M. split_match;
    eexists; (split; [|eassumption]); simpl; auto.
Qed.

Lemma boundary_after_word (q : cursor) (x : char) :
  fst q = Some x -> is_word x = true -> at_boundary q = true ->
  word_ends (snd q).
Proof.
  destruct q as [o rest]. simpl. intros -> W.
  unfold at_boundary, word_before, word_after, word_ends. simpl. rewrite W.
  destruct rest as [|c t]; [trivial|].
  destruct (is_word c); [discriminate|reflexivity].
Qed.

(** After a keyword that ends in an unaccented letter, a word boundary
    means that no word character follows. *)
Lemma keyword_word_end (w : str) (c : char) (p q : cursor) :
  ci_eat (w ++ [c]) p = Some q ->
  in_range 97 122 (fold_ci c) = true ->
  negb ((fold_ci c =? 105) || (fold_ci c =? 115) || (fold_ci c =? 107))%N = true ->
  at_boundary q = true ->
  word_ends (snd q).
Proof.
  intros E R N3 B.
  destruct (ci_eat_last _ _ _ E) as (x & F & L).
  eapply boundary_after_word; [exact F| |exact B].
  eapply ascii_letter_word; eassumption.
Qed.

Lemma verb_word_end (k : string) (p q : cursor) :
  In k VERB_NAMES -> ci_eat (u k) p = Some q -> at_boundary q = true ->
  word_ends (snd q).
Proof.
  intros Hk E B. simpl in Hk.
  destruct Hk as [<-|[<-|[<-|[<-|[]]]]].
  - apply (@keyword_word_end (u "SELEC") 84%N p q E); auto.
  - apply (@keyword_word_end (u "INSER") 84%N p q E); auto.
  - apply (@keyword_word_end (u "UPDAT") 69%N p q E); auto.
  - apply (@keyword_word_end (u "DELET") 69%N p q E); auto.
Qed.

(** For a statement that does not begin with white space, the allow
    pattern admits only the two shapes. *)
Lemma safe_shape (c : char) (r : str) :
  is_space c = false ->
  re_match SAFE_SQL_PATTERN (c :: r) = true -> permitted_shape (c :: r).
Proof.
  intros Hc M. apply re_match_spec in M. destruct M as [q M].
  unfold SAFE_SQL_PATTERN in M. split_match.
  - (* WITH ... verb *)
    right.
    match goal with M : Matches (Star Space) _ _ |- _ =>
      apply (star_space_stuck Hc) in M; subst end.
    match goal with E : ci_eat (u "WITH") _ = Some ?q1, B : at_boundary ?q1 = true |- _ =>
      pose proof (@keyword_word_end (u "WIT") 72%N _ _ E eq_refl eq_refl B) as Wmid;
      destruct q1 as [o1 r1];
      apply ci_eat_split in E; destruct E as (w & Es & Fw & Cw)
    end.
    match goal with M : Matches (Plus AnyCh) _ ?q2 |- _ =>
      destruct (plus_any_consumes M) as (y & mid & Emid & Fmid); clear M;
      destruct q2 as [o2 r2]
    end.
    match goal with M : Matches VERBS _ _ |- _ =>
      destruct (verbs_spec M) as (k & Hk & Ek); clear M end.
    match goal with B : at_boundary q = true |- _ =>
      pose proof (verb_word_end _ Hk Ek B) as Wrest end.
    destruct q as [o3 r3].
    apply ci_eat_split in Ek. destruct Ek as (v & Ev & Fv & Cv).
    simpl in *. subst.
    exists w, (y :: mid), v, r3.
    repeat split; auto.
    + discriminate.
    + unfold cur. rewrite walk_app. assumption.
    + exists k; auto.
  - (* verb *)
    left.
    match goal with M : Matches (Star Space) _ _ |- _ =>
      apply (star_space_stuck Hc) in M; subst end.
    match goal with M : Matches VERBS _ _ |- _ =>
      destruct (verbs_spec M) as (k & Hk & Ek); clear M end.
    match goal with B : at_boundary q = true |- _ =>
      pose proof (verb_word_end _ Hk Ek B) as Wrest end.
    destruct q as [o2 r2].
    apply ci_eat_split in Ek. destruct Ek as (v & Ev & Fv & Cv).
    simpl in *. exists v, r2. repeat split; auto. exists k; auto.
Qed.

End ShapeTheory.

(* ------------------------------------------------------------------ *)
(** ** The validator: statement count, deny list, allow list           *)
(* ------------------------------------------------------------------ *)

Lemma is_verb_starts (v rest : str) :
  is_verb v -> exists k, In k VERB_NAMES /\ ci_starts (u k) (v ++ rest) = true.
Proof.
  intros (k & Hk & E). exists k. split; [assumption|].
  unfold ci_starts. rewrite (@ci_eqb_eat (u k) v None rest E). reflexivity.
Qed.

Lemma ci_starts_agree (w1 w2 s : str) :
  ci_starts w1 s = true -> ci_starts w2 s = true -> ci_agree w1 w2 = true.
Proof.
  unfold ci_starts. intros E1 E2.
  destruct (ci_eat w1 (None, s)) eqn:F1; [|discriminate].
  destruct (ci_eat w2 (None, s)) eqn:F2; [|discriminate].
  eapply ci_eat_agree; eassumption.
Qed.

(** C3.  A script one of whose statements (after splitting on ';',
    trimming and dropping the empty fragments) begins, letter case ignored,
    with DROP, ALTER, TRUNCATE, PRAGMA, ATTACH or DETACH is rejected as a
    whole: [validate_sql] returns [None]. *)
Theorem denylisted_verb_rejected `{Unicode} (sql s : str) (kw : string) :
  In s (statements sql) ->
  In kw DENYLIST ->
  ci_starts (u kw) s = true ->
  validate_sql sql = None.
Proof.
  intros Hin Hkw Hstart.
  destruct (validate_sql sql) as [stmts|] eqn:E; [exfalso|reflexivity].
  apply validate_sql_some in E. destruct E as (-> & _ & Hc).
  destruct (check_stmts_all _ Hc _ Hin) as (_ & Hsafe & _).
  destruct (statements_spec _ _ Hin) as (_ & _ & _ & c & r & -> & Hsp).
  assert (Hw : exists k, In k ("WITH"%string :: VERB_NAMES)
                         /\ ci_starts (u k) (c :: r) = true).
  { destruct (@safe_shape _ c r Hsp Hsafe) as [(v & rest & Es & Hv & _)|
                                          (w & mid & v & rest & Es & Cw & _)].
    - rewrite Es. destruct (is_verb_starts rest Hv) as (k & Hk & Ek).
      exists k. split; [right; assumption|assumption].
    - exists "WITH"%string. split; [left; reflexivity|].
      rewrite Es. unfold ci_starts.
      rewrite (@ci_eqb_eat _ w None (mid ++ v ++ rest) Cw). reflexivity. }
  destruct Hw as (k & Hk & Ek).
  pose proof (ci_starts_agree _ _ _ Hstart Ek) as A.
  simpl in Hkw, Hk.
  destruct Hkw as [<-|[<-|[<-|[<-|[<-|[<-|[]]]]]]];
    destruct Hk as [<-|[<-|[<-|[<-|[<-|[]]]]]];
    vm_compute in A; discriminate A.
Qed.

Lemma denylisted_verb_rejected_witness :
  validate_sql (u "SELECT 1; drop table stock") = None.
Proof.
  apply (@denylisted_verb_rejected cyrillic_table _ (u "drop table stock") "DROP").
  - vm_compute. right. left. reflexivity.
  - simpl. auto.
  - vm_compute. reflexivity.
Defined.

(** C4.  With the script split on ';', the fragments trimmed and the empty
    ones dropped, [validate_sql] rejects when no statement or more than six
    remain; a script it accepts yields exactly that list, in order: one to
    six statements, each non-empty, trimmed and free of ';'. *)
Theorem statement_count_bounds `{Unicode} (sql : str) :
  (List.length (statements sql) = 0%nat \/ (6 < List.length (statements sql))%nat ->
   validate_sql sql = None)
  /\ (forall stmts, validate_sql sql = Some stmts ->
        stmts = statements sql
        /\ (1 <= List.length stmts <= 6)%nat
        /\ Forall (fun s => s <> [] /\ strip s = s /\ ~ In 59%N s) stmts).
Proof.
  split.
  - intro Hlen. unfold validate_sql.
    destruct (Nat.leb_spec 1 (List.length (statements sql)));
      destruct (Nat.leb_spec (List.length (statements sql)) 6);
      simpl; try reflexivity; lia.
  - intros stmts E. apply validate_sql_some in E.
    destruct E as (-> & Hlen & _). repeat split; try apply Hlen.
    apply Forall_forall. intros s Hin.
    destruct (statements_spec _ _ Hin) as (A & B & C & _). auto.
Qed.

Lemma statement_count_bounds_witness :
  validate_sql (u "SELECT 1;SELECT 2;SELECT 3;SELECT 4;SELECT 5;SELECT 6;SELECT 7") = None
  /\ validate_sql (u " ; ;; ") = None
  /\ (1 <= List.length [u "SELECT 1"; u "UPDATE t SET a = 1"] <= 6)%nat.
Proof.
  split; [|split].
  - apply (proj1 (@statement_count_bounds cyrillic_table _)).
    right. vm_compute. lia.
  - apply (proj1 (@statement_count_bounds cyrillic_table _)).
    left. vm_compute. reflexivity.
  - apply (proj2 (@statement_count_bounds cyrillic_table
                    (u "SELECT 1; UPDATE t SET a = 1 ;")) _).
    vm_compute. reflexivity.
Defined.

Lemma validated_shape `{Unicode} (sql : str) (stmts : list str) :
  validate_sql sql = Some stmts ->
  forall s, In s stmts -> permitted_shape s.
Proof.
  intros E s Hin. apply validate_sql_some in E. destruct E as (-> & _ & Hc).
  destruct (check_stmts_all _ Hc _ Hin) as (_ & Hsafe & _).
  destruct (statements_spec _ _ Hin) as (_ & _ & _ & c & r & -> & Hsp).
  apply safe_shape; assumption.
Qed.

(** What the allow pattern asks of a statement.  Every statement of a
    script that [validate_sql] accepts begins, letter case ignored, with
    SELECT, INSERT, UPDATE or DELETE as a whole word, or with WITH as a
    whole word followed, anywhere after at least one more character, by
    one of these verbs as a whole word (it need not be the verb of the
    statement); a script holding a statement of neither form is
    rejected. *)
Lemma accepted_statements_shape `{Unicode} (sql : str) :
  (forall stmts, validate_sql sql = Some stmts ->
     forall s, In s stmts -> permitted_shape s)
  /\ (forall s, In s (statements sql) -> ~ permitted_shape s ->
        validate_sql sql = None).
Proof.
  split.
  - apply validated_shape.
  - intros s Hin Hno.
    destruct (validate_sql sql) as [stmts|] eqn:E; [exfalso|reflexivity].
    apply Hno. apply (@validated_shape _ sql stmts E).
    apply validate_sql_some in E. destruct E as (-> & _). exact Hin.
Qed.

Lemma accepted_statements_shape_witness :
  permitted_shape (u "select name from items")
  /\ permitted_shape (u "WITH t AS (SELECT 1) UPDATE items SET size = NULL").
Proof.
  pose proof (proj1 (@accepted_statements_shape cyrillic_table
             (u "select name from items; WITH t AS (SELECT 1) UPDATE items SET size = NULL"))
             [u "select name from items";
              u "WITH t AS (SELECT 1) UPDATE items SET size = NULL"]) as A.
  assert (V : validate_sql
                (u "select name from items; WITH t AS (SELECT 1) UPDATE items SET size = NULL")
              = Some [u "select name from items";
                      u "WITH t AS (SELECT 1) UPDATE items SET size = NULL"])
    by (vm_compute; reflexivity).
  split; apply (A V); simpl; auto.
Defined.

(** C6.  The validator at a REPLACE statement: written by itself it is
    rejected; written behind a WITH clause it is accepted, whatever the
    Unicode table, because the allow pattern takes the SELECT inside the
    clause for the verb of the statement.  In the same way a text that is
    no statement at all is accepted. *)
Theorem cte_prefixed_replace_accepted (U : Unicode) :
  validate_sql
    (u "REPLACE INTO stock(item_id,location_code,qty) VALUES (1,'A1',5)")
  = None
  /\ validate_sql
       (u "WITH t AS (SELECT 1) REPLACE INTO stock(item_id,location_code,qty) VALUES (1,'A1',5)")
     = Some [u "WITH t AS (SELECT 1) REPLACE INTO stock(item_id,location_code,qty) VALUES (1,'A1',5)"]
  /\ validate_sql (u "WITH,DELETE") = Some [u "WITH,DELETE"].
Proof. repeat split; vm_compute; reflexivity. Qed.

(** C5.  The validator at a DELETE on [items] and at a DELETE on [stock]
    without any where-clause, each written behind a WITH clause: both
    scripts are accepted, whatever the Unicode table. *)
Theorem cte_prefixed_delete_accepted (U : Unicode) :
  validate_sql (u "WITH t AS (SELECT 1) DELETE FROM items")
  = Some [u "WITH t AS (SELECT 1) DELETE FROM items"]
  /\ validate_sql (u "WITH t AS (SELECT 1) DELETE FROM stock")
     = Some [u "WITH t AS (SELECT 1) DELETE FROM stock"].
Proof. split; vm_compute; reflexivity. Qed.

(* ------------------------------------------------------------------ *)
(** ** The anti-mass-delete check                                      *)
(* ------------------------------------------------------------------ *)

Section DeleteTheory.
Context `{Unicode}.

(** The scanner's reading of "begins with DELETE FROM <table>" is matched
    by the pattern of the source. *)
Lemma begins_delete_from_match (table : string) (s : str) :
  begins_delete_from (u table) s = true ->
  re_match (DELETE_FROM table) s = true.
Proof.
  unfold begins_delete_from, obind. intro B.
  destruct (ci_eat (u "DELETE") (None, s)) as [p1|] eqn:E1; [|discriminate].
  destruct (spaces1 p1) as [p2|] eqn:E2; [|discriminate].
  destruct (ci_eat (u "FROM") p2) as [p3|] eqn:E3; [|discriminate].
  destruct (spaces1 p3) as [p4|] eqn:E4; [|discriminate].
  destruct (ci_eat (u table) p4) as [p5|] eqn:E5; [|discriminate].
  apply re_match_spec. exists p5. unfold DELETE_FROM, Kw.
  apply M_Cat with (q := (None, s)); [apply M_Bol|].
  apply M_Cat with (q := (None, s)); [apply M_Star0|].
  apply M_Cat with (q := p1); [apply lits_spec; assumption|].
  apply M_Cat with (q := p2); [apply spaces1_matches; assumption|].
  apply M_Cat with (q := p3); [apply lits_spec; assumption|].
  apply M_Cat with (q := p4); [apply spaces1_matches; assumption|].
  apply M_Cat with (q := p5); [apply lits_spec; assumption|].
  apply M_Wordb. assumption.
Qed.

Lemma search_from_spec (r : regex) : forall b a,
  search_from r (walk a None) b = true ->
  exists a' b', a ++ b = a' ++ b' /\ found (run r (cur a' b')) = true.
Proof.
  induction b as [|c b IH]; intros a; simpl; intro S;
    apply orb_true_iff in S; destruct S as [S|S]; try discriminate.
  - exists a, []. auto.
  - exists a, (c :: b). auto.
  - destruct (IH (a ++ [c])) as (a' & b' & E & F).
    + rewrite walk_app. exact S.
    + exists a', b'. rewrite <- E, <- app_assoc. auto.
Qed.

Lemma matches_cur (r : regex) (a b : str) (q : cursor) :
  Matches r (cur a b) q ->
  exists w b', b = w ++ b' /\ q = cur (a ++ w) b'.
Proof.
  intro M. destruct (matches_consumes M) as (w & E & F).
  destruct q as [o b']. simpl in E, F. exists w, b'.
  split; [assumption|]. unfold cur. rewrite walk_app, <- F. reflexivity.
Qed.

Lemma ci_eqb_length (w : str) : forall v,
  ci_eqb w v = true -> List.length v = List.length w.
Proof.
  induction w as [|c w IH]; intros [|x v]; simpl; try discriminate; auto.
  intro E. apply andb_true_iff in E. destruct E as [_ E]. f_equal. auto.
Qed.

Lemma ci_eat_cur (w a b : str) (q : cursor) :
  ci_eat w (cur a b) = Some q ->
  exists v b', b = v ++ b' /\ q = cur (a ++ v) b'
               /\ List.length v = List.length w.
Proof.
  intro E. pose proof E as M. apply lits_spec in M.
  destruct (matches_cur M) as (v & b' & Eb & Eq). subst.
  exists v, b'. repeat split.
  apply ci_eat_split in E. destruct E as (v' & Ev & _ & C).
  simpl in Ev. apply ci_eqb_length in C.
  apply (f_equal (@List.length _)) in Ev. rewrite !length_app in Ev. lia.
Qed.

Lemma cursor_at_split (a b : str) :
  cursor_at (a ++ b) (List.length a) = cur a b.
Proof.
  unfold cursor_at. f_equal.
  - f_equal. induction a; simpl; [reflexivity|f_equal; assumption].
  - induction a; simpl; [reflexivity|assumption].
Qed.

Lemma token_positions_in (w a b : str) :
  token_here w (cur a b) = true ->
  In (List.length a) (token_positions w (a ++ b)).
Proof.
  intro T. unfold token_positions. apply filter_In. split.
  - apply in_seq. rewrite length_app. lia.
  - rewrite cursor_at_split. assumption.
Qed.

(** Where the where-pattern is found, an [item_id] token stands before a
    [location_code] token. *)
Lemma where_pattern_order (s : str) :
  re_search WHERE_ITEM_LOCATION s = true ->
  exists i j,
    In i (token_positions (u "item_id") s)
    /\ In j (token_positions (u "location_code") s)
    /\ (i < j)%nat.
Proof.
  unfold re_search. intro S.
  destruct (@search_from_spec WHERE_ITEM_LOCATION s []) as (a & b & E & F);
    [exact S|].
  simpl in E. subst s.
  apply found_spec in F. destruct F as [q F]. apply run_spec in F.
  unfold WHERE_ITEM_LOCATION in F. split_match.
  match goal with E : ci_eat (u "WHERE") _ = Some ?p |- _ =>
    destruct (ci_eat_cur _ _ _ E) as (v1 & b1 & -> & -> & _); clear E end.
  match goal with M : Matches (Star Dot) (cur _ _) ?p |- _ =>
    destruct (matches_cur M) as (d1 & b2 & -> & ->); clear M end.
  match goal with E : ci_eat (u "item_id") ?p = Some ?p', B1 : at_boundary ?p = true,
                  B2 : at_boundary ?p' = true |- _ =>
    assert (T1 : token_here (u "item_id") p = true)
      by (unfold token_here; rewrite B1, E, B2; reflexivity);
    destruct (ci_eat_cur _ _ _ E) as (v2 & b3 & -> & -> & L2); clear E
  end.
  match goal with M : Matches (Star Dot) (cur _ _) ?p |- _ =>
    destruct (matches_cur M) as (d2 & b4 & -> & ->); clear M end.
  match goal with E : ci_eat (u "location_code") ?p = Some ?p', B1 : at_boundary ?p = true,
                  B2 : at_boundary ?p' = true |- _ =>
    assert (T2 : token_here (u "location_code") p = true)
      by (unfold token_here; rewrite B1, E, B2; reflexivity)
  end.
  apply token_positions_in in T1, T2.
  eexists _, _. split; [|split].
  - replace (a ++ v1 ++ d1 ++ v2 ++ d2 ++ b4)
      with (((a ++ v1) ++ d1) ++ v2 ++ d2 ++ b4)
      by (rewrite <- !app_assoc; reflexivity).
    exact T1.
  - replace (a ++ v1 ++ d1 ++ v2 ++ d2 ++ b4)
      with (((((a ++ v1) ++ d1) ++ v2) ++ d2) ++ b4)
      by (rewrite <- !app_assoc; reflexivity).
    exact T2.
  - rewrite !length_app. simpl in L2. lia.
Qed.

Lemma all_before_spec (first second s : str) :
  all_before first second s = true ->
  forall i j, In i (token_positions first s) ->
              In j (token_positions second s) -> (i < j)%nat.
Proof.
  unfold all_before. intros A i j Hi Hj.
  rewrite forallb_forall in A. specialize (A j Hj).
  rewrite forallb_forall in A. specialize (A i Hi).
  apply Nat.ltb_lt. assumption.
Qed.

End DeleteTheory.

(** What the two delete checks do reject: a statement that begins with
    DELETE FROM items, and one that begins with DELETE FROM stock and
    lacks one of the two tokens. *)
Lemma leading_delete_rejected `{Unicode} (sql s : str) :
  In s (statements sql) ->
  begins_delete_from (u "items") s = true
  \/ (begins_delete_from (u "stock") s = true
      /\ (token_positions (u "item_id") s = []
          \/ token_positions (u "location_code") s = [])) ->
  validate_sql sql = None.
Proof.
  intros Hin [Hit|[Hst Hno]]; apply (validate_sql_rejects _ _ Hin).
  - right. right. right. apply (begins_delete_from_match "items"). assumption.
  - right. right. left. split.
    + apply (begins_delete_from_match "stock"). assumption.
    + destruct (re_search WHERE_ITEM_LOCATION s) eqn:E; [exfalso|reflexivity].
      destruct (where_pattern_order _ E) as (i & j & Hi & Hj & _).
      destruct Hno as [Hno|Hno]; rewrite Hno in *; contradiction.
Qed.

(** The order that the check of lines 170-171 asks for.  A script is
    rejected when one of its statements begins with DELETE FROM stock and
    every [location_code] token of the statement stands before every
    [item_id] token: the check asks for an [item_id] token followed,
    later on the same line, by a [location_code] token; that both occur
    is not enough. *)
Lemma reversed_tokens_rejected `{Unicode} (sql s : str) :
  In s (statements sql) ->
  begins_delete_from (u "stock") s = true ->
  all_before (u "location_code") (u "item_id") s = true ->
  validate_sql sql = None.
Proof.
  intros Hin Hdel Hord.
  apply (validate_sql_rejects _ _ Hin).
  destruct (re_match FORBIDDEN_PATTERN s) eqn:E1; [auto|].
  destruct (re_match SAFE_SQL_PATTERN s) eqn:E2; [|auto].
  right. right. left. split.
  - apply (begins_delete_from_match "stock"). assumption.
  - destruct (re_search WHERE_ITEM_LOCATION s) eqn:E3; [exfalso|reflexivity].
    destruct (where_pattern_order _ E3) as (i & j & Hi & Hj & Hlt).
    pose proof (@all_before_spec _ _ _ _ Hord j i Hj Hi). lia.
Qed.

Lemma reversed_tokens_rejected_witness :
  token_positions (u "location_code")
    (u "DELETE FROM stock WHERE location_code='A1' AND item_id=1") = [24%nat]
  /\ token_positions (u "item_id")
       (u "DELETE FROM stock WHERE location_code='A1' AND item_id=1") = [47%nat]
  /\ validate_sql
       (u "SELECT 1; DELETE FROM stock WHERE location_code='A1' AND item_id=1")
     = None.
Proof.
  split; [vm_compute; reflexivity|]. split; [vm_compute; reflexivity|].
  apply (@reversed_tokens_rejected cyrillic_table _
           (u "DELETE FROM stock WHERE location_code='A1' AND item_id=1")).
  - vm_compute. right. left. reflexivity.
  - vm_compute. reflexivity.
  - vm_compute. reflexivity.
Defined.


(* ------------------------------------------------------------------ *)
(** ** The executor: what [run_sql] commits and what it logs           *)
(* ------------------------------------------------------------------ *)

Lemma encodable_app (a b : str) :
  encodable (a ++ b) = encodable a && encodable b.
Proof. apply forallb_app. Qed.

(** The text that [run_sql] logs can be encoded when the statements
    can. *)
Lemma encodable_join (stmts : list str) :
  forallb encodable stmts = true -> encodable (join (u "; ") stmts) = true.
Proof.
  induction stmts as [|s rest IH]; [reflexivity|].
  cbn [forallb]. intro E. apply andb_true_iff in E. destruct E as [Es Er].
  destruct rest as [|t rest]; [exact Es|].
  change (join (u "; ") (s :: t :: rest))
    with (s ++ u "; " ++ join (u "; ") (t :: rest)).
  rewrite !encodable_app, Es, (IH Er). reflexivity.
Qed.

Lemma log_attempt_text (c : Conn) (user sql_all : str) (summary : option str)
      (ok : bool) :
  encodable user = true -> encodable sql_all = true ->
  bindable summary = true ->
  log_attempt c user sql_all (py_opt_str summary) ok
  = (Returned tt,
     commit (set_working (implicit_begin c)
               (log_append (working c) (Log user sql_all summary ok)))).
Proof.
  intros Eu Es Eb. unfold log_attempt, bind_params. rewrite Eu, Es.
  destruct summary as [t|]; cbn [py_opt_str bind_text bindable] in *;
    [rewrite Eb|]; reflexivity.
Qed.

(** Whatever the [try] block did, the [finally] block commits the
    connection as the [try] block left it, with one more log row, when
    its parameters can be bound. *)
Lemma run_sql_commits (exec : engine) (c : Conn) (stmts : list str)
      (mode user : str) (summary : option str) :
  encodable user = true -> forallb encodable stmts = true ->
  bindable summary = true ->
  run_sql exec c stmts mode user (py_opt_str summary)
  = (fst (run_try exec c stmts mode),
     let db := log_append (working (snd (run_try exec c stmts mode)))
                 (Log user (join (u "; ") stmts) summary
                      (returned (fst (run_try exec c stmts mode)))) in
     Connection db db false (row_factory (snd (run_try exec c stmts mode)))).
Proof.
  intros Eu Es Eb. unfold run_sql.
  destruct (run_try exec c stmts mode) as [result c1].
  rewrite (@log_attempt_text c1 user (join (u "; ") stmts) summary
             (returned result) Eu (@encodable_join stmts Es) Eb).
  reflexivity.
Qed.

Lemma run_stmts_log (exec : engine) (mode : str) :
  leaves_log exec ->
  forall stmts c res,
    tx_log (working c) = tx_log (committed c) ->
    tx_log (working (snd (run_stmts exec c stmts mode res)))
    = tx_log (committed c).
Proof.
  intros Hlog. induction stmts as [|s rest IH]; intros c res Hc;
    cbn [run_stmts].
  - assumption.
  - destruct (encodable s); [|assumption].
    pose proof (Hlog s (working c)) as Hs.
    destruct (exec s (working c)) as [db' rows|msg db'|msg]; cbn [snd].
    + assert (Hc' : tx_log (working (set_working c db'))
                    = tx_log (committed (set_working c db')))
        by (cbn; congruence).
      destruct (str_eqb mode _).
      * destruct (py_dicts (row_factory c) rows); cbn [snd].
        -- apply (IH (set_working c db') a Hc').
        -- cbn. congruence.
      * apply (IH (set_working c db') res Hc').
    + cbn. congruence.
    + reflexivity.
Qed.

Lemma run_try_log (exec : engine) (c : Conn) (stmts : list str) (mode : str) :
  leaves_log exec -> idle c ->
  tx_log (working (snd (run_try exec c stmts mode))) = tx_log (committed c).
Proof.
  intros Hlog [Htx Hw]. unfold run_try, begin. rewrite Htx.
  set (c0 := Connection (committed c) (working c) true (row_factory c)).
  assert (H0 : tx_log (working c0) = tx_log (committed c0))
    by (simpl; rewrite Hw; reflexivity).
  pose proof (run_stmts_log mode Hlog stmts c0 [] H0) as Hr.
  destruct (run_stmts exec c0 stmts mode []) as [[res|e] c1]; simpl in *;
    assumption.
Qed.

Lemma run_try_returned (exec : engine) (c : Conn) (stmts : list str) (mode : str) :
  returned (fst (run_try exec c stmts mode)) = true <->
  exists res c0 c1,
    begin c = Some c0
    /\ run_stmts exec c0 stmts mode [] = (Returned res, c1)
    /\ run_try exec c stmts mode = (Returned res, commit c1).
Proof.
  unfold run_try. destruct (begin c) as [c0|]; simpl.
  - destruct (run_stmts exec c0 stmts mode []) as [[res|e] c1] eqn:R; simpl.
    + split; [intros _; exists res, c0, c1; auto|reflexivity].
    + split; [discriminate|]. intros (res & c0' & c1' & [= <-] & E & _).
      congruence.
  - split; [discriminate|]. intros (res & c0' & c1' & E & _). discriminate E.
Qed.

(** The audit row where it is written.  Every call of [run_sql] whose
    parameters [sqlite3] can bind (the user, the statements and the
    summary hold no surrogate code point, the summary being a [str] or
    [None] as the signature has it) ends with the connection committed and exactly one row added to
    [tx_log] as the [try] block left it; the row holds the user, the
    statements joined by [; ] and the summary, and its success flag is
    set exactly when the [try] block ran every statement and reached its
    own [db.commit()].  Where no statement writes to [tx_log] and no
    transaction was open, the committed log is the old one plus that
    row. *)
Lemma audit_record_appended (exec : engine) (c : Conn) (stmts : list str)
      (mode user : str) (summary : option str) :
  encodable user = true -> forallb encodable stmts = true ->
  bindable summary = true ->
  let t := run_try exec c stmts mode in
  let r := run_sql exec c stmts mode user (py_opt_str summary) in
  let record := Log user (join (u "; ") stmts) summary (returned (fst t)) in
  fst r = fst t
  /\ committed (snd r) = log_append (working (snd t)) record
  /\ idle (snd r)
  /\ (log_success record = true <->
      exists res c0 c1,
        begin c = Some c0
        /\ run_stmts exec c0 stmts mode [] = (Returned res, c1)
        /\ t = (Returned res, commit c1))
  /\ (leaves_log exec -> idle c ->
      tx_log (committed (snd r)) = tx_log (committed c) ++ [record]).
Proof.
  intros Eu Es Eb. cbv zeta.
  rewrite (@run_sql_commits exec c stmts mode user summary Eu Es Eb).
  simpl.
  split; [reflexivity|]. split; [reflexivity|].
  split; [split; reflexivity|].
  split; [apply run_try_returned|].
  intros Hlog Hidle. rewrite (run_try_log stmts mode Hlog Hidle). reflexivity.
Qed.

Lemma reference_engine_leaves_log : leaves_log reference_engine.
Proof.
  intros s db. unfold reference_engine.
  destruct (parse_stock_op s) as [[nm sz|i l n|i l n|i l|i l|i l]|]; simpl;
    try reflexivity.
  - destruct (_ && _); reflexivity.
  - destruct (n <=? 0)%Z; [reflexivity|].
    destruct (existsb (in_cell i l) (stock db)); [reflexivity|].
    destruct (existsb _ (items db) && existsb _ (locations db)); reflexivity.
  - destruct (forallb _ (stock db)); reflexivity.
Qed.

Lemma audit_record_appended_witness :
  tx_log (committed
            (snd (run_sql reference_engine demo_conn [MOVE_IN; MOVE_OUT]
                          (u "write") (u "operator") (py_opt_str None))))
  = [Log (u "operator") (join (u "; ") [MOVE_IN; MOVE_OUT]) None false].
Proof.
  destruct (@audit_record_appended reference_engine demo_conn [MOVE_IN; MOVE_OUT]
              (u "write") (u "operator") None eq_refl eq_refl eq_refl)
    as (_ & _ & _ & _ & H).
  rewrite (H reference_engine_leaves_log (conj eq_refl eq_refl)).
  vm_compute. reflexivity.
Defined.

(** C2.  [run_sql] at a script that succeeds and a summary that
    [sqlite3] cannot bind -- a [str] that holds a surrogate code point (as
    [json.loads] yields them), or a list (the handler passes on whatever
    the payload holds): the [try] block has committed the script when the
    INSERT of the [finally] block raises, so the call ends with the
    quantity changed, no row added to [tx_log], and the transaction of
    the INSERT left open. *)
Theorem audit_record_missing :
  let before := tx_log (committed demo_conn) in
  let r := run_sql reference_engine demo_conn [PUT_IN] (u "write")
                   (u "operator") (JStr [55357%N]) in
  let r' := run_sql reference_engine demo_conn [PUT_IN] (u "write")
                    (u "operator") (JArr [JStr (u "put")]) in
  (fst r = Raised UnicodeEncodeError
   /\ stock (committed (snd r)) = [Stock 1 (utf8 "А1") 6]
   /\ tx_log (committed (snd r)) = before
   /\ tx_log (working (snd r)) = before
   /\ in_tx (snd r) = true)
  /\ ((exists msg, fst r' = Raised (DatabaseError msg))
      /\ stock (committed (snd r')) = [Stock 1 (utf8 "А1") 6]
      /\ tx_log (committed (snd r')) = before
      /\ tx_log (working (snd r')) = before
      /\ in_tx (snd r') = true).
Proof.
  cbv zeta. split; [vm_compute; repeat split; reflexivity|].
  split; [eexists; vm_compute; reflexivity|].
  vm_compute. repeat split; reflexivity.
Qed.

(** The defect behind C1, for any engine: when the [try] block raises,
    the data that [run_sql] commits is the data of the transaction at the
    point of failure, not the data from before the call. *)
Lemma failure_commits_partial_writes (exec : engine) (c c1 : Conn)
      (stmts : list str) (mode user : str) (summary : option str) (e : exn) :
  encodable user = true -> forallb encodable stmts = true ->
  bindable summary = true ->
  run_try exec c stmts mode = (Raised e, c1) ->
  data (committed (snd (run_sql exec c stmts mode user (py_opt_str summary))))
  = data (working c1).
Proof.
  intros Eu Es Eb E.
  rewrite (@run_sql_commits exec c stmts mode user summary Eu Es Eb), E.
  reflexivity.
Qed.

(** C1.  The executor at a validated two-statement move whose second
    statement violates [CHECK(qty > 0)]: the call raises the database
    error, and the row written by the first statement is committed, so
    the store after the failed attempt differs from the store before. *)
Theorem failed_move_not_rolled_back :
  let r := run_sql reference_engine demo_conn [MOVE_IN; MOVE_OUT]
                   (u "write") (u "operator") JNull in
  validate_sql (join (u "; ") [MOVE_IN; MOVE_OUT]) = Some [MOVE_IN; MOVE_OUT]
  /\ fst r = Raised (DatabaseError CHECK_FAILED)
  /\ stock (committed demo_conn) = [Stock 1 (utf8 "А1") 2]
  /\ stock (committed (snd r))
     = [Stock 1 (utf8 "А1") 2; Stock 1 (utf8 "Б2") 3]
  /\ data (committed (snd r)) <> data (committed demo_conn).
Proof.
  cbv zeta. repeat split; try (vm_compute; reflexivity).
  vm_compute. discriminate.
Qed.

(* ------------------------------------------------------------------ *)
(** ** The context assembler                                           *)
(* ------------------------------------------------------------------ *)

Lemma str_cmp_antisym : forall a b, str_cmp b a = CompOpp (str_cmp a b).
Proof.
  induction a as [|x a IH]; intros [|y b]; simpl; try reflexivity.
  rewrite (N.compare_antisym x y).
  destruct (x ?= y)%N; simpl; auto.
Qed.

Lemma lex_antisym (a b a' b' : comparison) :
  a' = CompOpp a -> b' = CompOpp b -> lex a' b' = CompOpp (lex a b).
Proof. intros -> ->. destruct a; reflexivity. Qed.

Lemma size_cmp_antisym (a b : option str) :
  size_cmp b a = CompOpp (size_cmp a b).
Proof.
  destruct a, b; simpl; try reflexivity. apply str_cmp_antisym.
Qed.

Lemma order_cmp_antisym (a b : joined) :
  order_cmp b a = CompOpp (order_cmp a b).
Proof.
  unfold order_cmp.
  apply lex_antisym; [apply str_cmp_antisym|].
  apply lex_antisym; [apply size_cmp_antisym|apply str_cmp_antisym].
Qed.

Lemma order_leb_total (a b : joined) :
  order_leb a b = false -> order_leb b a = true.
Proof.
  unfold order_leb. rewrite (order_cmp_antisym a b).
  destruct (order_cmp a b); simpl; auto; discriminate.
Qed.

Lemma insert_row_sorted (r : joined) (l : list joined) :
  Sorted ordered l -> Sorted ordered (insert_row r l).
Proof.
  induction l as [|h t IH]; simpl; intro S.
  - constructor; constructor.
  - destruct (order_leb r h) eqn:E.
    + constructor; [assumption|constructor; exact E].
    + inversion S as [|? ? St Hd]; subst.
      constructor; [apply IH; assumption|].
      destruct t as [|h' t']; simpl.
      * constructor. apply order_leb_total; assumption.
      * destruct (order_leb r h').
        -- constructor. apply order_leb_total; assumption.
        -- inversion Hd; subst. constructor; assumption.
Qed.

Lemma insert_row_perm (r : joined) (l : list joined) :
  Permutation (insert_row r l) (r :: l).
Proof.
  induction l as [|h t IH]; simpl; [reflexivity|].
  destruct (order_leb r h); [reflexivity|].
  rewrite IH. apply perm_swap.
Qed.

Lemma order_rows_sorted (l : list joined) : Sorted ordered (order_rows l).
Proof.
  induction l as [|r l IH]; simpl; [constructor|].
  apply insert_row_sorted; assumption.
Qed.

Lemma order_rows_perm (l : list joined) : Permutation (order_rows l) l.
Proof.
  induction l as [|r l IH]; simpl; [reflexivity|].
  rewrite insert_row_perm. constructor; assumption.
Qed.

Section Renumbering.
Variable f : Z -> Z.
Hypothesis f_injective : forall a b, f a = f b -> a = b.

Lemma renumber_eqb (a b : Z) : (f a =? f b)%Z = (a =? b)%Z.
Proof.
  destruct (Z.eqb_spec a b) as [->|N]; [apply Z.eqb_refl|].
  apply Z.eqb_neq. intro E. apply N, f_injective, E.
Qed.

Lemma join_item_renumber (st : stock_row) (its : list item_row) :
  map (fun it => (it, Stock (f (stock_item st)) (stock_location st) (stock_qty st)))
      (filter (fun it => (item_id it =? f (stock_item st))%Z)
              (map (fun it => Item (f (item_id it)) (item_name it) (item_size it))
                   its))
  = map (renumber_row f)
        (map (fun it => (it, st))
             (filter (fun it => (item_id it =? stock_item st)%Z) its)).
Proof.
  induction its as [|it its IHi]; simpl; [reflexivity|].
  rewrite renumber_eqb.
  destruct (item_id it =? stock_item st)%Z; simpl; rewrite IHi; reflexivity.
Qed.

Lemma join_rows_renumber (db : DB) :
  join_rows (renumber f db) = map (renumber_row f) (join_rows db).
Proof.
  unfold join_rows, renumber. simpl.
  generalize (items db). intro its.
  induction (stock db) as [|st sts IH]; simpl; [reflexivity|].
  rewrite map_app, IH. f_equal. apply join_item_renumber.
Qed.

Lemma order_leb_renumber (a b : joined) :
  order_leb (renumber_row f a) (renumber_row f b) = order_leb a b.
Proof. reflexivity. Qed.

Lemma insert_row_renumber (r : joined) (l : list joined) :
  insert_row (renumber_row f r) (map (renumber_row f) l)
  = map (renumber_row f) (insert_row r l).
Proof.
  induction l as [|h t IH]; simpl; [reflexivity|].
  rewrite order_leb_renumber.
  destruct (order_leb r h); simpl; [reflexivity|]. rewrite IH. reflexivity.
Qed.

Lemma order_rows_renumber (l : list joined) :
  order_rows (map (renumber_row f) l) = map (renumber_row f) (order_rows l).
Proof.
  induction l as [|r l IH]; simpl; [reflexivity|].
  rewrite IH. apply insert_row_renumber.
Qed.

Lemma context_lines_renumber (rows : list joined) (limit : Z) :
  context_lines (map (renumber_row f) rows) limit = context_lines rows limit.
Proof.
  assert (E : map context_line (py_slice_to (map (renumber_row f) rows) limit)
              = map context_line (py_slice_to rows limit)).
  { unfold py_slice_to. rewrite length_map.
    destruct (0 <=? limit)%Z; rewrite firstn_map, map_map; reflexivity. }
  unfold context_lines. rewrite length_map, E. reflexivity.
Qed.

(** The snapshot text does not depend on the item identifiers. *)
Lemma context_renumber (c : Conn) (limit : Z) :
  fst (build_stock_context (renumber_conn f c) limit)
  = fst (build_stock_context c limit).
Proof.
  unfold build_stock_context, stock_listing, context_text. simpl.
  rewrite join_rows_renumber, order_rows_renumber, context_lines_renumber.
  reflexivity.
Qed.

End Renumbering.

Lemma nocase_cmp_before (a b : str) :
  match nocase_cmp a b with
  | Lt => text_before a b
  | Eq => text_same a b
  | Gt => text_before b a
  end.
Proof.
  unfold nocase_cmp, text_same. revert b.
  induction a as [|x a IH]; intros [|y b]; cbn [nocase map str_cmp].
  - reflexivity.
  - constructor.
  - constructor.
  - destruct (N.compare_spec (nocase_char x) (nocase_char y)) as [E|L|G].
    + specialize (IH b). fold (nocase a) (nocase b) in *.
      destruct (str_cmp (nocase a) (nocase b)).
      * rewrite E, IH. reflexivity.
      * apply before_tail; assumption.
      * apply before_tail; [symmetry|]; assumption.
    + apply before_head. exact L.
    + apply before_head. exact G.
Qed.

Lemma size_cmp_before (a b : option str) :
  match size_cmp a b with
  | Lt => size_before a b
  | Eq => size_same a b
  | Gt => size_before b a
  end.
Proof.
  destruct a as [x|], b as [y|]; cbn [size_cmp size_before size_same];
    try exact I.
  apply nocase_cmp_before.
Qed.

(** The comparison behind the sort is the order of the three keys. *)
Lemma ordered_listed_before (r1 r2 : joined) :
  ordered r1 r2 -> listed_before r1 r2.
Proof.
  unfold ordered, order_leb, order_cmp, listed_before, lex.
  pose proof (nocase_cmp_before (item_name (fst r1)) (item_name (fst r2))) as Hn.
  pose proof (size_cmp_before (item_size (fst r1)) (item_size (fst r2))) as Hs.
  pose proof (nocase_cmp_before (stock_location (snd r1))
                                (stock_location (snd r2))) as Hl.
  destruct (nocase_cmp (item_name (fst r1)) (item_name (fst r2)));
    [|left; exact Hn|discriminate].
  intro E. right. split; [exact Hn|].
  destruct (size_cmp (item_size (fst r1)) (item_size (fst r2)));
    [|left; exact Hs|discriminate].
  right. split; [exact Hs|].
  destruct (nocase_cmp (stock_location (snd r1)) (stock_location (snd r2)));
    [right; exact Hl|left; exact Hl|discriminate].
Qed.

Lemma sorted_listed_before (l : list joined) :
  Sorted ordered l -> Sorted listed_before l.
Proof.
  induction 1 as [|r l S IH Hd]; constructor; [exact IH|].
  destruct Hd as [|r' l' O]; constructor.
  apply ordered_listed_before, O.
Qed.

(** C7.  For a limit that is a row count ([0 <= limit]):
    [build_stock_context] leaves the store as it is, and a second call on
    the connection it returns gives the same text and the same
    connection; the text is the header followed by the first [limit] rows
    (at most [limit] of them) of the join of [stock] with [items], in the
    order of the name, then of the size (NULL first), then of the location
    code, each compared without the letter case of A-Z, one line each, with
    the truncation mark appended exactly when the join has more than
    [limit] rows; and the text is the same for a store whose item
    identifiers are renamed. *)
Theorem context_snapshot (c : Conn) (limit : Z) :
  (0 <= limit)%Z ->
  let rows := stock_listing (working c) in
  let r := build_stock_context c limit in
  (committed (snd r) = committed c /\ working (snd r) = working c
   /\ in_tx (snd r) = in_tx c)
  /\ build_stock_context (snd r) limit = r
  /\ Sorted listed_before rows
  /\ Permutation rows (join_rows (working c))
  /\ fst r = CONTEXT_HEADER
             ++ join [10%N]
                  (map context_line (firstn (Z.to_nat limit) rows)
                   ++ (if (limit <? Z.of_nat (List.length rows))%Z
                       then [TRUNCATION_MARK] else []))
  /\ (List.length (firstn (Z.to_nat limit) rows) <= Z.to_nat limit)%nat
  /\ (forall f : Z -> Z, (forall a b, f a = f b -> a = b) ->
        fst (build_stock_context (renumber_conn f c) limit) = fst r).
Proof.
  intros Hlimit rows r.
  split; [repeat split|].
  split; [reflexivity|].
  split; [apply sorted_listed_before, order_rows_sorted|].
  split; [apply order_rows_perm|].
  split.
  - unfold r, build_stock_context, context_text, context_lines, py_slice_to.
    simpl. fold rows.
    destruct (Z.leb_spec 0 limit); [|lia].
    destruct (limit <? Z.of_nat (List.length rows))%Z;
      [reflexivity|rewrite app_nil_r; reflexivity].
  - split; [apply firstn_le_length|].
    intros f Hf. apply context_renumber; assumption.
Qed.

Lemma context_snapshot_witness :
  fst (build_stock_context listing_conn 3)
  = CONTEXT_HEADER
      ++ join [10%N]
           [utf8 "- anchor, NULL, А1, qty=2"; utf8 "- anchor, M, А1, qty=7";
            utf8 "- anchor, M, Б2, qty=1"; TRUNCATION_MARK]
  /\ fst (build_stock_context
            (renumber_conn (fun i => (i + 100)%Z) listing_conn) 3)
     = fst (build_stock_context listing_conn 3).
Proof.
  destruct (@context_snapshot listing_conn 3 ltac:(lia))
    as (_ & _ & _ & _ & E & _ & R).
  split.
  - rewrite E. vm_compute. reflexivity.
  - apply R. intros a b H. lia.
Defined.

(** With a negative limit Python's slice counts from the end: of two
    rows one is listed, and the mark follows; the rows listed are not at
    most [limit]. *)
Lemma context_negative_limit :
  let c := Connection two_cells_db two_cells_db false false in
  fst (build_stock_context c (-1))
  = CONTEXT_HEADER ++ utf8 "- майка, L, А1, qty=2" ++ [10%N] ++ TRUNCATION_MARK
  /\ ~ (Z.of_nat (List.length (py_slice_to (stock_listing (working c)) (-1)))
        <= -1)%Z.
Proof. split; [vm_compute; reflexivity|]. vm_compute. intro L. apply L. reflexivity. Qed.

(* ------------------------------------------------------------------ *)
(** ** The pipeline: what happens before any execution                 *)
(* ------------------------------------------------------------------ *)

Lemma ask_llm_conn (llm : collaborator) (c : Conn) (user_prompt : str) :
  snd (ask_llm llm c user_prompt)
  = Connection (committed c) (working c) (in_tx c) true.
Proof. reflexivity. Qed.

Section PipelineTheory.
Context `{Unicode}.
Variable exec : engine.
Variable llm : collaborator.

Lemma on_message_prompt (c : Conn) (msg : message) (text : str) :
  is_prompt msg text ->
  on_message exec llm c msg
  = let user_prompt := strip text in
    let username :=
      match msg_username msg with
      | Some n => if nonempty n then n else u "unknown_user"
      | None => u "unknown_user"
      end in
    let pre := [Answer Thinking; AskLlm user_prompt] in
    let c1 := snd (ask_llm llm c user_prompt) in
    match fst (ask_llm llm c user_prompt) with
    | Raised x => Handled pre (Some x) c1
    | Returned (Some (JObj d)) =>
        if truthy (py_get (u "error") d) then
          match py_get (u "error") d with
          | Some (JStr e) =>
              match log_attempt c1 username user_prompt (JStr e) false with
              | (Returned _, c2) =>
                  Handled (pre ++ [Edit (BusinessError e)]) None c2
              | (Raised x, c2) =>
                  Handled (pre ++ [Edit (BusinessError e)]) (Some x) c2
              end
          | _ => Handled pre (Some TypeError) c1
          end
        else
          let sql := py_get (u "sql") d in
          let mode := py_get (u "mode") d in
          let summary := py_get (u "summary") d in
          if negb (truthy sql) then Handled (pre ++ [Edit FormatError]) None c1
          else
            match recognized_mode mode with
            | Raised e => Handled pre (Some e) c1
            | Returned None => Handled (pre ++ [Edit FormatError]) None c1
            | Returned (Some m) =>
                let pre := pre ++ [Validate sql] in
                match sql with
                | Some (JStr script) =>
                    match validate_sql script with
                    | None | Some [] =>
                        Handled (pre ++ [Edit SecurityRejected]) None c1
                    | Some stmts =>
                        execute_and_report exec c1 pre stmts m username summary
                    end
                | _ => Handled pre (Some AttributeError) c1
                end
            end
    | Returned _ => Handled (pre ++ [Edit LlmParseError]) None c1
    end.
Proof.
  intros (Ht & Hn & Hs). unfold on_message. rewrite Ht, Hn, Hs. reflexivity.
Qed.

End PipelineTheory.

(** What the handler does with a prompt whose payload is not a
    business-rule error (it is no dict, or its [error] entry is missing or
    falsy) and whose script is not accepted.  When the payload is no dict,
    or its [sql] entry is missing or falsy, or its [mode] entry is a value
    other than "read" and "write" that can be hashed, the handler answers
    and ends without calling the validator; a [mode] that cannot be hashed
    (a list, a dict) raises [TypeError] before the validator is called; a
    truthy [sql] that is no string reaches the validator, which raises
    [AttributeError]; and when the validator rejects the script, the
    handler ends right after that call.  In each of these cases [run_sql]
    is never called, and both the committed store and the store of the
    connection, [tx_log] included, are what they were. *)
Lemma no_execution_without_validation `{Unicode} (exec : engine)
      (llm : collaborator) (c : Conn) (msg : message) (text : str) :
  is_prompt msg text ->
  let payload := fst (ask_llm llm c (strip text)) in
  let h := on_message exec llm c msg in
  ((forall d, payload <> Returned (Some (JObj d))) ->
     untouched c h /\ existsb is_validate (trace h) = false
     /\ (raised h = None <-> returned payload = true))
  /\ (forall d, payload = Returned (Some (JObj d)) ->
        truthy (py_get (u "error") d) = false ->
        truthy (py_get (u "sql") d) = false
        \/ recognized_mode (py_get (u "mode") d) = Returned None ->
        untouched c h /\ raised h = None
        /\ existsb is_validate (trace h) = false
        /\ trace h = [Answer Thinking; AskLlm (strip text); Edit FormatError])
  /\ (forall d, payload = Returned (Some (JObj d)) ->
        truthy (py_get (u "error") d) = false ->
        truthy (py_get (u "sql") d) = true ->
        recognized_mode (py_get (u "mode") d) = Raised TypeError ->
        untouched c h /\ raised h = Some TypeError
        /\ existsb is_validate (trace h) = false)
  /\ (forall d m, payload = Returned (Some (JObj d)) ->
        truthy (py_get (u "error") d) = false ->
        truthy (py_get (u "sql") d) = true ->
        (forall script, py_get (u "sql") d <> Some (JStr script)) ->
        recognized_mode (py_get (u "mode") d) = Returned (Some m) ->
        untouched c h /\ raised h = Some AttributeError
        /\ trace h = [Answer Thinking; AskLlm (strip text);
                      Validate (py_get (u "sql") d)])
  /\ (forall d script m, payload = Returned (Some (JObj d)) ->
        truthy (py_get (u "error") d) = false ->
        py_get (u "sql") d = Some (JStr script) -> script <> [] ->
        recognized_mode (py_get (u "mode") d) = Returned (Some m) ->
        validate_sql script = None ->
        untouched c h /\ raised h = None
        /\ trace h = [Answer Thinking; AskLlm (strip text);
                      Validate (Some (JStr script)); Edit SecurityRejected]).
Proof.
  intros Hp payload h. unfold h, payload.
  rewrite (@on_message_prompt _ exec llm c msg text Hp). cbv zeta.
  rewrite ask_llm_conn.
  destruct (fst (ask_llm llm c (strip text))) as [[p|]|x].
  3:{ repeat split; intros; try discriminate; try reflexivity. }
  2:{ repeat split; intros; try discriminate; try reflexivity. }
  split; [|split; [|split; [|split]]].
  - intro Hnd. destruct p; try (repeat split; reflexivity).
    exfalso. apply (Hnd l). reflexivity.
  - intros d [= ->] He Hbad. rewrite He.
    destruct Hbad as [Hs|Hm].
    + rewrite Hs. simpl. repeat split; reflexivity.
    + rewrite Hm.
      destruct (truthy (py_get (u "sql") d)); simpl; repeat split; reflexivity.
  - intros d [= ->] He Hs Hm. rewrite He, Hs, Hm. cbn [negb].
    repeat split; reflexivity.
  - intros d m [= ->] He Hs Hns Hm. rewrite He, Hs, Hm. cbn [negb].
    destruct (py_get (u "sql") d) as [[| | |script| |]|];
      try (repeat split; reflexivity).
    elim (Hns script). reflexivity.
  - intros d script m [= ->] He Hs Hne Hm Hv. rewrite He, Hm, Hs.
    destruct script as [|x script]; [congruence|].
    cbn [truthy nonempty negb]. rewrite Hv. repeat split; reflexivity.
Qed.

Lemma no_execution_without_validation_witness :
  untouched demo_conn (on_message reference_engine llm_drop demo_conn demo_msg)
  /\ untouched demo_conn
       (on_message reference_engine llm_bad_mode demo_conn demo_msg).
Proof.
  assert (P : is_prompt demo_msg (utf8 "удали всё"))
    by (repeat split; vm_compute; reflexivity).
  split.
  - destruct (@no_execution_without_validation cyrillic_table reference_engine
                llm_drop demo_conn demo_msg _ P) as (_ & _ & _ & _ & R).
    refine (proj1 (R _ (u "DROP TABLE stock") (u "write") eq_refl _ _ _ _ _));
      try (vm_compute; reflexivity).
    discriminate.
  - destruct (@no_execution_without_validation cyrillic_table reference_engine
                llm_bad_mode demo_conn demo_msg _ P) as (_ & F & _).
    refine (proj1 (F _ eq_refl _ _)).
    + vm_compute; reflexivity.
    + right. vm_compute; reflexivity.
Defined.

(** C8.  The handler at a payload whose [sql] entry is a number and
    whose [mode] is "read": the format check lets it through, the
    validator is called with the number and raises [AttributeError], which
    leaves the handler; the user gets no answer about the format.  Nothing
    is executed and the store is as it was. *)
Theorem non_string_sql_reaches_validator :
  let h := on_message reference_engine llm_number demo_conn demo_msg in
  trace h = [Answer Thinking; AskLlm (utf8 "удали всё");
             Validate (Some (JNum 5))]
  /\ existsb is_validate (trace h) = true
  /\ raised h = Some AttributeError
  /\ untouched demo_conn h.
Proof. vm_compute. repeat split; reflexivity. Qed.

(** A payload that reports a business-rule error carries no script; it
    is answered and logged as a failed attempt, the prompt in place of the
    script and the error text as summary. *)
Example business_error_is_logged :
  let h := on_message reference_engine llm_error demo_conn demo_msg in
  trace h = [Answer Thinking; AskLlm (utf8 "удали всё");
             Edit (BusinessError (utf8 "Недостаточно товара"))]
  /\ tx_log (committed (conn_after h))
     = [Log (u "operator") (utf8 "удали всё")
            (Some (utf8 "Недостаточно товара")) false]
  /\ data (committed (conn_after h)) = data demo_db.
Proof. vm_compute. auto. Qed.

(* ------------------------------------------------------------------ *)
(** ** The quantity invariant                                          *)
(* ------------------------------------------------------------------ *)

Lemma execute_and_report_conn (exec : engine) (c : Conn) (pre : list event)
      (stmts : list str) (mode username : str) (summary : option json) :
  conn_after (execute_and_report exec c pre stmts mode username summary)
  = snd (run_sql exec c stmts mode username
                 (match summary with Some v => v | None => JNull end)).
Proof.
  unfold execute_and_report.
  destruct (run_sql exec c stmts mode username _) as [[rows|[m| | | | |]] c2];
    simpl; try reflexivity.
  destruct (str_eqb mode _); [reflexivity|].
  destruct (truthy summary); [|reflexivity].
  destruct summary as [[| | |s| |]|]; reflexivity.
Qed.

(** C9.  A validated script that puts four units into a cell and then
    sets the quantity of the cell to NULL: [CHECK(qty > 0)] does not
    refuse NULL and the column is not declared [NOT NULL], so the script
    is committed, and the store that is reached from the initialised one
    holds a stock row whose quantity is not greater than 0. *)
Theorem null_quantity_committed :
  let script := [NEW_ITEM; PUT_IN; SET_NULL] in
  let r := run_sql reference_engine (init_db fresh_conn) script (u "write")
                   (u "operator") JNull in
  validate_sql (join (u "; ") script) = Some script
  /\ fst r = Returned []
  /\ stock (committed (snd r)) = [Stock 1 (utf8 "А1") QNull]
  /\ reachable reference_engine (snd r)
  /\ ~ stock_positive (committed (snd r)).
Proof.
  cbv zeta.
  assert (V : validate_sql (join (u "; ") [NEW_ITEM; PUT_IN; SET_NULL])
              = Some [NEW_ITEM; PUT_IN; SET_NULL]) by (vm_compute; reflexivity).
  assert (S : stock (committed
                       (snd (run_sql reference_engine (init_db fresh_conn)
                                     [NEW_ITEM; PUT_IN; SET_NULL] (u "write")
                                     (u "operator") JNull)))
              = [Stock 1 (utf8 "А1") QNull]) by (vm_compute; reflexivity).
  split; [exact V|]. split; [vm_compute; reflexivity|].
  split; [exact S|]. split.
  - apply (@reach_run_sql cyrillic_table reference_engine (init_db fresh_conn)
             _ [NEW_ITEM; PUT_IN; SET_NULL] (u "write") (u "operator") JNull
             (reach_init _) V).
  - unfold stock_positive. rewrite S. intro F.
    inversion F as [|r l P _]; subst. exact P.
Qed.

(* ================================================================== *)
(** * Further properties of the code                                   *)
(* ================================================================== *)

(* ------------------------------------------------------------------ *)
(** ** [init_db]                                                       *)
(* ------------------------------------------------------------------ *)

Lemma str_eqb_eq (a b : str) : str_eqb a b = true <-> a = b.
Proof.
  unfold str_eqb. destruct (list_eq_dec N.eq_dec a b); split; auto; discriminate.
Qed.

Lemma nocase_eqb_refl (a : str) : nocase_eqb a a = true.
Proof. apply str_eqb_eq. reflexivity. Qed.

Lemma insert_location_keeps (x code : str) (locs : list str) :
  existsb (nocase_eqb x) locs = true ->
  existsb (nocase_eqb x) (insert_location locs code) = true.
Proof.
  intro E. unfold insert_location.
  destruct (existsb (nocase_eqb code) locs); [assumption|].
  rewrite existsb_app, E. reflexivity.
Qed.

Lemma insert_location_adds (code : str) (locs : list str) :
  existsb (nocase_eqb code) (insert_location locs code) = true.
Proof.
  unfold insert_location.
  destruct (existsb (nocase_eqb code) locs) eqn:E; [assumption|].
  rewrite existsb_app. simpl. rewrite nocase_eqb_refl, orb_true_r. reflexivity.
Qed.

Lemma seed_keeps (x : str) (seed : list str) : forall locs,
  existsb (nocase_eqb x) locs = true ->
  existsb (nocase_eqb x) (fold_left insert_location seed locs) = true.
Proof.
  induction seed as [|c seed IH]; intros locs E; simpl; [assumption|].
  apply IH, insert_location_keeps, E.
Qed.

Lemma seed_present (seed : list str) : forall locs code,
  In code seed ->
  existsb (nocase_eqb code) (fold_left insert_location seed locs) = true.
Proof.
  induction seed as [|c seed IH]; intros locs code Hin; simpl; [destruct Hin|].
  destruct Hin as [<-|Hin].
  - apply seed_keeps, insert_location_adds.
  - apply IH, Hin.
Qed.

Lemma seed_nothing_new (seed : list str) : forall locs,
  (forall code, In code seed -> existsb (nocase_eqb code) locs = true) ->
  fold_left insert_location seed locs = locs.
Proof.
  induction seed as [|c seed IH]; intros locs Hall; simpl; [reflexivity|].
  unfold insert_location at 2. rewrite (Hall c (or_introl eq_refl)).
  apply IH. intros code Hin. apply Hall. right. assumption.
Qed.

Lemma seed_extends (seed : list str) : forall locs,
  exists added,
    fold_left insert_location seed locs = locs ++ added
    /\ incl added seed.
Proof.
  induction seed as [|c seed IH]; intros locs; simpl.
  - exists []. rewrite app_nil_r. split; [reflexivity|intros x []].
  - destruct (IH (insert_location locs c)) as (added & E & I).
    unfold insert_location in E |- *.
    destruct (existsb (nocase_eqb c) locs).
    + exists added. split; [assumption|]. intros x Hx. right. apply I, Hx.
    + exists (c :: added). rewrite E, <- app_assoc. split; [reflexivity|].
      intros x [<-|Hx]; [left; reflexivity|right; apply I, Hx].
Qed.

(** X1.  Initialising twice is initialising once: a restart on a store
    that [init_db] has already set up changes nothing, no cell is seeded
    a second time. *)
Theorem init_db_idempotent (c : Conn) : init_db (init_db c) = init_db c.
Proof.
  unfold init_db, commit, set_working, with_locations.
  cbn [working committed in_tx row_factory items locations stock tx_log].
  rewrite (seed_nothing_new location_seed
             (fold_left insert_location location_seed (locations (working c)))).
  - reflexivity.
  - intros code Hin. apply seed_present, Hin.
Qed.

(** X2.  [init_db] commits the connection; it keeps the items, the stock
    and the log, keeps the cells it finds, in order, and adds behind them
    only cells of the seed; afterwards every seeded cell is present.  On
    an empty store the cells are the sixty of the seed. *)
Theorem init_db_seeds (c : Conn) :
  let c' := init_db c in
  idle c'
  /\ items (committed c') = items (working c)
  /\ stock (committed c') = stock (working c)
  /\ tx_log (committed c') = tx_log (working c)
  /\ (exists added,
        locations (committed c') = locations (working c) ++ added
        /\ incl added location_seed)
  /\ (forall code, In code location_seed ->
        existsb (nocase_eqb code) (locations (committed c')) = true)
  /\ (locations (working c) = [] ->
      locations (committed c') = location_seed
      /\ List.length (locations (committed c')) = 60%nat).
Proof.
  cbv zeta. unfold init_db, commit, set_working, with_locations.
  cbn [working committed in_tx row_factory items locations stock tx_log].
  split; [split; reflexivity|]. repeat split; try reflexivity.
  - apply seed_extends.
  - intros code Hin. apply seed_present, Hin.
  - rewrite H. vm_compute. reflexivity.
  - rewrite H. vm_compute. reflexivity.
Qed.

Lemma init_db_seeds_witness :
  locations (committed (init_db fresh_conn)) = location_seed
  /\ existsb (nocase_eqb (utf8 "Е10"))
       (locations (committed (init_db demo_conn))) = true.
Proof.
  split.
  - destruct (init_db_seeds fresh_conn) as (_ & _ & _ & _ & _ & _ & F).
    apply F. reflexivity.
  - destruct (init_db_seeds demo_conn) as (_ & _ & _ & _ & _ & P & _).
    apply P. vm_compute. do 59 right. left. reflexivity.
Defined.

(* ------------------------------------------------------------------ *)
(** ** [validate_sql]: how scripts split, and what is let through      *)
(* ------------------------------------------------------------------ *)

Unset Implicit Arguments.

Lemma split_nonempty (sep : char) (s : str) : split sep s <> [].
Proof.
  destruct s as [|c r]; simpl; [discriminate|].
  destruct (c =? sep)%N; [discriminate|].
  destruct (split sep r); discriminate.
Qed.

Lemma split_app (sep : char) (a b : str) :
  split sep (a ++ sep :: b) = split sep a ++ split sep b.
Proof.
  induction a as [|c a IH]; simpl.
  - rewrite N.eqb_refl. reflexivity.
  - destruct (c =? sep)%N.
    + rewrite IH. reflexivity.
    + rewrite IH. pose proof (split_nonempty sep a) as Hne.
      destruct (split sep a) as [|h t]; [contradiction|reflexivity].
Qed.

Lemma split_no_separator (sep : char) (s : str) :
  ~ In sep s -> split sep s = [s].
Proof.
  induction s as [|c r IH]; simpl; intro Hno; [reflexivity|].
  destruct (N.eqb_spec c sep) as [->|Hne]; [exfalso; apply Hno; auto|].
  rewrite IH; [reflexivity|]. intro Hin. apply Hno. auto.
Qed.

Lemma statements_app (a b : str) :
  statements (a ++ 59%N :: b) = statements a ++ statements b.
Proof.
  unfold statements. rewrite split_app, filter_app, map_app. reflexivity.
Qed.

Lemma statements_nil : statements [] = [].
Proof. reflexivity. Qed.

Lemma strip_leading_space (c : char) (s : str) :
  is_space c = true -> strip (c :: s) = strip s.
Proof. intro E. unfold strip. simpl. rewrite E. reflexivity. Qed.

Lemma statements_leading_space (c : char) (s : str) :
  is_space c = true -> statements (c :: s) = statements s.
Proof.
  intro E. unfold statements. simpl.
  destruct (N.eqb_spec c 59) as [->|_]; [discriminate E|].
  pose proof (split_nonempty 59%N s) as Hne.
  destruct (split 59%N s) as [|h t]; [contradiction|].
  simpl. rewrite (strip_leading_space c h E).
  destruct (nonempty (strip h)); simpl; [rewrite (strip_leading_space c h E)|];
    reflexivity.
Qed.

Lemma statements_single (s : str) :
  s <> [] -> strip s = s -> ~ In 59%N s -> statements s = [s].
Proof.
  intros Hne Hs Hno. unfold statements.
  rewrite (split_no_separator 59%N s Hno). simpl. rewrite Hs.
  destruct s; [contradiction|]. simpl. rewrite Hs. reflexivity.
Qed.

(** The statements of the joined script are the statements joined. *)
Lemma statements_join (stmts : list str) :
  Forall (fun s => s <> [] /\ strip s = s /\ ~ In 59%N s) stmts ->
  statements (join (u "; ") stmts) = stmts.
Proof.
  induction 1 as [|s rest (Hne & Hs & Hno) Hrest IH]; [reflexivity|].
  destruct rest as [|t rest].
  - simpl. apply statements_single; assumption.
  - change (join (u "; ") (s :: t :: rest))
      with (s ++ 59%N :: 32%N :: join (u "; ") (t :: rest)).
    rewrite statements_app, statements_single by assumption.
    rewrite statements_leading_space by reflexivity.
    rewrite IH. reflexivity.
Qed.

(** X3.  Splitting composes: the statements of two scripts put together
    with a ';' are the statements of the first followed by those of the
    second; so a ';' at the end of a script, or at its start, changes
    nothing for the validator. *)
Theorem statements_compose `{Unicode} (a b : str) :
  statements (a ++ u ";" ++ b) = statements a ++ statements b
  /\ validate_sql (a ++ u ";") = validate_sql a
  /\ validate_sql (u ";" ++ a) = validate_sql a.
Proof.
  split; [apply statements_app|]. unfold validate_sql. split.
  - change (a ++ u ";") with (a ++ 59%N :: []).
    rewrite statements_app, statements_nil, app_nil_r. reflexivity.
  - change (u ";" ++ a) with ([] ++ 59%N :: a).
    rewrite statements_app, statements_nil. reflexivity.
Qed.

(** X4.  What the validator returns validates again to itself: the
    statements joined by [; ] (the text that [run_sql] logs) are accepted
    and split into the same statements. *)
Theorem validate_sql_joined `{Unicode} (sql : str) (stmts : list str) :
  validate_sql sql = Some stmts ->
  validate_sql (join (u "; ") stmts) = Some stmts.
Proof.
  intro E. pose proof (validate_sql_some _ E) as (Es & Hlen & Hc).
  assert (J : statements (join (u "; ") stmts) = stmts).
  { apply statements_join. apply Forall_forall. intros s Hin.
    rewrite Es in Hin.
    destruct (statements_spec _ _ Hin) as (A & B & C & _). auto. }
  unfold validate_sql. rewrite J.
  destruct (Nat.leb_spec 1 (List.length stmts)); [|lia].
  destruct (Nat.leb_spec (List.length stmts) 6); [|lia].
  simpl. rewrite Hc. reflexivity.
Qed.

Lemma validate_sql_joined_witness :
  validate_sql (join (u "; ") [u "SELECT 1"; u "UPDATE t SET a = 1"])
  = Some [u "SELECT 1"; u "UPDATE t SET a = 1"].
Proof.
  apply (@validate_sql_joined cyrillic_table
           (u " SELECT 1 ;; UPDATE t SET a = 1 ; ")).
  vm_compute. reflexivity.
Defined.

Section AcceptanceTheory.
Context `{Unicode}.

Lemma star_space_maximal : forall (s : str) (o : option char) (q : cursor),
  Matches (Star Space) (o, s) q ->
  match snd q with c :: _ => is_space c = false | [] => True end ->
  q = spaces o s.
Proof.
  induction s as [|c r IH]; intros o q M Hq.
  - inversion M as [| | | | | | | | | |a p|a p m t Ms Mr]; subst.
    + reflexivity.
    + inversion Ms.
  - inversion M as [| | | | | | | | | |a p|a p m t Ms Mr]; subst.
    + simpl in Hq |- *. rewrite Hq. reflexivity.
    + inversion Ms; subst. simpl.
      match goal with E : is_space c = true |- _ => rewrite E end.
      apply IH; assumption.
Qed.

(** White space before a keyword is read to its end. *)
Lemma plus_space_keyword (p q q' : cursor) (c : char) (w : str) :
  Matches (Plus Space) p q ->
  ci_eat (c :: w) q = Some q' ->
  is_space (fold_ci c) = false ->
  spaces1 p = Some q.
Proof.
  unfold Plus. intros M E Hc.
  inversion M as [| | | | | | |a b p0 m t Ms Mr| | | |]; subst.
  inversion Ms; subst. unfold spaces1. simpl.
  match goal with E : is_space _ = true |- _ => rewrite E end.
  f_equal. symmetry. apply star_space_maximal; [assumption|].
  destruct q as [o' [|y r']]; simpl in *; [trivial|].
  destruct (lit_ci c y) eqn:L; [|discriminate].
  apply (lit_ci_not_space c y L Hc).
Qed.

(** The pattern [^\s*DELETE\s+FROM\s+<table>\b] on a statement says what
    the scanner says (for the two tables of the source). *)
Lemma delete_from_sound (table : string) (c : char) (w : str) (x : char)
      (r : str) :
  u table = c :: w -> is_space (fold_ci c) = false ->
  is_space x = false ->
  re_match (DELETE_FROM table) (x :: r) = true ->
  begins_delete_from (u table) (x :: r) = true.
Proof.
  intros Et Hc Hx M. apply re_match_spec in M. destruct M as [q M].
  unfold DELETE_FROM in M. split_match.
  match goal with M : Matches (Star Space) _ _ |- _ =>
    apply (star_space_stuck Hx) in M; subst end.
  unfold begins_delete_from, obind.
  match goal with E : ci_eat (u "DELETE") _ = Some _ |- _ => rewrite E end.
  match goal with
    M : Matches (Plus Space) ?p ?q, E : ci_eat (u "FROM") ?q = Some _ |- _ =>
      rewrite (plus_space_keyword p q _ 70%N (u "ROM") M E eq_refl), E
  end.
  rewrite Et in *.
  match goal with
    M : Matches (Plus Space) ?p ?q, E : ci_eat (c :: w) ?q = Some _ |- _ =>
      rewrite (plus_space_keyword p q _ c w M E Hc), E
  end.
  assumption.
Qed.

Lemma forbidden_sound (x : char) (r : str) :
  is_space x = false ->
  re_match FORBIDDEN_PATTERN (x :: r) = true ->
  exists kw, In kw DENYLIST /\ ci_starts (u kw) (x :: r) = true.
Proof.
  intros Hx M. apply re_match_spec in M. destruct M as [q M].
  unfold FORBIDDEN_PATTERN in M. split_match;
    match goal with M : Matches (Star Space) _ _ |- _ =>
      apply (star_space_stuck Hx) in M; subst end;
    match goal with E : ci_eat (u ?k) _ = Some _ |- _ =>
      exists k; split; [simpl; tauto|unfold ci_starts; rewrite E; reflexivity]
    end.
Qed.

Lemma begins_word_starts (w s : str) :
  begins_word w s = true -> ci_starts w s = true.
Proof.
  unfold begins_word, ci_starts.
  destruct (ci_eat w (None, s)); [reflexivity|discriminate].
Qed.

Lemma begins_delete_from_starts (tbl s : str) :
  begins_delete_from tbl s = true -> ci_starts (u "DELETE") s = true.
Proof.
  unfold begins_delete_from, ci_starts, obind.
  destruct (ci_eat (u "DELETE") (None, s)); [reflexivity|discriminate].
Qed.

Lemma safe_complete (k : string) (s : str) :
  In k VERB_NAMES -> begins_word (u k) s = true ->
  re_match SAFE_SQL_PATTERN s = true.
Proof.
  intros Hk B. unfold begins_word in B.
  destruct (ci_eat (u k) (None, s)) as [q|] eqn:E; [|discriminate].
  apply re_match_spec. exists q. unfold SAFE_SQL_PATTERN.
  apply M_Cat with (q := (None, s)); [apply M_Bol|].
  apply M_Cat with (q := (None, s)); [apply M_Star0|].
  apply M_Cat with (q := q); [|apply M_Wordb; assumption].
  apply M_AltR. unfold VERBS, Kw. apply lits_spec in E.
  simpl in Hk. destruct Hk as [<-|[<-|[<-|[<-|[]]]]].
  - apply M_AltL. exact E.
  - apply M_AltR, M_AltL. exact E.
  - apply M_AltR, M_AltR, M_AltL. exact E.
  - apply M_AltR, M_AltR, M_AltR. exact E.
Qed.

Lemma check_stmts_intro (stmts : list str) :
  (forall s, In s stmts ->
     re_match FORBIDDEN_PATTERN s = false
     /\ re_match SAFE_SQL_PATTERN s = true
     /\ re_match DELETE_STOCK s = false
     /\ re_match DELETE_ITEMS s = false) ->
  check_stmts stmts = true.
Proof.
  induction stmts as [|s rest IH]; intro Hall; simpl; [reflexivity|].
  destruct (Hall s (or_introl eq_refl)) as (F & S & D & I).
  rewrite F, S, D, I. simpl. apply IH. intros t Ht. apply Hall. right. exact Ht.
Qed.

(** A statement that begins with the verb [k] does not begin with a word
    that disagrees with [k]. *)
Lemma verb_excludes (k w : str) (s : str) :
  begins_word k s = true -> ci_agree w k = false -> ci_starts w s = false.
Proof.
  intros B A. destruct (ci_starts w s) eqn:E; [|reflexivity].
  rewrite (ci_starts_agree w k s E (begins_word_starts k s B)) in A.
  discriminate A.
Qed.

Lemma unprotected_passes (x : char) (r : str) :
  is_space x = false ->
  unprotected (x :: r) = true ->
  re_match FORBIDDEN_PATTERN (x :: r) = false
  /\ re_match SAFE_SQL_PATTERN (x :: r) = true
  /\ re_match DELETE_STOCK (x :: r) = false
  /\ re_match DELETE_ITEMS (x :: r) = false.
Proof.
  intros Hx U. unfold unprotected in U.
  assert (V : exists k, In k VERB_NAMES /\ begins_word (u k) (x :: r) = true
              /\ (k <> "DELETE"%string
                  \/ (begins_delete_from (u "stock") (x :: r) = false
                      /\ begins_delete_from (u "items") (x :: r) = false))).
  { apply orb_true_iff in U. destruct U as [U|U].
    - apply orb_true_iff in U. destruct U as [U|U].
      + apply orb_true_iff in U. destruct U as [U|U].
        * exists "SELECT"%string. simpl. repeat split; auto. left. discriminate.
        * exists "INSERT"%string. simpl. repeat split; auto. left. discriminate.
      + exists "UPDATE"%string. simpl. repeat split; auto. left. discriminate.
    - apply andb_true_iff in U. destruct U as [U I].
      apply andb_true_iff in U. destruct U as [U S].
      apply negb_true_iff in S, I.
      exists "DELETE"%string. simpl. repeat split; auto. }
  destruct V as (k & Hk & B & Hdel).
  split; [|split; [apply (safe_complete k); assumption|]].
  - destruct (re_match FORBIDDEN_PATTERN (x :: r)) eqn:F; [|reflexivity].
    destruct (forbidden_sound x r Hx F) as (kw & Hkw & E).
    assert (A : ci_agree (u kw) (u k) = false).
    { simpl in Hkw, Hk.
      destruct Hkw as [<-|[<-|[<-|[<-|[<-|[<-|[]]]]]]];
        destruct Hk as [<-|[<-|[<-|[<-|[]]]]]; reflexivity. }
    rewrite (verb_excludes (u k) (u kw) (x :: r) B A) in E. discriminate E.
  - assert (D : forall table c w,
               (table = "stock"%string \/ table = "items"%string) ->
               u table = c :: w -> is_space (fold_ci c) = false ->
               re_match (DELETE_FROM table) (x :: r) = false).
    { intros table c w Ht Et Hc.
      destruct (re_match (DELETE_FROM table) (x :: r)) eqn:M; [|reflexivity].
      pose proof (delete_from_sound table c w x r Et Hc Hx M) as Bd.
      destruct Hdel as [Hne|[Hs Hi]].
      - pose proof (begins_delete_from_starts _ _ Bd) as Sd.
        assert (A : ci_agree (u "DELETE") (u k) = false).
        { simpl in Hk. destruct Hk as [<-|[<-|[<-|[<-|[]]]]];
            try reflexivity. congruence. }
        rewrite (verb_excludes (u k) (u "DELETE") (x :: r) B A) in Sd.
        discriminate Sd.
      - destruct Ht as [-> | ->]; congruence. }
    split.
    + apply (D "stock"%string 115%N (u "tock")); auto.
    + apply (D "items"%string 105%N (u "tems")); auto.
Qed.

End AcceptanceTheory.

(** X5.  The validator lets through every script of one to six
    statements each of which begins with SELECT, INSERT or UPDATE as a
    whole word, whatever table it names, or with DELETE as a whole word
    but not with DELETE FROM stock or DELETE FROM items: only deletes that
    begin with these two forms are looked at more closely. *)
Theorem unprotected_script_accepted `{Unicode} (sql : str) :
  (1 <= List.length (statements sql) <= 6)%nat ->
  forallb unprotected (statements sql) = true ->
  validate_sql sql = Some (statements sql).
Proof.
  intros Hlen Hall. unfold validate_sql.
  destruct (Nat.leb_spec 1 (List.length (statements sql))); [|lia].
  destruct (Nat.leb_spec (List.length (statements sql)) 6); [|lia].
  simpl. rewrite check_stmts_intro; [reflexivity|].
  intros s Hin. rewrite forallb_forall in Hall.
  destruct (statements_spec sql s Hin) as (_ & _ & _ & x & r & -> & Hx).
  apply unprotected_passes; [assumption|]. apply Hall, Hin.
Qed.

Lemma unprotected_script_accepted_witness :
  validate_sql (u "DELETE FROM tx_log; UPDATE stock SET qty = qty + 100; delete from locations")
  = Some [u "DELETE FROM tx_log"; u "UPDATE stock SET qty = qty + 100";
          u "delete from locations"].
Proof.
  apply (@unprotected_script_accepted cyrillic_table
           (u "DELETE FROM tx_log; UPDATE stock SET qty = qty + 100; delete from locations")).
  - vm_compute. lia.
  - vm_compute. reflexivity.
Defined.

(* ------------------------------------------------------------------ *)
(** ** [run_sql]: success, failure, and the state of the connection    *)
(* ------------------------------------------------------------------ *)

Lemma py_dicts_rows (rows : list row) :
  exists ds,
    py_dicts true rows = Returned ds /\ List.length ds = List.length rows.
Proof.
  induction rows as [|r rest [ds [E L]]]; cbn [py_dicts].
  - exists []. split; reflexivity.
  - unfold py_dict at 1. rewrite E. eexists. split; [reflexivity|].
    cbn [List.length]. rewrite L. reflexivity.
Qed.

Lemma set_working_same (c : Conn) : set_working c (working c) = c.
Proof. destruct c; reflexivity. Qed.

(** The loop over a run of statements that all succeed. *)
Lemma run_stmts_prefix (exec : engine) (mode : str) (rest : list str) :
  forall (pre : list str) (c : Conn) (res : list row) (db1 : DB),
    str_eqb mode (u "read") = false \/ row_factory c = true ->
    forallb encodable pre = true ->
    apply_all exec (working c) pre = Some db1 ->
    exists res',
      run_stmts exec c (pre ++ rest) mode res
      = run_stmts exec (set_working c db1) rest mode res'
      /\ (str_eqb mode (u "read") = false -> res' = res).
Proof.
  induction pre as [|s pre IH]; intros c res db1 Hm He Ha; simpl in Ha.
  - injection Ha as <-. rewrite set_working_same. exists res. auto.
  - cbn [app run_stmts]. cbn [forallb] in He.
    apply andb_true_iff in He. destruct He as [Es He]. rewrite Es.
    destruct (exec s (working c)) as [db' rows|msg db'|msg]; try discriminate.
    assert (Hm' : str_eqb mode (u "read") = false
                  \/ row_factory (set_working c db') = true) by exact Hm.
    destruct (str_eqb mode (u "read")) eqn:Er.
    + destruct Hm as [Hm|Hm]; [discriminate|]. rewrite Hm.
      destruct (py_dicts_rows rows) as (ds & -> & _).
      destruct (IH (set_working c db') ds db1 Hm' He Ha) as (res' & E & _).
      exists res'. split; [exact E|discriminate].
    + destruct (IH (set_working c db') res db1 Hm' He Ha) as (res' & E & Hr).
      exists res'. split; [exact E|exact Hr].
Qed.








(** X8.  [run_sql] in mode "read" on a connection whose rows are
    [aiosqlite.Row], with a user, statements and a summary that
    [sqlite3] can bind: of a script whose statements all succeed only the
    rows of the last statement are returned, one dictionary for each row;
    and whatever the statements wrote is committed as in any other mode,
    with an audit row flagged as a success. *)
Theorem run_sql_read_last (exec : engine) (c : Conn) (pre : list str)
        (s user : str) (summary : option str) (db1 db2 : DB)
        (rows : list row) :
  encodable user = true -> forallb encodable (pre ++ [s]) = true ->
  bindable summary = true ->
  in_tx c = false -> row_factory c = true ->
  apply_all exec (working c) pre = Some db1 ->
  exec s db1 = Done db2 rows ->
  let r := run_sql exec c (pre ++ [s]) (u "read") user (py_opt_str summary) in
  exists res,
    py_dicts true rows = Returned res
    /\ List.length res = List.length rows
    /\ fst r = Returned res
    /\ committed (snd r)
       = log_append db2 (Log user (join (u "; ") (pre ++ [s])) summary true).
Proof.
  intros Eu Es Eb Htx Hrf Ha Hs r. subst r.
  rewrite (@run_sql_commits exec c (pre ++ [s]) (u "read") user summary
             Eu Es Eb).
  rewrite forallb_app in Es. apply andb_true_iff in Es.
  destruct Es as [Epre Es]. cbn [forallb] in Es.
  apply andb_true_iff in Es. destruct Es as [Es _].
  unfold run_try, begin. rewrite Htx.
  destruct (run_stmts_prefix exec (u "read") [s] pre
              (Connection (committed c) (working c) true (row_factory c))
              [] db1 (or_intror Hrf) Epre Ha) as (res0 & -> & _).
  cbn [run_stmts set_working working committed in_tx row_factory].
  rewrite Es, Hs, Hrf.
  destruct (py_dicts_rows rows) as (ds & E & L). rewrite E.
  exists ds. cbn. repeat split; assumption.
Qed.

Lemma run_sql_read_last_witness :
  fst (run_sql reference_engine demo_conn_rows [PUT_IN; READ_QTY] (u "read")
               (u "operator") (py_opt_str None))
  = Returned [[(u "qty", VInt 6)]].
Proof.
  destruct (run_sql_read_last reference_engine demo_conn_rows [PUT_IN]
              READ_QTY (u "operator") None
              (Store [Item 1 (utf8 "майка") (Some (u "L"))] location_seed
                     [Stock 1 (utf8 "А1") 6] [])
              (Store [Item 1 (utf8 "майка") (Some (u "L"))] location_seed
                     [Stock 1 (utf8 "А1") 6] [])
              [[(u "qty", VInt 6)]]
              eq_refl ltac:(vm_compute; reflexivity) eq_refl
              eq_refl eq_refl ltac:(vm_compute; reflexivity)
              ltac:(vm_compute; reflexivity)) as (res & E & _ & R & _).
  cbn [app] in R. rewrite R. f_equal.
  vm_compute in E. injection E as <-. reflexivity.
Defined.

(** X9.  [run_sql] called while a transaction is open on the shared
    connection, with a user, statements and a summary that [sqlite3] can
    bind: BEGIN is refused, no statement is run, the call raises; and the
    [finally] block commits what the open transaction had written, with
    an audit row flagged as a failure. *)
Theorem run_sql_inside_transaction (exec : engine) (c : Conn)
        (stmts : list str) (mode user : str) (summary : option str) :
  encodable user = true -> forallb encodable stmts = true ->
  bindable summary = true ->
  in_tx c = true ->
  let r := run_sql exec c stmts mode user (py_opt_str summary) in
  fst r = Raised (DatabaseError
                    (u "cannot start a transaction within a transaction"))
  /\ committed (snd r)
     = log_append (working c) (Log user (join (u "; ") stmts) summary false)
  /\ idle (snd r).
Proof.
  intros Eu Es Eb Htx r. subst r.
  rewrite (@run_sql_commits exec c stmts mode user summary Eu Es Eb).
  unfold run_try, begin. rewrite Htx. cbn. repeat split; reflexivity.
Qed.

Lemma run_sql_inside_transaction_witness :
  stock (committed
           (snd (run_sql reference_engine
                         (Connection demo_db (with_stock demo_db []) true false)
                         [PUT_IN] (u "write") (u "operator") (py_opt_str None))))
  = [].
Proof.
  destruct (run_sql_inside_transaction reference_engine
              (Connection demo_db (with_stock demo_db []) true false)
              [PUT_IN] (u "write") (u "operator") None
              eq_refl ltac:(vm_compute; reflexivity) eq_refl eq_refl)
    as (_ & C & _).
  rewrite C. reflexivity.
Defined.




Lemma run_stmts_raises (exec : engine) (mode : str) :
  forall (stmts : list str) (c c1 : Conn) (res : list row) (e : exn),
    row_factory c = true -> forallb encodable stmts = true ->
    run_stmts exec c stmts mode res = (Raised e, c1) ->
    exists msg, e = DatabaseError msg.
Proof.
  induction stmts as [|s rest IH]; intros c c1 res e Hrf Es E;
    cbn [run_stmts] in E.
  - discriminate.
  - cbn [forallb] in Es. apply andb_true_iff in Es.
    destruct Es as [Es Er]. rewrite Es in E.
    destruct (exec s (working c)) as [db' rows|msg db'|msg].
    + assert (Hrf' : row_factory (set_working c db') = true) by exact Hrf.
      destruct (str_eqb mode (u "read")).
      * rewrite Hrf in E. destruct (py_dicts_rows rows) as (ds & D & _).
        rewrite D in E. apply (IH _ _ _ _ Hrf' Er E).
      * apply (IH _ _ _ _ Hrf' Er E).
    + injection E as <- _. eexists. reflexivity.
    + injection E as <- _. eexists. reflexivity.
Qed.

(** On a connection whose rows are [aiosqlite.Row] (as
    [build_stock_context] leaves it), with a user and statements that can
    be encoded and a summary whose binding raises at most a database
    error, [run_sql] raises nothing but database errors. *)
Lemma run_sql_raises (exec : engine) (c : Conn)
      (stmts : list str) (mode user : str) (summary : json) (e : exn) :
  row_factory c = true ->
  encodable user = true -> forallb encodable stmts = true ->
  (forall x, bind_text summary = Raised x -> exists msg, x = DatabaseError msg) ->
  fst (run_sql exec c stmts mode user summary) = Raised e ->
  exists msg, e = DatabaseError msg.
Proof.
  intros Hrf Eu Es Hb. unfold run_sql, run_try, begin, log_attempt, bind_params.
  rewrite Eu, (@encodable_join stmts Es).
  destruct (in_tx c).
  - destruct (bind_text summary) as [sm|x]; cbn [fst].
    + intros [= <-]. eexists. reflexivity.
    + intros [= <-]. apply Hb. reflexivity.
  - destruct (run_stmts exec _ stmts mode []) as [[res|e1] c1] eqn:R.
    + destruct (bind_text summary) as [sm|x]; cbn [fst]; [discriminate|].
      intros [= <-]. apply Hb. reflexivity.
    + destruct (run_stmts_raises exec mode stmts
                  (Connection (committed c) (working c) true (row_factory c))
                  c1 [] e1 Hrf Es R) as (m & ->).
      destruct (bind_text summary) as [sm|x]; cbn [fst].
      * intros [= <-]. eexists. reflexivity.
      * intros [= <-]. apply Hb. reflexivity.
Qed.

(* ------------------------------------------------------------------ *)
(** ** [on_message]: the ways a message is handled                     *)
(* ------------------------------------------------------------------ *)

Lemma recognized_mode_some (mode : option json) (m : str) :
  recognized_mode mode = Returned (Some m) ->
  mode = Some (JStr m) /\ (m = u "read" \/ m = u "write").
Proof.
  destruct mode as [[| | |s| |]|]; cbn [recognized_mode]; try discriminate.
  destruct (str_eqb s (u "read")) eqn:R; cbn [orb].
  - intros [= <-]. apply str_eqb_eq in R. auto.
  - destruct (str_eqb s (u "write")) eqn:W; [|discriminate].
    intros [= <-]. apply str_eqb_eq in W. auto.
Qed.

Lemma recognized_mode_raises (mode : option json) (e : exn) :
  recognized_mode mode = Raised e -> e = TypeError /\ is_text mode = false.
Proof.
  destruct mode as [[| | |s| |]|]; cbn [recognized_mode]; try discriminate;
    intros [= <-]; split; reflexivity.
Qed.

(** The ways in which the tail of the handler ends. *)
Lemma execute_and_report_cases (exec : engine) (c : Conn) (pre : list event)
      (stmts : list str) (m username : str) (summary : option json) :
  let r := run_sql exec c stmts m username
                   (match summary with Some v => v | None => JNull end) in
  let pre' := pre ++ [Edit Executing; RunSql stmts m] in
  let h := execute_and_report exec c pre stmts m username summary in
  conn_after h = snd r
  /\ ((exists msg, fst r = Raised (DatabaseError msg)
         /\ trace h = pre' ++ [Edit (DatabaseFailure msg)] /\ raised h = None)
      \/ (exists e, fst r = Raised e /\ (forall msg, e <> DatabaseError msg)
            /\ trace h = pre' /\ raised h = Some e)
      \/ (exists rows, fst r = Returned rows
            /\ ((str_eqb m (u "read") = true
                 /\ trace h = pre' ++ [Edit (ReadResult rows)]
                 /\ raised h = None)
                \/ (str_eqb m (u "read") = false
                    /\ exists s, summary = Some (JStr s) /\ s <> []
                       /\ trace h = pre' ++ [Edit (WriteDone (Some s))]
                       /\ raised h = None)
                \/ (str_eqb m (u "read") = false /\ truthy summary = false
                    /\ trace h = pre' ++ [Edit (WriteDone None)]
                    /\ raised h = None)
                \/ (str_eqb m (u "read") = false /\ truthy summary = true
                    /\ is_text summary = false
                    /\ trace h = pre' /\ raised h = Some TypeError)))).
Proof.
  cbv zeta. unfold execute_and_report.
  destruct (run_sql exec c stmts m username _) as [[rows|[msg| | | | |]] c2];
    cbn [fst snd];
    try (split; [reflexivity|]; right; left; eexists;
         split; [reflexivity|]; split; [discriminate|];
         split; reflexivity).
  - destruct (str_eqb m (u "read")) eqn:R.
    + split; [reflexivity|]. right; right. exists rows.
      split; [reflexivity|]. left. auto.
    + destruct summary as [[|b|z|s|l|l]|]; cbn [truthy].
      * split; [reflexivity|]. right; right. exists rows.
        split; [reflexivity|]. right; right; left. auto.
      * destruct b; (split; [reflexivity|]); right; right; exists rows;
          (split; [reflexivity|]).
        -- right; right; right. auto.
        -- right; right; left. auto.
      * destruct (z =? 0)%Z; cbn [negb]; (split; [reflexivity|]);
          right; right; exists rows; (split; [reflexivity|]).
        -- right; right; left. auto.
        -- right; right; right. auto.
      * destruct s as [|x s]; cbn [nonempty]; (split; [reflexivity|]);
          right; right; exists rows; (split; [reflexivity|]).
        -- right; right; left. auto.
        -- right; left. split; [reflexivity|]. exists (x :: s).
           repeat split. discriminate.
      * destruct l; (split; [reflexivity|]); right; right; exists rows;
          (split; [reflexivity|]).
        -- right; right; left. auto.
        -- right; right; right. auto.
      * destruct l; (split; [reflexivity|]); right; right; exists rows;
          (split; [reflexivity|]).
        -- right; right; left. auto.
        -- right; right; right. auto.
      * split; [reflexivity|]. right; right. exists rows.
        split; [reflexivity|]. right; right; left. auto.
  - split; [reflexivity|]. left. exists msg. auto.
Qed.

Section HandlerTheory.
Context `{Unicode}.
Variable exec : engine.
Variable llm : collaborator.

(** The ways in which [on_message] handles a message. *)
Lemma on_message_cases (c : Conn) (msg : message) :
  let h := on_message exec llm c msg in
  h = Handled [] None c
  \/ exists text,
       is_prompt msg text
       /\ let c1 := Connection (committed c) (working c) (in_tx c) true in
          let pre := [Answer Thinking; AskLlm (strip text)] in
          let payload := fst (ask_llm llm c (strip text)) in
          (exists x, payload = Raised x /\ h = Handled pre (Some x) c1)
          \/ ((forall d, payload <> Returned (Some (JObj d)))
              /\ returned payload = true
              /\ h = Handled (pre ++ [Edit LlmParseError]) None c1)
          \/ exists d,
               payload = Returned (Some (JObj d))
               /\ ((exists e,
                      py_get (u "error") d = Some (JStr e) /\ e <> []
                      /\ h = match log_attempt c1 (sender msg) (strip text)
                                              (JStr e) false with
                             | (Returned _, c2) =>
                                 Handled (pre ++ [Edit (BusinessError e)])
                                         None c2
                             | (Raised x, c2) =>
                                 Handled (pre ++ [Edit (BusinessError e)])
                                         (Some x) c2
                             end)
                   \/ (truthy (py_get (u "error") d) = true
                       /\ is_text (py_get (u "error") d) = false
                       /\ h = Handled pre (Some TypeError) c1)
                   \/ (truthy (py_get (u "error") d) = false
                       /\ (h = Handled (pre ++ [Edit FormatError]) None c1
                           \/ (is_text (py_get (u "mode") d) = false
                               /\ h = Handled pre (Some TypeError) c1)
                           \/ exists m,
                                py_get (u "mode") d = Some (JStr m)
                                /\ (m = u "read" \/ m = u "write")
                                /\ let sql := py_get (u "sql") d in
                                   let pre := pre ++ [Validate sql] in
                                   (is_text sql = false
                                    /\ h = Handled pre (Some AttributeError) c1)
                                   \/ exists script,
                                        sql = Some (JStr script)
                                        /\ script <> []
                                        /\ ((validate_sql script = None
                                             /\ h = Handled
                                                      (pre ++ [Edit SecurityRejected])
                                                      None c1)
                                            \/ exists stmts,
                                                 validate_sql script = Some stmts
                                                 /\ stmts <> []
                                                 /\ h = execute_and_report exec c1
                                                          pre stmts m (sender msg)
                                                          (py_get (u "summary") d))))).
Proof.
  cbv zeta. unfold on_message.
  destruct (msg_text msg) as [text|] eqn:Tx; [|left; reflexivity].
  destruct (negb (nonempty text) || starts_with_slash text) eqn:Ig;
    [left; reflexivity|].
  right. exists text.
  apply orb_false_iff in Ig. destruct Ig as [Hn Hs].
  apply negb_false_iff in Hn.
  split; [repeat split; assumption|].
  fold (sender msg).
  replace (ask_llm llm c (strip text))
    with (fst (ask_llm llm c (strip text)),
          Connection (committed c) (working c) (in_tx c) true)
    by reflexivity.
  destruct (fst (ask_llm llm c (strip text))) as [[[| | | | |d]|]|x];
    try (right; left; split; [intros d; discriminate|split; reflexivity]).
  2:{ left. exists x. split; reflexivity. }
  right; right. exists d. split; [reflexivity|].
  destruct (truthy (py_get (u "error") d)) eqn:Te.
  - destruct (py_get (u "error") d) as [[|b|z|e|l|l]|] eqn:Er;
      try discriminate Te;
      try (right; left; repeat split; reflexivity).
    left. exists e. split; [reflexivity|].
    split; [intros ->; discriminate Te|reflexivity].
  - right; right. split; [reflexivity|].
    destruct (truthy (py_get (u "sql") d)) eqn:Ts; cbn [negb];
      [|left; reflexivity].
    destruct (recognized_mode (py_get (u "mode") d)) as [[m|]|e] eqn:Rm.
    + apply recognized_mode_some in Rm. destruct Rm as [Em Hm].
      right; right. exists m. split; [exact Em|]. split; [exact Hm|].
      destruct (py_get (u "sql") d) as [[|b|z|script|l|l]|] eqn:Es;
        try discriminate Ts;
        try (left; split; reflexivity).
      right. exists script. split; [reflexivity|].
      split; [intros ->; discriminate Ts|].
      destruct (validate_sql script) as [[|s stmts]|] eqn:V.
      * apply validate_sql_some in V. destruct V as (_ & L & _).
        cbn [List.length] in L. lia.
      * right. exists (s :: stmts). split; [reflexivity|].
        split; [discriminate|reflexivity].
      * left. split; reflexivity.
    + left. reflexivity.
    + apply recognized_mode_raises in Rm. destruct Rm as [-> Hm].
      right; left. split; [exact Hm|reflexivity].
Qed.

End HandlerTheory.

Lemma run_stmts_committed (exec : engine) (mode : str) :
  forall (stmts : list str) (c : Conn) (res : list row),
    committed (snd (run_stmts exec c stmts mode res)) = committed c.
Proof.
  induction stmts as [|s rest IH]; intros c res; cbn [run_stmts].
  - reflexivity.
  - destruct (encodable s); [|reflexivity].
    destruct (exec s (working c)) as [db' rows|msg db'|msg];
      try reflexivity.
    destruct (str_eqb mode (u "read")).
    + destruct (py_dicts (row_factory c) rows); [|reflexivity].
      apply (IH (set_working c db')).
    + apply (IH (set_working c db')).
Qed.

Lemma run_try_committed_log (exec : engine) (c : Conn) (stmts : list str)
      (mode : str) :
  leaves_log exec -> idle c ->
  tx_log (committed (snd (run_try exec c stmts mode))) = tx_log (committed c).
Proof.
  intros Hlog [Htx Hw]. unfold run_try, begin. rewrite Htx.
  set (c0 := Connection (committed c) (working c) true (row_factory c)).
  assert (H0 : tx_log (working c0) = tx_log (committed c0))
    by (cbn; rewrite Hw; reflexivity).
  pose proof (@run_stmts_log exec mode Hlog stmts c0 [] H0) as Hr.
  pose proof (run_stmts_committed exec mode stmts c0 []) as Hc.
  destruct (run_stmts exec c0 stmts mode []) as [[res|e] c1];
    cbn [fst snd commit committed] in *.
  - exact Hr.
  - rewrite Hc. reflexivity.
Qed.

(** Whatever the summary, [run_sql] adds at most one row to the
    committed log. *)
Lemma run_sql_log (exec : engine) (c : Conn) (stmts : list str)
      (mode user : str) (summary : json) :
  leaves_log exec -> idle c ->
  tx_log (committed (snd (run_sql exec c stmts mode user summary)))
  = tx_log (committed c)
  \/ exists r,
       tx_log (committed (snd (run_sql exec c stmts mode user summary)))
       = tx_log (committed c) ++ [r].
Proof.
  intros Hlog Hidle. unfold run_sql.
  pose proof (@run_try_log exec c stmts mode Hlog Hidle) as Hw.
  pose proof (run_try_committed_log exec c stmts mode Hlog Hidle) as Hc.
  destruct (run_try exec c stmts mode) as [result c1]. cbn [snd] in Hw, Hc.
  unfold log_attempt. destruct (bind_params _ _ summary) as [sm|x]; cbn.
  - right. eexists. rewrite Hw. reflexivity.
  - left. exact Hc.
Qed.

Lemma execute_and_report_runs (exec : engine) (c : Conn) (pre : list event)
      (stmts : list str) (m username : str) (summary : option json) :
  filter is_run_sql
         (trace (execute_and_report exec c pre stmts m username summary))
  = filter is_run_sql pre ++ [RunSql stmts m].
Proof.
  destruct (execute_and_report_cases exec c pre stmts m username summary)
    as (_ & [(msg & _ & -> & _)
            |[(e & _ & _ & -> & _)
             |(rows & _ & [(_ & -> & _)
                          |[(_ & s & _ & _ & -> & _)
                           |[(_ & _ & -> & _)|(_ & _ & _ & -> & _)]]])]]);
    repeat rewrite filter_app; cbn [filter is_run_sql];
    repeat rewrite app_nil_r; reflexivity.
Qed.

(** X11.  The handler runs a script only after the validator has
    accepted it: when [run_sql] is called with statements [stmts] and
    mode [m], the message was a prompt, the payload a dict with no truthy
    [error] entry, its [sql] entry a string of which [stmts] is the
    non-empty list that [validate_sql] returned, and its [mode] entry the
    string "read" or "write"; [run_sql] is called once, and the handler
    leaves the connection as that call left it. *)
Theorem executed_script_was_validated `{Unicode} (exec : engine)
        (llm : collaborator) (c : Conn) (msg : message)
        (stmts : list str) (m : str) :
  let h := on_message exec llm c msg in
  In (RunSql stmts m) (trace h) ->
  exists text d script,
    is_prompt msg text
    /\ fst (ask_llm llm c (strip text)) = Returned (Some (JObj d))
    /\ truthy (py_get (u "error") d) = false
    /\ py_get (u "sql") d = Some (JStr script)
    /\ validate_sql script = Some stmts /\ stmts <> []
    /\ py_get (u "mode") d = Some (JStr m)
    /\ (m = u "read" \/ m = u "write")
    /\ filter is_run_sql (trace h) = [RunSql stmts m]
    /\ conn_after h
       = snd (run_sql exec (snd (ask_llm llm c (strip text))) stmts m
                      (sender msg) (summary_arg d)).
Proof.
  intros h Hin. subst h.
  destruct (on_message_cases exec llm c msg)
    as [E|(text & P & [(x & _ & E)
                      |[(_ & _ & E)
                       |(d & Ep & [(e & _ & _ & E)
                                  |[(_ & _ & E)|(Te & T)]])]])];
    try (rewrite E in Hin; cbn in Hin; intuition discriminate).
  { rewrite E in Hin.
    destruct (log_attempt _ _ _ _ _) as [[[]|x] c2]; cbn in Hin;
      intuition discriminate. }
  destruct T as [E|[(_ & E)|(m0 & Em & Hm & [(_ & E)|(script & Es & _ & V)])]];
    try (rewrite E in Hin; cbn in Hin; intuition discriminate).
  destruct V as [(_ & E)|(stmts0 & V & Hne & E)];
    [rewrite E in Hin; cbn in Hin; intuition discriminate|].
  pose proof (execute_and_report_runs exec
                (Connection (committed c) (working c) (in_tx c) true)
                ([Answer Thinking; AskLlm (strip text)]
                   ++ [Validate (py_get (u "sql") d)])
                stmts0 m0 (sender msg) (py_get (u "summary") d)) as F.
  rewrite <- E in F. cbn [filter is_run_sql app] in F.
  assert (Hf : In (RunSql stmts m)
                  (filter is_run_sql (trace (on_message exec llm c msg))))
    by (apply filter_In; split; [exact Hin|reflexivity]).
  rewrite F in Hf. destruct Hf as [[= <- <-]|[]].
  exists text, d, script. split; [exact P|].
  repeat split; try assumption.
  rewrite E. apply execute_and_report_conn.
Qed.

Lemma executed_script_was_validated_witness :
  validate_sql (NEW_ITEM ++ u "; " ++ PUT_IN) = Some [NEW_ITEM; PUT_IN].
Proof.
  destruct (@executed_script_was_validated cyrillic_table reference_engine
              llm_put demo_conn demo_msg [NEW_ITEM; PUT_IN] (u "write"))
    as (text & d & script & _ & Ep & _ & Es & V & _).
  - vm_compute. tauto.
  - injection Ep as <-. injection Es as <-. exact V.
Defined.

(** X12.  A payload whose [error] entry is a non-empty string is a
    business-rule error whatever else it carries: the user is shown the
    error, and neither the validator nor [run_sql] is called.  When the
    sender's name, the prompt and the error text can be encoded, one
    audit row flagged as a failure is committed, with the sender's name
    (or [unknown_user]), the stripped prompt in place of the script and
    the error text as summary -- together with anything a transaction
    left open on the connection had written.  When one of them cannot,
    [UnicodeEncodeError] leaves the handler and no row is written.  An
    [error] entry that is truthy but no string raises [TypeError] before
    anything is shown, and nothing is logged. *)
Theorem business_error_logged `{Unicode} (exec : engine)
        (llm : collaborator) (c : Conn) (msg : message) (text : str)
        (d : list (list N * json)) :
  is_prompt msg text ->
  fst (ask_llm llm c (strip text)) = Returned (Some (JObj d)) ->
  truthy (py_get (u "error") d) = true ->
  let h := on_message exec llm c msg in
  (forall e, py_get (u "error") d = Some (JStr e) ->
     trace h = [Answer Thinking; AskLlm (strip text); Edit (BusinessError e)]
     /\ (encodable (sender msg) && encodable (strip text) && encodable e = true ->
         raised h = None
         /\ committed (conn_after h)
            = log_append (working c)
                (Log (sender msg) (strip text) (Some e) false)
         /\ idle (conn_after h))
     /\ (encodable (sender msg) && encodable (strip text) && encodable e = false ->
         raised h = Some UnicodeEncodeError
         /\ committed (conn_after h) = committed c
         /\ working (conn_after h) = working c
         /\ in_tx (conn_after h) = true))
  /\ (is_text (py_get (u "error") d) = false ->
      trace h = [Answer Thinking; AskLlm (strip text)]
      /\ raised h = Some TypeError
      /\ committed (conn_after h) = committed c
      /\ working (conn_after h) = working c).
Proof.
  intros P Ep Te h. subst h.
  rewrite (@on_message_prompt _ exec llm c msg text P). cbv zeta.
  rewrite ask_llm_conn, Ep, Te. fold (sender msg).
  destruct (py_get (u "error") d) as [[|b|z|e|l|l]|];
    try (split; [intros e [=]|intros _; repeat split; reflexivity]).
  split; [|discriminate].
  intros e' [= <-]. unfold log_attempt, bind_params, bind_text.
  destruct (encodable (sender msg)); cbn [andb];
    [|split; [reflexivity|split; [discriminate|]];
      intros _; repeat split; reflexivity].
  destruct (encodable (strip text)); cbn [andb];
    [|split; [reflexivity|split; [discriminate|]];
      intros _; repeat split; reflexivity].
  destruct (encodable e).
  - split; [reflexivity|]. split; [|discriminate].
    intros _. cbn. repeat split; reflexivity.
  - split; [reflexivity|]. split; [discriminate|].
    intros _. repeat split; reflexivity.
Qed.

Lemma business_error_logged_witness :
  tx_log (committed
            (conn_after (on_message reference_engine llm_error demo_conn demo_msg)))
  = [Log (u "operator") (utf8 "удали всё")
         (Some (utf8 "Недостаточно товара")) false].
Proof.
  destruct (proj1 (@business_error_logged cyrillic_table reference_engine
                     llm_error demo_conn demo_msg (utf8 "удали всё")
                     [(u "error", JStr (utf8 "Недостаточно товара"))]
                     ltac:(repeat split; vm_compute; reflexivity)
                     ltac:(vm_compute; reflexivity)
                     ltac:(vm_compute; reflexivity))
                  (utf8 "Недостаточно товара")
                  ltac:(vm_compute; reflexivity)) as (_ & L & _).
  destruct (L ltac:(vm_compute; reflexivity)) as (_ & C & _).
  rewrite C. vm_compute. reflexivity.
Defined.

(** X13.  With an engine whose statements do not write to [tx_log], and
    no transaction open, handling a message never removes or alters a
    committed audit row and adds at most one. *)
Theorem on_message_log_append_only `{Unicode} (exec : engine)
        (llm : collaborator) (c : Conn) (msg : message) :
  leaves_log exec -> idle c ->
  let h := on_message exec llm c msg in
  tx_log (committed (conn_after h)) = tx_log (committed c)
  \/ exists r, tx_log (committed (conn_after h)) = tx_log (committed c) ++ [r].
Proof.
  intros Hlog Hidle h. subst h.
  destruct (on_message_cases exec llm c msg)
    as [E|(text & P & [(x & _ & E)
                      |[(_ & _ & E)
                       |(d & Ep & [(e & _ & _ & E)
                                  |[(_ & _ & E)|(Te & T)]])]])];
    try (rewrite E; left; reflexivity).
  - rewrite E. unfold log_attempt.
    destruct (bind_params _ _ _) as [sm|x]; cbn.
    + right. eexists. destruct Hidle as [_ ->]. reflexivity.
    + left. reflexivity.
  - destruct T as [E|[(_ & E)|(m0 & Em & Hm & [(_ & E)|(script & Es & _ & V)])]];
      try (rewrite E; left; reflexivity).
    destruct V as [(_ & E)|(stmts0 & V & Hne & E)];
      [rewrite E; left; reflexivity|].
    rewrite E, execute_and_report_conn.
    apply (run_sql_log exec
             (Connection (committed c) (working c) (in_tx c) true));
      [exact Hlog|exact Hidle].
Qed.

Lemma on_message_log_append_only_witness :
  let h := on_message reference_engine llm_move demo_conn demo_msg in
  tx_log (committed (conn_after h)) = tx_log (committed demo_conn)
  \/ exists r,
       tx_log (committed (conn_after h)) = tx_log (committed demo_conn) ++ [r].
Proof.
  apply (@on_message_log_append_only cyrillic_table reference_engine llm_move
           demo_conn demo_msg reference_engine_leaves_log
           (conj eq_refl eq_refl)).
Defined.

Lemma split_incl (sep : N) (s : list N) :
  forall x, In x (split sep s) -> forall c, In c x -> In c s.
Proof.
  induction s as [|a r IH]; cbn [split].
  - intros x [<-|[]] c [].
  - destruct (a =? sep)%N.
    + intros x [<-|Hx] c Hc; [destruct Hc|].
      right. apply (IH x Hx c Hc).
    + destruct (split sep r) as [|h t] eqn:E.
      * intros x [<-|[]] c [<-|[]]. left. reflexivity.
      * intros x [<-|Hx] c Hc.
        -- destruct Hc as [<-|Hc]; [left; reflexivity|].
           right. apply (IH h (or_introl eq_refl) c Hc).
        -- right. apply (IH x (or_intror Hx) c Hc).
Qed.

(** The statements of a script that can be encoded can be encoded. *)
Lemma statements_encodable (sql : list N) :
  encodable sql = true -> forallb encodable (statements sql) = true.
Proof.
  intro E. apply forallb_forall. intros s Hs. unfold statements in Hs.
  apply in_map_iff in Hs. destruct Hs as (x & <- & Hx).
  apply filter_In in Hx. destruct Hx as [Hx _].
  apply forallb_forall. intros ch Hch. apply strip_incl in Hch.
  unfold encodable in E. rewrite forallb_forall in E.
  apply E. apply (split_incl 59%N sql x Hx ch Hch).
Qed.



(* ------------------------------------------------------------------ *)
(** ** [md2_escape]                                                    *)
(* ------------------------------------------------------------------ *)

Lemma md2_escape_cons (c : N) (t : list N) :
  md2_escape (c :: t)
  = (if is_md2_special c then [92%N; c] else [c]) ++ md2_escape t.
Proof. reflexivity. Qed.

(** An escaped text does not begin with a character of the class. *)
Lemma md2_escape_head (t : list N) (c : N) (rest : list N) :
  md2_escape t = c :: rest -> is_md2_special c = false.
Proof.
  destruct t as [|x t]; [discriminate|]. rewrite md2_escape_cons.
  destruct (is_md2_special x) eqn:S; cbn [app]; intros [= <- _];
    [reflexivity|exact S].
Qed.

(** X16.  Escaping loses nothing: two texts with the same escaped form
    are the same text. *)
Theorem md2_escape_injective (a b : list N) :
  md2_escape a = md2_escape b -> a = b.
Proof.
  revert b. induction a as [|x a IH]; intros [|y b] E.
  - reflexivity.
  - rewrite md2_escape_cons in E. destruct (is_md2_special y); discriminate E.
  - rewrite md2_escape_cons in E. destruct (is_md2_special x); discriminate E.
  - rewrite !md2_escape_cons in E.
    destruct (is_md2_special x) eqn:Sx, (is_md2_special y) eqn:Sy;
      cbn [app] in E.
    + injection E as <- E. f_equal. apply IH, E.
    + injection E as <- E. symmetry in E. apply md2_escape_head in E.
      congruence.
    + injection E as -> E. apply md2_escape_head in E. congruence.
    + injection E as <- E. f_equal. apply IH, E.
Qed.

Lemma md2_escape_injective_witness : u "a.b" = u "a.b".
Proof. apply md2_escape_injective. reflexivity. Defined.

(** X17.  In an escaped text every character of the class stands right
    after a backslash. *)
Theorem md2_escape_guards (t pre post : list N) (c : N) :
  md2_escape t = pre ++ c :: post ->
  is_md2_special c = true ->
  exists pre', pre = pre' ++ [92%N].
Proof.
  revert pre. induction t as [|x t IH]; intros pre E S.
  - destruct pre; discriminate E.
  - rewrite md2_escape_cons in E.
    destruct (is_md2_special x) eqn:Sx; cbn [app] in E.
    + destruct pre as [|p0 [|p1 pre]]; cbn [app] in E.
      * injection E as <- _. discriminate S.
      * exists []. injection E as <- _ _. reflexivity.
      * injection E as <- <- E. destruct (IH pre E S) as [pre' ->].
        exists (92%N :: x :: pre'). reflexivity.
    + destruct pre as [|p0 pre]; cbn [app] in E.
      * injection E as <- _. congruence.
      * injection E as <- E. destruct (IH pre E S) as [pre' ->].
        exists (x :: pre'). reflexivity.
Qed.

Lemma md2_escape_guards_witness :
  exists pre', [97%N; 92%N] = pre' ++ [92%N].
Proof.
  apply (md2_escape_guards (u "a.b") [97%N; 92%N] (u "b") 46%N); reflexivity.
Defined.

(** X18.  A text is left as it is exactly when it holds no character of
    the class; escaping goes through concatenation, and the escaped text
    is longer by the number of such characters. *)
Theorem md2_escape_unchanged (a b : list N) :
  (md2_escape a = a <-> forallb (fun c => negb (is_md2_special c)) a = true)
  /\ md2_escape (a ++ b) = md2_escape a ++ md2_escape b
  /\ List.length (md2_escape a)
     = (List.length a + List.length (filter is_md2_special a))%nat.
Proof.
  assert (L : forall t, List.length (md2_escape t)
                        = (List.length t
                           + List.length (filter is_md2_special t))%nat).
  { induction t as [|x t IH]; [reflexivity|].
    rewrite md2_escape_cons, length_app, IH. cbn [filter].
    destruct (is_md2_special x); cbn [List.length]; lia. }
  split; [|split; [apply flat_map_app|apply L]].
  split.
  - intro E. pose proof (L a) as La. rewrite E in La.
    assert (Z : List.length (filter is_md2_special a) = 0%nat) by lia.
    apply forallb_forall. intros c Hc.
    destruct (is_md2_special c) eqn:S; [|reflexivity].
    assert (In c (filter is_md2_special a)) as Hf
        by (apply filter_In; auto).
    destruct (filter is_md2_special a); [destruct Hf|discriminate Z].
  - induction a as [|x a IH]; [reflexivity|]. cbn [forallb].
    intro F. apply andb_true_iff in F. destruct F as [Sx F].
    apply negb_true_iff in Sx. rewrite md2_escape_cons, Sx.
    cbn [app]. f_equal. apply IH, F.
Qed.

(* ------------------------------------------------------------------ *)
(** ** [fmt_table]                                                     *)
(* ------------------------------------------------------------------ *)

Lemma traverse_Forall2 {A B : Type} (f : A -> option B) (l : list A)
      (l' : list B) :
  traverse f l = Some l' <-> Forall2 (fun a b => f a = Some b) l l'.
Proof.
  revert l'. induction l as [|a l IH]; intros l'; cbn [traverse].
  - split.
    + intros [= <-]. constructor.
    + intro F. inversion F. reflexivity.
  - split.
    + destruct (f a) as [b|] eqn:Fa; [|discriminate].
      destruct (traverse f l) as [bs|]; [|discriminate].
      intros [= <-]. constructor; [exact Fa|]. apply IH. reflexivity.
    + intro F. inversion F as [|a0 b l0 bs Fa Fl]; subst.
      rewrite Fa. apply IH in Fl. rewrite Fl. reflexivity.
Qed.

Lemma traverse_none {A B : Type} (f : A -> option B) (l : list A) :
  traverse f l = None <-> exists a, In a l /\ f a = None.
Proof.
  induction l as [|a l IH]; cbn [traverse].
  - split; [discriminate|]. intros (a & [] & _).
  - destruct (f a) as [b|] eqn:Fa.
    + destruct (traverse f l) as [bs|].
      * split; [discriminate|]. intros (x & [<-|Hx] & Fx); [congruence|].
        pose proof (proj2 IH (ex_intro _ x (conj Hx Fx))) as N.
        discriminate N.
      * split; [|reflexivity]. intros _.
        destruct (proj1 IH eq_refl) as (x & Hx & Fx). exists x.
        split; [right; exact Hx|exact Fx].
    + split; [|reflexivity]. intros _. exists a. split; [left; reflexivity|exact Fa].
Qed.

Lemma dict_get_In {A : Type} (k : list N) (d : list (list N * A)) (v : A) :
  dict_get k d = Some v -> In (k, v) d.
Proof.
  induction d as [|[k' v'] d IH]; cbn [dict_get]; [discriminate|].
  destruct (str_eqb k' k) eqn:E.
  - intros [= <-]. apply str_eqb_eq in E. subst. left. reflexivity.
  - intro G. right. apply IH, G.
Qed.

Lemma dict_get_present {A : Type} (k : list N) (d : list (list N * A)) :
  In k (map fst d) -> dict_get k d <> None.
Proof.
  induction d as [|[k' v'] d IH]; cbn [dict_get map fst In]; [tauto|].
  intros [->|Hin].
  - rewrite (proj2 (str_eqb_eq k k) eq_refl). discriminate.
  - destruct (str_eqb k' k); [discriminate|]. apply IH, Hin.
Qed.

Lemma str_eqb_neq (a b : list N) : str_eqb a b = false <-> a <> b.
Proof.
  unfold str_eqb. destruct (list_eq_dec N.eq_dec a b); split;
    congruence || auto.
Qed.

Lemma dict_get_replace (k k0 : list N) (v0 : sqlval)
      (d : list (list N * sqlval)) :
  dict_get k (map (fun kv => if str_eqb (fst kv) k0 then (k0, v0) else kv) d)
  = if str_eqb k0 k && existsb (fun kv => str_eqb (fst kv) k0) d
    then Some v0 else dict_get k d.
Proof.
  induction d as [|[k' v'] d IH]; cbn [map existsb fst dict_get].
  - rewrite andb_false_r. reflexivity.
  - destruct (str_eqb k' k0) eqn:E0; cbn [dict_get orb].
    + apply str_eqb_eq in E0. subst k'. rewrite andb_true_r.
      destruct (str_eqb k0 k) eqn:E1; [reflexivity|].
      rewrite IH. reflexivity.
    + rewrite IH. destruct (str_eqb k' k) eqn:Ek; [|reflexivity].
      apply str_eqb_eq in Ek. subst k'.
      destruct (str_eqb k0 k) eqn:E1; [|reflexivity].
      apply str_eqb_eq in E1. subst k0.
      rewrite (proj2 (str_eqb_eq k k) eq_refl) in E0. discriminate E0.
Qed.

Lemma dict_get_append (k k0 : list N) (v0 : sqlval)
      (d : list (list N * sqlval)) :
  dict_get k (d ++ [(k0, v0)])
  = match dict_get k d with
    | Some v => Some v
    | None => if str_eqb k0 k then Some v0 else None
    end.
Proof.
  induction d as [|[k' v'] d IH]; cbn [app dict_get]; [reflexivity|].
  destruct (str_eqb k' k); [reflexivity|exact IH].
Qed.

Lemma dict_get_absent (k : list N) (d : list (list N * sqlval)) :
  existsb (fun kv => str_eqb (fst kv) k) d = false -> dict_get k d = None.
Proof.
  induction d as [|[k' v'] d IH]; cbn [existsb fst dict_get]; [reflexivity|].
  intro E. apply orb_false_iff in E. destruct E as [-> E]. apply IH, E.
Qed.

(** [d[k]] after [d[k0] = v0]. *)
Lemma dict_get_set (k k0 : list N) (v0 : sqlval) (d : list (list N * sqlval)) :
  dict_get k (dict_set d k0 v0)
  = if str_eqb k0 k then Some v0 else dict_get k d.
Proof.
  unfold dict_set.
  destruct (existsb (fun kv => str_eqb (fst kv) k0) d) eqn:Ex.
  - rewrite dict_get_replace, Ex, andb_true_r. reflexivity.
  - rewrite dict_get_append.
    destruct (str_eqb k0 k) eqn:E1.
    + apply str_eqb_eq in E1. subst k0.
      rewrite (dict_get_absent k d Ex). reflexivity.
    + destruct (dict_get k d); reflexivity.
Qed.

(** What a row holds at [k] once its size has been filled in is what was
    measured for the width of column [k]. *)
Lemma fill_size_text (k : list N) (r : list (list N * sqlval)) (t : list N) :
  width_text k r = Some t ->
  exists v, dict_get k (fill_size r) = Some v /\ py_str v = t.
Proof.
  unfold width_text, fill_size.
  destruct (dict_get k r) as [v|] eqn:G; [|discriminate].
  destruct (str_eqb k (u "size")) eqn:Ek; cbn [negb orb]; intros [= <-].
  - apply str_eqb_eq in Ek. subst k. rewrite G.
    destruct v as [|z|s].
    + rewrite dict_get_set, (proj2 (str_eqb_eq _ _) eq_refl).
      eexists. split; reflexivity.
    + exists (VInt z). auto.
    + exists (VText s). auto.
  - exists v. split; [|reflexivity].
    assert (Hk : str_eqb (u "size") k = false).
    { apply str_eqb_neq. apply str_eqb_neq in Ek. congruence. }
    destruct (dict_get (u "size") r) as [[| |]|];
      try exact G; rewrite dict_get_set, Hk; exact G.
Qed.

Lemma fold_max_le (l : list nat) (init : nat) :
  (init <= fold_left Nat.max l init)%nat
  /\ forall x, In x l -> (x <= fold_left Nat.max l init)%nat.
Proof.
  revert init. induction l as [|y l IH]; intro init; cbn [fold_left].
  - split; [lia|]. intros x [].
  - destruct (IH (Nat.max init y)) as [I1 I2]. split; [lia|].
    intros x [<-|Hx]; [lia|]. apply I2, Hx.
Qed.

(** What [widths] holds for a column. *)
Lemma widths_spec (rows : list (list (list N * sqlval))) (keys : list (list N))
      (ws : list (list N * nat)) :
  widths rows keys = Some ws ->
  (forall k, In k keys -> dict_get k ws <> None)
  /\ forall k w, dict_get k ws = Some w ->
       (List.length (hdr_get k) <= w)%nat
       /\ forall r, In r rows ->
            exists t, width_text k r = Some t /\ (List.length t <= w)%nat.
Proof.
  unfold widths. intro W. apply traverse_Forall2 in W.
  induction W as [|k kw keys ws Hk W IH].
  - split; [intros k []|]. intros k w G. discriminate G.
  - destruct IH as [IH1 IH2].
    destruct (traverse _ rows) as [lens|] eqn:T; [|discriminate Hk].
    injection Hk as <-. apply traverse_Forall2 in T.
    split.
    + intros k' [<-|Hin]; cbn [dict_get].
      * rewrite (proj2 (str_eqb_eq k k) eq_refl). discriminate.
      * destruct (str_eqb k k'); [discriminate|]. apply IH1, Hin.
    + intros k' w. cbn [dict_get].
      destruct (str_eqb k k') eqn:Ek; [|apply IH2].
      apply str_eqb_eq in Ek. subst k'. intros [= <-].
      destruct (fold_max_le lens (List.length (hdr_get k))) as [M1 M2].
      split; [exact M1|]. intros r Hr.
      set (w := fold_left Nat.max lens (List.length (hdr_get k))) in *.
      clearbody w.
      clear - T Hr M2. induction T as [|r0 n rows lens Hn T IH].
      * destruct Hr.
      * destruct Hr as [->|Hr].
        -- destruct (width_text k r) as [t|]; [|discriminate Hn].
           injection Hn as <-. exists t. split; [reflexivity|].
           apply M2. left. reflexivity.
        -- apply IH; [|exact Hr]. intros x Hx. apply M2. right. exact Hx.
Qed.

Lemma ljust_length (s : list N) (w : nat) :
  (List.length s <= w)%nat -> List.length (ljust s w) = w.
Proof.
  intro L. unfold ljust. rewrite length_app, repeat_length. lia.
Qed.

Lemma join_length (sep sep' : list N) (l l' : list (list N)) :
  List.length sep = List.length sep' ->
  Forall2 (fun a b => List.length a = List.length b) l l' ->
  List.length (join sep l) = List.length (join sep' l').
Proof.
  intros Hs F. induction F as [|a b l l' Hab F IH]; [reflexivity|].
  cbn [join]. destruct F as [|a1 b1 l l' H1 F]; [exact Hab|].
  rewrite !length_app, Hab, Hs. f_equal. f_equal. exact IH.
Qed.

(** Every cell of a column is as wide as the column's piece of the
    separator line. *)
Lemma cells_length (ws : list (list N * nat)) (keys : list (list N))
      (cell : list N -> option (list N)) (cells seps : list (list N)) :
  (forall k w c, dict_get k ws = Some w -> cell k = Some c ->
                 List.length c = w) ->
  traverse cell keys = Some cells ->
  traverse (fun k => option_map (repeat 45%N) (dict_get k ws)) keys = Some seps ->
  Forall2 (fun a b => List.length a = List.length b) cells seps.
Proof.
  intros Hc C S. apply traverse_Forall2 in C. apply traverse_Forall2 in S.
  revert seps S. induction C as [|k c keys cells Hk C IH]; intros seps S.
  - inversion S. constructor.
  - inversion S as [|k0 sp keys0 seps0 Hs S0]; subst.
    constructor; [|apply IH, S0].
    destruct (dict_get k ws) as [w|] eqn:G; [|discriminate Hs].
    injection Hs as <-. rewrite repeat_length. apply (Hc k w c G Hk).
Qed.

Lemma Forall2_In_r {A B : Type} (P : A -> B -> Prop) (l : list A)
      (l' : list B) (b : B) :
  Forall2 P l l' -> In b l' -> exists a, In a l /\ P a b.
Proof.
  induction 1 as [|a0 b0 l l' H0 F IH]; intros Hin; [destruct Hin|].
  destruct Hin as [<-|Hin].
  - exists a0. split; [left; reflexivity|exact H0].
  - destruct (IH Hin) as (a & Ha & Pa). exists a. split; [right; exact Ha|exact Pa].
Qed.

(** The header line is as long as the separator line. *)
Lemma header_line_length (rows : list (list (list N * sqlval)))
      (keys : list (list N)) (ws : list (list N * nat)) (header sep : list N) :
  widths rows keys = Some ws ->
  header_line ws keys = Some header -> sep_line ws keys = Some sep ->
  List.length header = List.length sep.
Proof.
  intros W Hh Hs. unfold header_line in Hh. unfold sep_line in Hs.
  destruct (traverse _ keys) as [hc|] eqn:Th in Hh; [|discriminate Hh].
  destruct (traverse _ keys) as [sc|] eqn:Ts in Hs; [|discriminate Hs].
  injection Hh as <-. injection Hs as <-.
  apply join_length; [reflexivity|].
  apply (cells_length ws keys _ hc sc) with (2 := Th) (3 := Ts).
  intros k w c G C. rewrite G in C. injection C as <-.
  apply ljust_length. apply (proj2 (widths_spec rows keys ws W) k w G).
Qed.

(** The line of a row is as long as the separator line. *)
Lemma row_line_length (rows : list (list (list N * sqlval)))
      (keys : list (list N)) (ws : list (list N * nat))
      (r : list (list N * sqlval)) (line sep : list N) :
  widths rows keys = Some ws -> In r rows ->
  row_line ws keys (fill_size r) = Some line -> sep_line ws keys = Some sep ->
  List.length line = List.length sep.
Proof.
  intros W Hr Hl Hs. unfold row_line in Hl. unfold sep_line in Hs.
  destruct (traverse _ keys) as [rc|] eqn:Tr in Hl; [|discriminate Hl].
  destruct (traverse _ keys) as [sc|] eqn:Ts in Hs; [|discriminate Hs].
  injection Hl as <-. injection Hs as <-.
  apply join_length; [reflexivity|].
  apply (cells_length ws keys _ rc sc) with (2 := Tr) (3 := Ts).
  intros k w c G C. rewrite G in C.
  destruct (proj2 (proj2 (widths_spec rows keys ws W) k w G) r Hr)
    as (t & Ht & Lt).
  destruct (fill_size_text k r t Ht) as (v & Gv & <-).
  rewrite Gv in C. injection C as <-. apply ljust_length, Lt.
Qed.

(** X19.  The table that [fmt_table] prints is aligned: for rows that
    are not empty the text is, between two code fences, a header line, a
    separator line and one line for each row, and every one of these
    lines has the length of the separator line; for no rows it is the
    fixed message and no table. *)
Theorem fmt_table_aligned (rows : list (list (list N * sqlval)))
        (text : list N) :
  fmt_table rows = Some text ->
  (rows = [] -> text = NOTHING_FOUND)
  /\ (rows <> [] ->
      exists header sep body,
        text = FENCE ++ [10%N] ++ join [10%N] (header :: sep :: body)
                     ++ [10%N] ++ FENCE
        /\ List.length body = List.length rows
        /\ Forall (fun line => List.length line = List.length sep)
                  (header :: sep :: body)).
Proof.
  destruct rows as [|r0 rest]; cbn [fmt_table].
  - intros [= <-]. split; [reflexivity|]. intro N. elim N. reflexivity.
  - set (rows := r0 :: rest). set (keys := map fst r0).
    destruct (widths rows keys) as [ws|] eqn:W; [|discriminate].
    destruct (header_line ws keys) as [header|] eqn:Hh; [|discriminate].
    destruct (sep_line ws keys) as [sep|] eqn:Hs; [|discriminate].
    destruct (traverse (row_line ws keys) (map fill_size rows)) as [body|] eqn:Tb;
      [|discriminate].
    intros [= <-]. split; [discriminate|]. intros _.
    exists header, sep, body. split; [reflexivity|].
    apply traverse_Forall2 in Tb. split.
    + rewrite <- (Forall2_length Tb). apply length_map.
    + constructor; [apply (header_line_length rows keys ws); assumption|].
      constructor; [reflexivity|].
      apply Forall_forall. intros line Hin.
      destruct (Forall2_In_r _ _ _ line Tb Hin) as (r' & Hr' & Hl).
      apply in_map_iff in Hr'. destruct Hr' as (r & <- & Hr).
      apply (row_line_length rows keys ws r); assumption.
Qed.

Lemma fmt_table_aligned_witness :
  exists (header sep : list N) (body : list (list N)),
    Forall (fun line => List.length line = List.length sep)
           (header :: sep :: body)
    /\ List.length body = 2%nat.
Proof.
  destruct (proj2 (fmt_table_aligned demo_rows
                     (match fmt_table demo_rows with
                      | Some t => t | None => [] end)
                     ltac:(vm_compute; reflexivity))
                  ltac:(discriminate))
    as (header & sep & body & _ & L & F).
  exists header, sep, body. split; [exact F|exact L].
Defined.

(** When [fmt_table] raises [KeyError]. *)
Lemma fmt_table_none (r0 : list (list N * sqlval))
      (rest : list (list (list N * sqlval))) :
  fmt_table (r0 :: rest) = None <->
  exists r k, In r (r0 :: rest) /\ In k (map fst r0) /\ dict_get k r = None.
Proof.
  cbn [fmt_table].
  set (rows := r0 :: rest). set (keys := map fst r0).
  destruct (widths rows keys) as [ws|] eqn:W.
  - pose proof (widths_spec rows keys ws W) as [W1 W2].
    split.
    + intro E. exfalso.
      destruct (header_line ws keys) as [header|] eqn:Hh.
      2:{ unfold header_line in Hh.
          destruct (traverse _ keys) as [hc|] eqn:T in Hh; [discriminate Hh|].
          apply traverse_none in T. destruct T as (k & Hk & Ck).
          specialize (W1 k Hk). destruct (dict_get k ws); [discriminate Ck|].
          apply W1. reflexivity. }
      destruct (sep_line ws keys) as [sep|] eqn:Hs.
      2:{ unfold sep_line in Hs.
          destruct (traverse _ keys) as [sc|] eqn:T in Hs; [discriminate Hs|].
          apply traverse_none in T. destruct T as (k & Hk & Ck).
          specialize (W1 k Hk). destruct (dict_get k ws); [discriminate Ck|].
          apply W1. reflexivity. }
      destruct (traverse (row_line ws keys) (map fill_size rows))
        as [body|] eqn:Tb; [discriminate E|].
      apply traverse_none in Tb. destruct Tb as (r' & Hr' & Cr).
      apply in_map_iff in Hr'. destruct Hr' as (r & <- & Hr).
      unfold row_line in Cr.
      destruct (traverse _ keys) as [rc|] eqn:T in Cr; [discriminate Cr|].
      apply traverse_none in T. destruct T as (k & Hk & Ck).
      specialize (W1 k Hk).
      destruct (dict_get k ws) as [w|] eqn:G; [|apply W1; reflexivity].
      destruct (proj2 (W2 k w G) r Hr) as (t & Ht & _).
      destruct (fill_size_text k r t Ht) as (v & Gv & _).
      rewrite Gv in Ck. discriminate Ck.
    + intros (r & k & Hr & Hk & G). exfalso.
      specialize (W1 k Hk).
      destruct (dict_get k ws) as [w|] eqn:Gw; [|apply W1; reflexivity].
      destruct (proj2 (W2 k w Gw) r Hr) as (t & Ht & _).
      unfold width_text in Ht. rewrite G in Ht. discriminate Ht.
  - split; [|reflexivity]. intros _.
    unfold widths in W. apply traverse_none in W.
    destruct W as (k & Hk & Ck).
    destruct (traverse _ rows) as [lens|] eqn:T in Ck; [discriminate Ck|].
    apply traverse_none in T. destruct T as (r & Hr & Cr).
    exists r, k. split; [exact Hr|]. split; [exact Hk|].
    unfold width_text in Cr. destruct (dict_get k r); [discriminate Cr|].
    reflexivity.
Qed.

(** Rows with the keys of the first row are printed. *)
Lemma fmt_table_uniform (r0 : list (list N * sqlval))
      (rest : list (list (list N * sqlval))) :
  (forall r, In r rest -> map fst r = map fst r0) ->
  fmt_table (r0 :: rest) <> None.
Proof.
  intros Hu E. apply fmt_table_none in E. destruct E as (r & k & Hr & Hk & G).
  assert (Hkr : In k (map fst r)).
  { destruct Hr as [<-|Hr]; [exact Hk|]. rewrite (Hu r Hr). exact Hk. }
  apply (dict_get_present k r Hkr G).
Qed.

(** X20.  [fmt_table] raises [KeyError] exactly when some row lacks a
    key of the first row; rows that all have the keys of the first row,
    as the rows of one result have, are always printed. *)
Theorem fmt_table_key_error (r0 : list (list N * sqlval))
        (rest : list (list (list N * sqlval))) :
  (fmt_table (r0 :: rest) = None <->
   exists r k, In r (r0 :: rest) /\ In k (map fst r0) /\ dict_get k r = None)
  /\ ((forall r, In r rest -> map fst r = map fst r0) ->
      fmt_table (r0 :: rest) <> None).
Proof.
  split; [apply fmt_table_none|apply fmt_table_uniform].
Qed.

Lemma fmt_table_key_error_witness : fmt_table demo_rows <> None.
Proof.
  apply (proj2 (fmt_table_key_error
                  [(u "name", VText (utf8 "майка")); (u "size", VText (u "L"));
                   (u "location_code", VText (utf8 "А1")); (u "qty", VInt 2)]
                  [[(u "name", VText (utf8 "блокнот")); (u "size", VNull);
                    (u "location_code", VText (utf8 "Б10")); (u "qty", VInt 14)]])).
  intros r [<-|[]]. reflexivity.
Defined.

(* ------------------------------------------------------------------ *)
(** ** [on_message]: what can be raised                                *)
(* ------------------------------------------------------------------ *)

Lemma dict_set_keys (d : list (list N * sqlval)) (k : list N) (v : sqlval) :
  map fst (dict_set d k v)
  = if existsb (fun k' => str_eqb k' k) (map fst d)
    then map fst d else map fst d ++ [k].
Proof.
  unfold dict_set.
  assert (E : existsb (fun kv => str_eqb (fst kv) k) d
              = existsb (fun k' => str_eqb k' k) (map fst d)).
  { induction d as [|kv d IH]; [reflexivity|].
    cbn [existsb map]. rewrite IH. reflexivity. }
  rewrite E. destruct (existsb _ (map fst d)).
  - clear E. induction d as [|[k' v'] d IH]; [reflexivity|].
    cbn [map fst]. rewrite IH. f_equal.
    destruct (str_eqb k' k) eqn:Ek; [|reflexivity].
    apply str_eqb_eq in Ek. symmetry. exact Ek.
  - rewrite map_app. reflexivity.
Qed.

(** The keys of [dict(r)] depend on the columns of [r] only. *)
Lemma fold_dict_keys (f1 f2 : list N -> sqlval) :
  forall (l1 l2 d1 d2 : list (list N * sqlval)),
    map fst l1 = map fst l2 -> map fst d1 = map fst d2 ->
    map fst (fold_left (fun d kv => dict_set d (fst kv) (f1 (fst kv))) l1 d1)
    = map fst (fold_left (fun d kv => dict_set d (fst kv) (f2 (fst kv))) l2 d2).
Proof.
  induction l1 as [|[k1 v1] l1 IH]; intros [|[k2 v2] l2] d1 d2 Hl Hd;
    try discriminate Hl.
  - exact Hd.
  - cbn [map fst] in Hl. injection Hl as <- Hl. cbn [fold_left fst].
    apply IH; [exact Hl|]. rewrite !dict_set_keys, Hd. reflexivity.
Qed.

Lemma py_dicts_keys (raw res : list (list (list N * sqlval))) :
  py_dicts true raw = Returned res ->
  (forall r1 r2, In r1 raw -> In r2 raw -> map fst r1 = map fst r2) ->
  forall d1 d2, In d1 res -> In d2 res -> map fst d1 = map fst d2.
Proof.
  intros P Hu.
  assert (M : res = map (fun r => fold_left
                                    (fun d kv => dict_set d (fst kv)
                                                          (row_get (fst kv) r))
                                    r []) raw).
  { revert res P. induction raw as [|r raw IH]; intros res P;
      cbn [py_dicts] in P.
    - injection P as <-. reflexivity.
    - unfold py_dict in P at 1.
      destruct (py_dicts true raw) as [ds|]; [|discriminate P].
      injection P as <-. cbn [map]. f_equal. apply IH; [|reflexivity].
      intros r1 r2 H1 H2. apply Hu; right; assumption. }
  subst res. intros d1 d2 H1 H2.
  apply in_map_iff in H1. destruct H1 as (r1 & <- & H1).
  apply in_map_iff in H2. destruct H2 as (r2 & <- & H2).
  apply (fold_dict_keys (fun k => row_get k r1) (fun k => row_get k r2));
    [apply Hu; assumption|reflexivity].
Qed.

(** What the loop of [run_sql] returns are the rows of a result. *)
Lemma run_stmts_rows (exec : engine) (mode : str) :
  forall (stmts : list str) (c c1 : Conn) (res0 res : list row),
    row_factory c = true ->
    run_stmts exec c stmts mode res0 = (Returned res, c1) ->
    res = res0
    \/ exists s db db' raw,
         exec s db = Done db' raw /\ py_dicts true raw = Returned res.
Proof.
  induction stmts as [|s rest IH]; intros c c1 res0 res Hrf E;
    cbn [run_stmts] in E.
  - injection E as <- _. left. reflexivity.
  - destruct (encodable s); [|discriminate E].
    destruct (exec s (working c)) as [db' raw|msg db'|msg] eqn:X;
      try discriminate E.
    assert (Hrf' : row_factory (set_working c db') = true) by exact Hrf.
    destruct (str_eqb mode (u "read")).
    + rewrite Hrf in E.
      destruct (py_dicts true raw) as [ds|] eqn:P; [|discriminate E].
      destruct (IH _ _ _ _ Hrf' E) as [->|R]; [|right; exact R].
      right. exists s, (working c), db', raw. split; assumption.
    + apply (IH _ _ _ _ Hrf' E).
Qed.

Lemma run_sql_rows (exec : engine) (c : Conn) (stmts : list str)
      (mode user : str) (summary : json) (res : list row) :
  row_factory c = true ->
  fst (run_sql exec c stmts mode user summary) = Returned res ->
  res = []
  \/ exists s db db' raw,
       exec s db = Done db' raw /\ py_dicts true raw = Returned res.
Proof.
  intros Hrf. unfold run_sql, run_try, begin.
  destruct (in_tx c).
  - destruct (log_attempt _ _ _ _ _) as [[[]|x] c2]; cbn [fst]; discriminate.
  - destruct (run_stmts exec _ stmts mode []) as [[res1|e1] c1] eqn:R.
    + destruct (log_attempt _ _ _ _ _) as [[[]|x] c2]; cbn [fst];
        [|discriminate].
      intros [= <-].
      apply (run_stmts_rows exec mode stmts
               (Connection (committed c) (working c) true (row_factory c))
               c1 [] res1 Hrf R).
    + destruct (log_attempt _ _ _ _ _) as [[[]|x] c2]; cbn [fst]; discriminate.
Qed.

(** The rows that [run_sql] returns can be printed. *)
Lemma run_sql_rows_print (exec : engine) (c : Conn) (stmts : list str)
      (mode user : str) (summary : json) (res : list row) :
  uniform_rows exec -> row_factory c = true ->
  fst (run_sql exec c stmts mode user summary) = Returned res ->
  fmt_table res <> None.
Proof.
  intros Hu Hrf R.
  destruct (run_sql_rows exec c stmts mode user summary res Hrf R)
    as [->|(s & db & db' & raw & X & P)]; [discriminate|].
  destruct res as [|d0 rest]; [discriminate|].
  apply fmt_table_uniform. intros d Hd.
  apply (py_dicts_keys raw (d0 :: rest) P (Hu s db db' raw X));
    [right; exact Hd|left; reflexivity].
Qed.

Lemma reference_engine_uniform : uniform_rows reference_engine.
Proof.
  intros s db db' rows E r1 r2 H1 H2. unfold reference_engine in E.
  destruct (parse_stock_op s) as [[nm sz|i l n|i l n|i l|i l|i l]|];
    cbn [apply_stock_op] in E; try discriminate E.
  - destruct (_ && _); injection E as <- <-; destruct H1.
  - destruct (n <=? 0)%Z; [discriminate E|].
    destruct (existsb (in_cell i l) (stock db));
      [injection E as <- <-; destruct H1|].
    destruct (existsb _ (items db) && existsb _ (locations db));
      [injection E as <- <-; destruct H1|discriminate E].
  - destruct (forallb _ (stock db)); [|discriminate E].
    injection E as <- <-. destruct H1.
  - injection E as <- <-. destruct H1.
  - injection E as <- <-.
    apply in_map_iff in H1. destruct H1 as (x1 & <- & _).
    apply in_map_iff in H2. destruct H2 as (x2 & <- & _). reflexivity.
  - injection E as <- <-. destruct H1.
Qed.

(** X14.  With an engine whose results have the same columns in every
    row, and a request to the collaborator that returns or fails with an
    error that [ask_llm] catches: no exception leaves the handler's own
    code when the sender's name and the prompt can be encoded and the
    entries [error], [sql], [mode] and [summary] of the payload are, where
    they are given, strings (that can be encoded, for those that reach
    the database).  A payload that is no dict, a script that is rejected
    and a database error raised by [run_sql] are answered to the user,
    and the rows that a read returns are rows that [fmt_table] prints
    without [KeyError]. *)
Theorem typed_payload_raises_nothing `{Unicode} (exec : engine)
        (llm : collaborator) (c : Conn) (msg : message) :
  uniform_rows exec ->
  encodable (sender msg) = true ->
  (forall text,
     msg_text msg = Some text ->
     encodable (strip text) = true
     /\ returned (fst (ask_llm llm c (strip text))) = true
     /\ forall d,
          fst (ask_llm llm c (strip text)) = Returned (Some (JObj d)) ->
          clean_payload d = true) ->
  let h := on_message exec llm c msg in
  raised h = None
  /\ forall rows, In (Edit (ReadResult rows)) (trace h) ->
                  fmt_table rows <> None.
Proof.
  intros Hu Eu Hty h. subst h.
  destruct (on_message_cases exec llm c msg) as [E|(text & P & C)].
  { rewrite E. split; [reflexivity|]. intros rows []. }
  cbv zeta in C. destruct (Hty text (proj1 P)) as (Et & Hret & Hclean).
  destruct C as [(x & Ex & _)|[(_ & _ & E)|(d & Ep & C)]].
  { rewrite Ex in Hret. discriminate Hret. }
  { rewrite E. split; [reflexivity|]. cbn. intros rows Hin.
    intuition discriminate. }
  pose proof (Hclean d Ep) as T. unfold clean_payload in T.
  apply andb_true_iff in T. destruct T as [T Tsum].
  apply andb_true_iff in T. destruct T as [T Tmode].
  apply andb_true_iff in T. destruct T as [Terr Tsql].
  destruct C as [(e & Er & _ & E)|[(_ & Ht & _)|(Te & C)]].
  { rewrite E. rewrite Er in Terr. cbn [clean_text] in Terr.
    unfold log_attempt, bind_params, bind_text. rewrite Eu, Et, Terr.
    split; [reflexivity|]. cbn. intros rows Hin. intuition discriminate. }
  { destruct (py_get (u "error") d) as [[| | | | |]|]; discriminate. }
  destruct C as [E|[(Ht & _)|(m0 & Em & Hm & C)]]; [| congruence |].
  { rewrite E. split; [reflexivity|]. cbn. intros rows Hin.
    intuition discriminate. }
  cbv zeta in C. destruct C as [(Ht & _)|(script & Es & _ & V)].
  { destruct (py_get (u "sql") d) as [[| | | | |]|]; discriminate. }
  destruct V as [(_ & E)|(stmts0 & V & Hne & E)].
  { rewrite E. split; [reflexivity|]. cbn. intros rows Hin.
    intuition discriminate. }
  rewrite E.
  assert (Est : forallb encodable stmts0 = true).
  { rewrite Es in Tsql. cbn [clean_text] in Tsql.
    pose proof (validate_sql_some _ V) as (-> & _).
    apply statements_encodable, Tsql. }
  set (c1 := Connection (committed c) (working c) (in_tx c) true).
  set (pre := [Answer Thinking; AskLlm (strip text)]
                ++ [Validate (py_get (u "sql") d)]).
  destruct (execute_and_report_cases exec c1 pre stmts0 m0 (sender msg)
              (py_get (u "summary") d))
    as (_ & [(msg' & _ & Tr & R)
            |[(e & Hr & Hnd & _)
             |(rows' & Hret' & [(_ & Tr & R)
                               |[(_ & s & _ & _ & Tr & R)
                                |[(_ & _ & Tr & R)|(_ & _ & Ht & _)]]])]]).
  - split; [exact R|]. intros rows Hin. rewrite Tr in Hin. cbn in Hin.
    intuition discriminate.
  - assert (Hb : forall x,
               bind_text (match py_get (u "summary") d with
                          | Some v => v | None => JNull end) = Raised x ->
               exists m, x = DatabaseError m).
    { intros x. destruct (py_get (u "summary") d) as [[| | |s| |]|];
        try discriminate Tsum; cbn [bind_text clean_text] in *;
        try discriminate. rewrite Tsum. discriminate. }
    destruct (run_sql_raises exec c1 stmts0 m0 (sender msg) _ e eq_refl Eu
                Est Hb Hr) as (m' & ->).
    elim (Hnd m' eq_refl).
  - split; [exact R|]. intros rows Hin. rewrite Tr in Hin. cbn in Hin.
    destruct Hin as [Hin|[Hin|[Hin|[Hin|[Hin|[Hin|[]]]]]]];
      try discriminate Hin.
    injection Hin as <-.
    apply (run_sql_rows_print exec c1 stmts0 m0 (sender msg) _ rows' Hu
             eq_refl Hret').
  - split; [exact R|]. intros rows Hin. rewrite Tr in Hin. cbn in Hin.
    intuition discriminate.
  - split; [exact R|]. intros rows Hin. rewrite Tr in Hin. cbn in Hin.
    intuition discriminate.
  - destruct (py_get (u "summary") d) as [[| | | | |]|]; discriminate.
Qed.

Lemma typed_payload_raises_nothing_witness :
  raised (on_message reference_engine llm_read demo_conn demo_msg) = None.
Proof.
  apply (@typed_payload_raises_nothing cyrillic_table reference_engine
           llm_read demo_conn demo_msg reference_engine_uniform eq_refl).
  intros text E. vm_compute in E. injection E as <-.
  split; [vm_compute; reflexivity|]. split; [reflexivity|].
  intros d Ed. vm_compute in Ed. injection Ed as <-. vm_compute. reflexivity.
Defined.
